(** * XCOM packet-radio scripts: a shallow embedding and its properties

    The two scripts [scripts/fetch-ukpacket-nodes.py] and
    [scripts/discover-ukpacket-data-endpoint.py] are embedded as Rocq
    functions.  Python [str] values are lists of characters, Python [float]
    values are IEEE 754 binary64 numbers in the representation of
    [SpecFloat], regular expressions are syntax trees run by a backtracking
    matcher that tries alternatives in the order of Python's [re] module.

    Characters are 8-bit [ascii] values; the character classes below are
    those of Python on the ASCII range, so the embedding speaks about ASCII
    text ([isascii]).  Outside that range Python's classes hold more
    characters: other decimal digits for [\d] and [float], other white
    space for [\s] and [strip], other letters for [\w], [\b], [lower] and
    [upper]. *)

From Stdlib Require Import List Ascii ZArith QArith Lia Bool Arith Sorted.
From Stdlib Require Import Floats.SpecFloat.
Import ListNotations.

Set Implicit Arguments.

(* ================================================================== *)
(** ** Python strings *)

Definition str := list ascii.

Inductive str_literal := SNil | SCons (c : ascii) (s : str_literal).

Fixpoint str_literal_of_bytes (l : list Byte.byte) : str_literal :=
  match l with
  | [] => SNil
  | b :: l' => SCons (ascii_of_byte b) (str_literal_of_bytes l')
  end.

Fixpoint bytes_of_str_literal (s : str_literal) : list Byte.byte :=
  match s with
  | SNil => []
  | SCons c s' => byte_of_ascii c :: bytes_of_str_literal s'
  end.

Declare Scope str_scope.
Delimit Scope str_scope with str.
#[warning="-via-type-mismatch,-via-type-remapping"] String Notation str str_literal_of_bytes bytes_of_str_literal
  (via str_literal mapping [[nil] => SNil, [cons] => SCons]) : str_scope.

Open Scope char_scope.
Open Scope str_scope.
Open Scope list_scope.
Open Scope Z_scope.

Definition str_eq_dec : forall a b : str, {a = b} + {a <> b} :=
  list_eq_dec ascii_dec.

Fixpoint str_eqb (a b : str) : bool :=
  match a, b with
  | [], [] => true
  | x :: a', y :: b' => Ascii.eqb x y && str_eqb a' b'
  | _, _ => false
  end.

Definition code (c : ascii) : nat := nat_of_ascii c.

Definition in_range (lo hi : nat) (c : ascii) : bool :=
  (Nat.leb lo (code c) && Nat.leb (code c) hi)%bool.

(** [\d] of [re] on ASCII text: the digits 0 to 9. *)
Definition is_digit (c : ascii) : bool := in_range 48 57 c.
Definition is_lower (c : ascii) : bool := in_range 97 122 c.
Definition is_upper (c : ascii) : bool := in_range 65 90 c.

(** [\w] of [re] on ASCII text: letters, digits and the underscore. *)
Definition is_word (c : ascii) : bool :=
  (is_digit c || is_lower c || is_upper c || Ascii.eqb c "_")%bool.

(** [\s] of [re] and the characters removed by [str.strip()] on ASCII
    text: TAB, LF, VT, FF, CR, the four separators FS, GS, RS, US and the
    space. *)
Definition is_space (c : ascii) : bool :=
  (in_range 9 13 c || in_range 28 32 c)%bool.

(** [s.isascii()]: every character is below 128. *)
Definition isascii (s : list ascii) : bool :=
  forallb (fun c => Nat.ltb (code c) 128) s.

Definition to_lower (c : ascii) : ascii :=
  if is_upper c then ascii_of_nat (code c + 32) else c.

Definition to_upper (c : ascii) : ascii :=
  if is_lower c then ascii_of_nat (code c - 32) else c.

Definition lower (s : str) : str := map to_lower s.
Definition upper (s : str) : str := map to_upper s.

Fixpoint drop_while (p : ascii -> bool) (s : str) : str :=
  match s with
  | [] => []
  | c :: s' => if p c then drop_while p s' else s
  end.

(** [s.lstrip(chars)], [s.rstrip(chars)], [s.strip()], the set of characters
    given as a predicate. *)
Definition lstrip_chars (p : ascii -> bool) (s : str) : str := drop_while p s.
Definition rstrip_chars (p : ascii -> bool) (s : str) : str :=
  rev (drop_while p (rev s)).
Definition strip (s : str) : str :=
  rstrip_chars is_space (lstrip_chars is_space s).

Fixpoint startswith (s pre : str) : bool :=
  match pre, s with
  | [], _ => true
  | p :: pre', c :: s' => Ascii.eqb p c && startswith s' pre'
  | _ :: _, [] => false
  end.

(** [sub in s] *)
Fixpoint contains (sub s : str) : bool :=
  (startswith s sub ||
   match s with
   | [] => false
   | _ :: s' => contains sub s'
   end)%bool.

(** [s[a:b]] for [0 <= a] and [0 <= b]. *)
Definition slice (s : str) (a b : nat) : str := firstn (b - a) (skipn a s).

(** [s.replace(old, new)] for a non-empty [old]: occurrences are replaced
    from left to right and do not overlap; [skip] counts the characters of
    an occurrence that are still to be passed over. *)
Fixpoint replace_from (old new : str) (skip : nat) (s : str) : str :=
  match s with
  | [] => []
  | c :: s' =>
      match skip with
      | S n => replace_from old new n s'
      | O =>
          if startswith s old
          then new ++ replace_from old new (Nat.pred (length old)) s'
          else c :: replace_from old new 0 s'
      end
  end.

Definition replace (old new s : str) : str := replace_from old new 0 s.

(** [sep.join(parts)] *)
Fixpoint join (sep : str) (parts : list str) : str :=
  match parts with
  | [] => []
  | [p] => p
  | p :: rest => p ++ sep ++ join sep rest
  end.

(** Order of [str] values: lexicographic on the code points. *)
Fixpoint str_ltb (a b : str) : bool :=
  match a, b with
  | _, [] => false
  | [], _ :: _ => true
  | x :: a', y :: b' =>
      if Nat.ltb (code x) (code y) then true
      else if Nat.ltb (code y) (code x) then false
      else str_ltb a' b'
  end.

(* ================================================================== *)
(** ** The [re] module

    The patterns of the two scripts use literals, character classes,
    bounded and unbounded greedy repetition of a character class, [\b],
    alternation and groups.  [rmatch] is a backtracking matcher in
    continuation-passing style: alternatives are tried left to right and a
    greedy repetition first takes as many characters as it can, which is the
    order in which [re] explores them, so the first success is the match
    [re] reports. *)

Module re.

Inductive regex :=
| Eps
| Cls (p : ascii -> bool)
| Cat (r1 r2 : regex)
| Alt (r1 r2 : regex)
| Rep (p : ascii -> bool) (lo : nat) (hi : option nat)
| Bnd
| Grp (i : nat) (r : regex).

(** A position in the subject: the character before it, its index, the
    text from it on, and the groups captured so far. *)
Record cursor := Cursor {
  c_prev : option ascii;
  c_pos : nat;
  c_rest : str;
  c_caps : list (nat * str)
}.

Definition word_before (c : cursor) : bool :=
  match c_prev c with Some x => is_word x | None => false end.

Definition word_after (c : cursor) : bool :=
  match c_rest c with x :: _ => is_word x | [] => false end.

Definition at_boundary (c : cursor) : bool := xorb (word_before c) (word_after c).

Definition room (hi : option nat) : bool :=
  match hi with Some O => false | _ => true end.

Fixpoint rep_greedy (p : ascii -> bool) (k : cursor -> option cursor)
    (lo : nat) (hi : option nat) (prev : option ascii) (pos : nat)
    (caps : list (nat * str)) (rest : str) {struct rest} : option cursor :=
  let stop (_ : unit) :=
    match lo with
    | O => k (Cursor prev pos rest caps)
    | S _ => None
    end in
  match rest with
  | [] => stop tt
  | x :: rest' =>
      if (p x && room hi)%bool then
        match rep_greedy p k (Nat.pred lo) (option_map Nat.pred hi)
                (Some x) (S pos) caps rest' with
        | Some c => Some c
        | None => stop tt
        end
      else stop tt
  end.

Fixpoint rmatch (r : regex) (k : cursor -> option cursor) (c : cursor)
    : option cursor :=
  match r with
  | Eps => k c
  | Cls p =>
      match c_rest c with
      | x :: rest' =>
          if p x then k (Cursor (Some x) (S (c_pos c)) rest' (c_caps c)) else None
      | [] => None
      end
  | Cat r1 r2 => rmatch r1 (rmatch r2 k) c
  | Alt r1 r2 =>
      match rmatch r1 k c with
      | Some c' => Some c'
      | None => rmatch r2 k c
      end
  | Rep p lo hi => rep_greedy p k lo hi (c_prev c) (c_pos c) (c_caps c) (c_rest c)
  | Bnd => if at_boundary c then k c else None
  | Grp i r1 =>
      rmatch r1
        (fun c' =>
           k (Cursor (c_prev c') (c_pos c') (c_rest c')
                ((i, firstn (c_pos c' - c_pos c) (c_rest c)) :: c_caps c')))
        c
  end.

(** A match object: [m.start()], [m.end()], [m.group(0)] and the groups. *)
Record match_obj := Match {
  m_start : nat;
  m_end : nat;
  m_text : str;
  m_caps : list (nat * str)
}.

Fixpoint lookup_cap (i : nat) (caps : list (nat * str)) : str :=
  match caps with
  | [] => []
  | (j, s) :: caps' => if Nat.eqb i j then s else lookup_cap i caps'
  end.

(** [m.group(i)] *)
Definition group (m : match_obj) (i : nat) : str :=
  match i with
  | O => m_text m
  | _ => lookup_cap i (m_caps m)
  end.

Definition match_at (r : regex) (prev : option ascii) (pos : nat) (rest : str)
    : option match_obj :=
  match rmatch r Some (Cursor prev pos rest []) with
  | Some c => Some (Match pos (c_pos c) (firstn (c_pos c - pos) rest) (c_caps c))
  | None => None
  end.

Fixpoint search_from (r : regex) (prev : option ascii) (pos : nat) (rest : str)
    : option match_obj :=
  match match_at r prev pos rest with
  | Some m => Some m
  | None =>
      match rest with
      | [] => None
      | x :: rest' => search_from r (Some x) (S pos) rest'
      end
  end.

(** [re.search(r, s)] *)
Definition search (r : regex) (s : str) : option match_obj :=
  search_from r None 0 s.

(** The successive non-overlapping matches, left to right.  After a match
    the scan resumes at its end: [skip] counts the characters of the match
    still to be passed over.  Every pattern of the two scripts consumes at
    least one character, so [re]'s special rules for empty matches never
    come into play. *)
Fixpoint scan (r : regex) (prev : option ascii) (pos : nat) (skip : nat)
    (rest : str) {struct rest} : list match_obj :=
  match skip with
  | S n =>
      match rest with
      | [] => []
      | x :: rest' => scan r (Some x) (S pos) n rest'
      end
  | O =>
      match match_at r prev pos rest with
      | Some m =>
          m :: match rest with
               | [] => []
               | x :: rest' => scan r (Some x) (S pos) (Nat.pred (m_end m - pos)) rest'
               end
      | None =>
          match rest with
          | [] => []
          | x :: rest' => scan r (Some x) (S pos) 0 rest'
          end
      end
  end.

(** [re.finditer(r, s)] *)
Definition finditer (r : regex) (s : str) : list match_obj := scan r None 0 0 s.

(** [re.findall(r, s)] for a pattern without groups. *)
Definition findall (r : regex) (s : str) : list str := map m_text (finditer r s).

(** The text between the matches: before the first, between consecutive
    ones, after the last. *)
Fixpoint pieces (ms : list match_obj) (pos : nat) (rest : str) : list str :=
  match ms with
  | [] => [rest]
  | m :: ms' =>
      firstn (m_start m - pos) rest
        :: pieces ms' (m_end m) (skipn (m_end m - pos) rest)
  end.

(** [re.split(r, s)] for a pattern without groups. *)
Definition split (r : regex) (s : str) : list str := pieces (finditer r s) 0 s.

(** [re.sub(r, repl, s)] for a replacement text without back-references. *)
Definition sub (r : regex) (repl s : str) : str := join repl (split r s).

(** Pattern builders. *)
Fixpoint seq (rs : list regex) : regex :=
  match rs with
  | [] => Eps
  | [r] => r
  | r :: rs' => Cat r (seq rs')
  end.

Fixpoint alts (rs : list regex) : regex :=
  match rs with
  | [] => Cls (fun _ => false)
  | [r] => r
  | r :: rs' => Alt r (alts rs')
  end.

Definition chr (x : ascii) : regex := Cls (Ascii.eqb x).

(** A literal character under [re.I]. *)
Definition ichr (x : ascii) : regex :=
  Cls (fun c => Ascii.eqb (to_lower c) (to_lower x)).

Definition lit (s : str) : regex := seq (map chr s).
Definition ilit (s : str) : regex := seq (map ichr s).

Definition plus (p : ascii -> bool) : regex := Rep p 1 None.
Definition star (p : ascii -> bool) : regex := Rep p 0 None.
Definition range (p : ascii -> bool) (lo hi : nat) : regex := Rep p lo (Some hi).

End re.

(* ================================================================== *)
(** ** Python floats

    A Python [float] is an IEEE 754 binary64 number; [spec_float] gives its
    sign, mantissa and exponent, and [SFdiv] and [binary_normalize] of
    [SpecFloat] are the correctly rounded division and conversion.
    Comparisons are those of the represented numbers, which is what IEEE
    comparison is on values that are not NaN. *)

Definition pyfloat := spec_float.

Definition prec : Z := 53.
Definition emax : Z := 1024.

(** [x / y] for a divisor that is not zero. *)
Definition float_div (x y : pyfloat) : pyfloat := SFdiv prec emax x y.

(** The binary64 number nearest to [n / d] (ties to even), with sign [s]:
    the value of a decimal literal with digits [n] and denominator [d]. *)
Definition float_of_ratio (s : bool) (n : Z) (d : positive) : pyfloat :=
  match n with
  | Zpos p => SFdiv prec emax (S754_finite s p 0) (S754_finite false d 0)
  | _ => S754_zero s
  end.

(** [float(z)] for an [int]: [None] stands for [OverflowError]. *)
Definition float_of_int (z : Z) : option pyfloat :=
  match binary_normalize prec emax z 0 false with
  | S754_infinity _ => None
  | x => Some x
  end.

Definition is_nan (x : pyfloat) : bool :=
  match x with S754_nan => true | _ => false end.

(** Mantissa and exponent of a finite number: its value is
    [mant x * 2 ^ expo x]. *)
Definition mant (x : pyfloat) : Z :=
  match x with
  | S754_finite s m _ => if s then Zneg m else Zpos m
  | _ => 0
  end.

Definition expo (x : pyfloat) : Z :=
  match x with
  | S754_finite _ _ e => e
  | _ => 0
  end.

(** Comparison of [m1 * 2 ^ e1] with [m2 * 2 ^ e2]. *)
Definition dy_cmp (m1 e1 m2 e2 : Z) : comparison :=
  let e := Z.min e1 e2 in
  (m1 * 2 ^ (e1 - e) ?= m2 * 2 ^ (e2 - e)).

Definition fcompare (x y : pyfloat) : option comparison :=
  match x, y with
  | S754_nan, _ | _, S754_nan => None
  | S754_infinity s1, S754_infinity s2 =>
      Some match s1, s2 with
           | true, true | false, false => Eq
           | true, false => Lt
           | false, true => Gt
           end
  | S754_infinity s, _ => Some (if s then Lt else Gt)
  | _, S754_infinity s => Some (if s then Gt else Lt)
  | _, _ => Some (dy_cmp (mant x) (expo x) (mant y) (expo y))
  end.

(** [x <= y] and [x == y] *)
Definition fle (x y : pyfloat) : bool :=
  match fcompare x y with
  | Some (Lt | Eq) => true
  | _ => false
  end.

Definition feq (x y : pyfloat) : bool :=
  match fcompare x y with
  | Some Eq => true
  | _ => false
  end.

(** The integer nearest to [n / d], ties to the even one ([0 <= n], [0 < d]). *)
Definition round_half_even (n d : Z) : Z :=
  let q := n / d in
  match (2 * (n mod d) ?= d) with
  | Lt => q
  | Gt => q + 1
  | Eq => if Z.even q then q else q + 1
  end.

(** The integer nearest to [m * 2 ^ e * k], ties to even: the digits of the
    number in fixed-point notation with [k] a power of ten. *)
Definition scaled_round (m : positive) (e : Z) (k : Z) : Z :=
  if 0 <=? e then Zpos m * 2 ^ e * k
  else round_half_even (Zpos m * k) (2 ^ (- e)).

(** [round(x, 5)]: the decimal digits of [x] rounded to five places, read
    back as a float. *)
Definition py_round5 (x : pyfloat) : pyfloat :=
  match x with
  | S754_finite s m e => float_of_ratio s (scaled_round m e 100000) 100000
  | _ => x
  end.

(** Decimal digits. *)
Definition digit_chr (d : Z) : ascii := ascii_of_nat (48 + Z.to_nat d).
Definition digit_val (c : ascii) : Z := Z.of_nat (code c) - 48.

Definition digits_value (l : str) : Z :=
  fold_left (fun a c => 10 * a + digit_val c) l 0.

Fixpoint digits_from (fuel : nat) (n : Z) (acc : str) : str :=
  match fuel with
  | O => acc
  | S f =>
      let acc' := digit_chr (n mod 10) :: acc in
      if n / 10 =? 0 then acc' else digits_from f (n / 10) acc'
  end.

(** [str(n)] for an [int]; the number of binary digits of [n] bounds the
    number of its decimal digits. *)
Definition str_of_nonneg (n : Z) : str :=
  digits_from (S (Z.to_nat (Z.log2 n))) n [].

Definition str_of_int (z : Z) : str :=
  if z <? 0 then "-"%char :: str_of_nonneg (- z) else str_of_nonneg z.

(** The [k] low decimal digits of [n], zero-padded. *)
Fixpoint pad_digits (k : nat) (n : Z) : str :=
  match k with
  | O => []
  | S k' => pad_digits k' (n / 10) ++ [digit_chr (n mod 10)]
  end.

Definition sign_str (s : bool) : str := if s then "-" else "".

(** [n] millionths in fixed-point notation with six decimals. *)
Definition fixed6 (n : Z) : str :=
  str_of_nonneg (n / 1000000) ++ "." ++ pad_digits 6 (n mod 1000000).

(** [f"{x:.6f}"] *)
Definition format_f6 (x : pyfloat) : str :=
  match x with
  | S754_nan => "nan"
  | S754_infinity s => sign_str s ++ "inf"
  | S754_zero s => sign_str s ++ fixed6 0
  | S754_finite s m e => sign_str s ++ fixed6 (scaled_round m e 1000000)
  end.

(** Decimal literals [digits], [digits.digits], [digits.] and [.digits]:
    the digits without the point and the number of digits after it. *)
Fixpoint span_digits (s : str) : str * str :=
  match s with
  | c :: s' =>
      if is_digit c then let (a, b) := span_digits s' in (c :: a, b)
      else ([], s)
  | [] => ([], [])
  end.

Definition parse_decimal (s : str) : option (Z * nat) :=
  let (ip, rest) := span_digits s in
  match rest with
  | [] =>
      match ip with
      | [] => None
      | _ => Some (digits_value ip, O)
      end
  | "."%char :: fr =>
      let (fp, rest') := span_digits fr in
      match rest', (ip ++ fp) with
      | [], _ :: _ => Some (digits_value (ip ++ fp), length fp)
      | _, _ => None
      end
  | _ => None
  end.

(** The number a decimal literal denotes. *)
Definition decimal_value (s : str) : option Q :=
  match parse_decimal s with
  | Some (n, k) => Some (n # Z.to_pos (10 ^ Z.of_nat k))
  | None => None
  end.

(** [float(s)] on an optionally signed decimal literal surrounded by
    optional white space; [None] stands for [ValueError].  Python's [float]
    also reads exponents, underscores and the spellings of infinity and NaN;
    the definitions below take [float] on strings as a parameter and this
    function is the instance used to run them on decimal literals. *)
Definition float_of_decimal (s0 : str) : option pyfloat :=
  let s := strip s0 in
  let '(neg, body) :=
    match s with
    | "-"%char :: t => (true, t)
    | "+"%char :: t => (false, t)
    | _ => (false, s)
    end in
  match parse_decimal body with
  | Some (n, k) => Some (float_of_ratio neg n (Z.to_pos (10 ^ Z.of_nat k)))
  | None => None
  end.

(* ================================================================== *)
(** ** Python values, exceptions, and the builtins taken as parameters *)

(** A decoded JSON value.  A [dict] is kept as an association list whose
    first binding of a key is the value of the key. *)
#[warning="-register-all"] Inductive pyval :=
| PyNone
| PyBool (b : bool)
| PyInt (z : Z)
| PyFloat (x : pyfloat)
| PyStr (s : str)
| PyList (l : list pyval)
| PyDict (d : list (str * pyval)).

Definition dict := list (str * pyval).

(** [d.get(k)] *)
Fixpoint dict_get (d : dict) (k : str) : pyval :=
  match d with
  | [] => PyNone
  | (k', v) :: d' => if str_eqb k k' then v else dict_get d' k
  end.

Definition nonempty (s : str) : bool :=
  match s with [] => false | _ :: _ => true end.

(** Truth value of an object, as [or], [not] and [if] test it. *)
Definition truthy (v : pyval) : bool :=
  match v with
  | PyNone => false
  | PyBool b => b
  | PyInt z => negb (z =? 0)
  | PyFloat (S754_zero _) => false
  | PyFloat _ => true
  | PyStr s => nonempty s
  | PyList l => match l with [] => false | _ :: _ => true end
  | PyDict d => match d with [] => false | _ :: _ => true end
  end.

Inductive exn := AttributeError.

Inductive result (A : Type) :=
| Ok (a : A)
| Raise (e : exn).
Arguments Ok {A} a.
Arguments Raise {A} e.

Definition bind {A B : Type} (r : result A) (f : A -> result B) : result B :=
  match r with
  | Ok a => f a
  | Raise e => Raise e
  end.

Notation "x <- r ;; k" := (bind r (fun x => k))
  (at level 61, r at next level, right associativity).

(** [v.get(k)]: only a [dict] has the method. *)
Definition get (v : pyval) (k : str) : result pyval :=
  match v with
  | PyDict d => Ok (dict_get d k)
  | _ => Raise AttributeError
  end.

(** [v or <alt>]: the alternative is evaluated only when [v] is falsy. *)
Definition or_else (v : pyval) (alt : result pyval) : result pyval :=
  if truthy v then Ok v else alt.

(** [(v or "")] used as a [str]: a truthy value that is not a [str] has none
    of the [str] methods. *)
Definition as_text (v : pyval) : result str :=
  match v with
  | PyStr s => Ok s
  | _ => if truthy v then Raise AttributeError else Ok ""
  end.

(** The conversions between [str] and [float] are Python builtins; the
    scripts are embedded over any behaviour of the two. *)
Class Builtins := {
  (** [float(s)] for a [str]; [None] stands for [ValueError]. *)
  float_of_str : str -> option pyfloat;
  (** [str(x)] for a [float]. *)
  str_of_float : pyfloat -> str
}.

(** The instance that runs the examples: decimal literals are read by
    [float_of_decimal]; no example prints a float. *)
#[global] Instance decimal_builtins : Builtins := {
  float_of_str := float_of_decimal;
  str_of_float := format_f6
}.

Section Model.
Context {B : Builtins}.

(** [float(v)]; [None] stands for the exception ([TypeError], [ValueError]
    or [OverflowError]). *)
Definition py_float (v : pyval) : option pyfloat :=
  match v with
  | PyBool b => float_of_int (if b then 1 else 0)
  | PyInt z => float_of_int z
  | PyFloat x => Some x
  | PyStr s => float_of_str s
  | PyNone | PyList _ | PyDict _ => None
  end.

(* ================================================================== *)
(** ** scripts/fetch-ukpacket-nodes.py *)

Definition SOURCE_URL : str :=
  "https://nodes.ukpacketradio.network/packet-network-map.html?rfonly=0".
Definition DATA_URL : str :=
  "https://nodes.ukpacketradio.network/api/nodedata/geojson?linkType=RF&linkType=Internet&linkType=Other&linkType=PrivateNet".

Record channel := Channel {
  freq : str;
  baud : str;
  raw : str
}.

Record PacketItem := {
  it_id : Z;
  it_type : str;
  it_callsign : str;
  it_name : str;
  it_location : str;
  it_country : str;
  it_lat : pyfloat;
  it_lng : pyfloat;
  it_freq : str;
  it_baud : str;
  it_channels : list channel;
  it_mode : str;
  it_status : str;
  it_notes : str
}.

Definition _absolutize (base_url maybe_relative : str) : str :=
  if (startswith maybe_relative "http://" || startswith maybe_relative "https://")%bool
  then maybe_relative
  else if startswith maybe_relative "//" then "https:" ++ maybe_relative
  else "https://nodes.ukpacketradio.network/"
         ++ lstrip_chars (Ascii.eqb "/") maybe_relative.

Definition dquote : ascii := "034".
Definition squote : ascii := "'".

(** The class [[^\x22'\s>]]: anything but the two quotes, white space and
    the closing angle bracket. *)
Definition url_char (c : ascii) : bool :=
  negb (Ascii.eqb c dquote || Ascii.eqb c squote || is_space c || Ascii.eqb c ">").

(** [api/nodedata/geojson\?[^\x22'\s>]+] with [re.I] *)
Definition api_re : re.regex :=
  re.seq [re.ilit "api/nodedata/geojson?"; re.plus url_char].

(** [x] put at its place in an increasing list, unless it is there. *)
Fixpoint insert_sorted (x : str) (l : list str) : list str :=
  match l with
  | [] => [x]
  | y :: l' =>
      if str_eqb x y then l
      else if str_ltb x y then x :: l
      else y :: insert_sorted x l'
  end.

(** [sorted(set(l))]: the distinct elements in increasing order. *)
Definition sorted_set (l : list str) : list str :=
  fold_right insert_sorted [] l.

(** The set [candidates] is iterated in an order Python does not fix; the
    result is sorted, so the order of first occurrence stands for it. *)
Definition _find_data_urls_from_html (html : str) : list str :=
  let candidates := nodup str_eq_dec (re.findall api_re html) in
  let urls := map (_absolutize SOURCE_URL) candidates in
  let urls := urls ++ [DATA_URL] in
  sorted_set urls.

Definition _guess_type (display_text : str) : str :=
  let s := lower display_text in
  if (contains "bbs" s || contains "mailbox" s)%bool then "bbs" else "node".

Fixpoint _pick (props : pyval) (keys : list str) : result str :=
  match keys with
  | [] => Ok ""
  | k :: keys' =>
      v <- get props k ;;
      match v with
      | PyNone => _pick props keys'
      | PyBool b => Ok (if b then "True" else "False")
      | PyInt z => Ok (str_of_int z)
      | PyFloat x => Ok (str_of_float x)
      | PyStr s => if nonempty (strip s) then Ok (strip s) else _pick props keys'
      | PyList _ | PyDict _ => _pick props keys'
      end
  end.

Definition _fmt_mhz (v : pyfloat) : str :=
  rstrip_chars (Ascii.eqb ".") (rstrip_chars (Ascii.eqb "0") (format_f6 v)).

Definition half : pyfloat := float_of_ratio false 1 2.
Definition five_hundred : pyfloat := float_of_ratio false 500 1.
Definition thousand : pyfloat := float_of_ratio false 1000 1.

Definition _to_mhz_str (raw_num : str) (unit : option str) : option str :=
  if negb (nonempty raw_num) then None
  else
    let s := replace "," "." (strip raw_num) in
    match float_of_str s with
    | None => None
    | Some v =>
        let u := strip (lower (match unit with Some u => u | None => "" end)) in
        let v := if str_eqb u "khz" then float_div v thousand else v in
        if negb (fle half v && fle v five_hundred) then None
        else Some (_fmt_mhz v)
    end.

Definition _strip_html (html : str) : str :=
  if negb (nonempty html) then ""
  else
    let s := re.sub (re.seq [re.chr "<"; re.plus (fun c => negb (Ascii.eqb c ">")); re.chr ">"])
               " " html in
    strip (re.sub (re.plus is_space) " " s).

Definition is_dot_or_comma (c : ascii) : bool :=
  (Ascii.eqb c "." || Ascii.eqb c ",")%bool.

(** [\bport\b|\s-\s|\|] *)
Definition chunk_sep_re : re.regex :=
  re.alts [re.seq [re.Bnd; re.lit "port"; re.Bnd];
           re.seq [re.Cls is_space; re.chr "-"; re.Cls is_space];
           re.chr "|"].

(** [\b(\d{2,5})\s*(?:baud|bd|bps|b/s)\b] with [re.I] *)
Definition baud_re : re.regex :=
  re.seq [re.Bnd; re.Grp 1 (re.range is_digit 2 5); re.star is_space;
          re.alts [re.ilit "baud"; re.ilit "bd"; re.ilit "bps"; re.ilit "b/s"];
          re.Bnd].

(** [\b(\d{1,2})k(\d)\b] with [re.I] *)
Definition kbaud_re : re.regex :=
  re.seq [re.Bnd; re.Grp 1 (re.range is_digit 1 2); re.ichr "k";
          re.Grp 2 (re.Cls is_digit); re.Bnd].

(** [\b(\d{1,5}[\.,]\d{1,6})\s*(mhz|khz)\b] with [re.I] *)
Definition unit_freq_re : re.regex :=
  re.seq [re.Bnd;
          re.Grp 1 (re.seq [re.range is_digit 1 5; re.Cls is_dot_or_comma;
                            re.range is_digit 1 6]);
          re.star is_space;
          re.Grp 2 (re.alts [re.ilit "mhz"; re.ilit "khz"]);
          re.Bnd].

(** [\b(?:afsk|fsk|bpsk|qpsk|il2p|fx25|ax25|aprs|vara|ardop|fm|usb|lsb|vhf|uhf|hf)\b] *)
Definition rf_context_re : re.regex :=
  re.seq [re.Bnd;
          re.alts (map re.lit
            ["afsk"; "fsk"; "bpsk"; "qpsk"; "il2p"; "fx25"; "ax25"; "aprs";
             "vara"; "ardop"; "fm"; "usb"; "lsb"; "vhf"; "uhf"; "hf"]);
          re.Bnd].

(** [\b(\d{1,3}[\.,]\d{1,6})\b] *)
Definition bare_freq_re : re.regex :=
  re.seq [re.Bnd;
          re.Grp 1 (re.seq [re.range is_digit 1 3; re.Cls is_dot_or_comma;
                            re.range is_digit 1 6]);
          re.Bnd].

Definition _baud_in (chunk : str) : str :=
  match re.search baud_re chunk with
  | Some m => re.group m 1
  | None =>
      match re.search kbaud_re chunk with
      | Some mk =>
          str_of_int (digits_value (re.group mk 1) * 1000
                      + digits_value (re.group mk 2) * 100)
      | None => ""
      end
  end.

(** One turn of the loop over the unit-bearing matches of a chunk. *)
Definition unit_record (baud : str) (m : re.match_obj) : list channel :=
  match _to_mhz_str (re.group m 1) (Some (re.group m 2)) with
  | Some mhz =>
      if nonempty mhz then [Channel mhz baud (re.group m 0)] else []
  | None => []
  end.

(** One turn of the loop over the bare numbers of a chunk. *)
Definition bare_record (ch baud : str) (m : re.match_obj) : list channel :=
  let before := slice ch (re.m_start m - 1) (re.m_start m) in
  let after := slice ch (re.m_end m) (Nat.min (length ch) (re.m_end m + 1)) in
  if (str_eqb before "." || str_eqb after ".")%bool then []
  else
    match _to_mhz_str (re.group m 1) None with
    | Some mhz =>
        if nonempty mhz then [Channel mhz baud (re.group m 1)] else []
    | None => []
    end.

Definition unit_records (ch baud : str) : list channel :=
  flat_map (unit_record baud) (re.finditer unit_freq_re ch).

Definition bare_records (ch baud : str) : list channel :=
  flat_map (bare_record ch baud) (re.finditer bare_freq_re ch).

Definition has_rf_context (ch : str) : bool :=
  match re.search rf_context_re ch with Some _ => true | None => false end.

(** The body of [for ch in chunks]: what one chunk appends to [channels]. *)
Definition chunk_channels (ch : str) : list channel :=
  let baud := _baud_in ch in
  unit_records ch baud
    ++ (if has_rf_context ch then bare_records ch baud else []).

(** The de-duplication loop of both [_extract_channels] and [_build_items]:
    [seen] is the set of keys met so far, [key in seen] is decided by the
    equality [keq] of the keys. *)
Fixpoint dedupe_loop {A K : Type} (key : A -> K) (keq : K -> K -> bool)
    (seen : list K) (l : list A) : list A :=
  match l with
  | [] => []
  | c :: l' =>
      if existsb (keq (key c)) seen then dedupe_loop key keq seen l'
      else c :: dedupe_loop key keq (key c :: seen) l'
  end.

Definition channel_key (c : channel) : str * str := (freq c, baud c).

Definition pair_eqb (a b : str * str) : bool :=
  (str_eqb (fst a) (fst b) && str_eqb (snd a) (snd b))%bool.

(** The list [channels] before the de-duplication. *)
Definition collect_channels (display_text : str) : list channel :=
  let s := _strip_html display_text in
  let s_l := lower s in
  let chunks := re.split chunk_sep_re s_l in
  flat_map chunk_channels chunks.

Definition _extract_channels (display_text : str) : list channel :=
  dedupe_loop channel_key pair_eqb [] (collect_channels display_text).

Definition _parse_freq_baud (display_text : str) : str * str * list channel :=
  let channels := _extract_channels display_text in
  let primary :=
    match find (fun c => (nonempty (freq c) && nonempty (baud c))%bool) channels with
    | Some c => Some c
    | None => find (fun c => nonempty (freq c)) channels
    end in
  match primary with
  | Some c => (freq c, baud c, channels)
  | None => ("", "", channels)
  end.

Definition _as_float (v : pyval) : option pyfloat :=
  match py_float v with
  | Some f => if is_nan f then None else Some f
  | None => None
  end.

(** [[A-Z0-9]{3,}] *)
Definition callsign_re : re.regex :=
  re.Rep (fun c => (is_upper c || is_digit c)%bool) 3 None.

(** [p.get("lat") or props.get("lat") or props.get("latitude")], then
    [_as_float]. *)
Definition point_lat (p : dict) (props : pyval) : result (option pyfloat) :=
  v <- or_else (dict_get p "lat") (get props "lat") ;;
  v <- or_else v (get props "latitude") ;;
  Ok (_as_float v).

(** [p.get("lng") or props.get("lng") or props.get("lon") or
    props.get("longitude")], then [_as_float]. *)
Definition point_lng (p : dict) (props : pyval) : result (option pyfloat) :=
  v <- or_else (dict_get p "lng") (get props "lng") ;;
  v <- or_else v (get props "lon") ;;
  v <- or_else v (get props "longitude") ;;
  Ok (_as_float v).

(** [p.get(k) or {}] *)
Definition get_or_empty (p : dict) (k : str) : pyval :=
  if truthy (dict_get p k) then dict_get p k else PyDict [].

(** The body of the loop of [_build_items] over the points: [Ok None] is
    [continue], [Ok (Some it)] appends [it], which takes the identifier
    [next_id].  The first use of [display_text] as a string is in
    [_guess_type], where a truthy value that is not a [str] raises. *)
Definition build_item (p : dict) (next_id : Z) : result (option PacketItem) :=
  let props := get_or_empty p "properties" in
  let feature := get_or_empty p "feature" in
  lat <- point_lat p props ;;
  lng <- point_lng p props ;;
  match lat, lng with
  | Some lat, Some lng =>
      title_pick <- _pick props ["title"] ;;
      callsign <- (if nonempty title_pick then Ok title_pick
                   else _pick feature ["node"; "callsign"]) ;;
      match re.search callsign_re (upper callsign) with
      | None => Ok None
      | Some _ =>
          v <- get feature "displayText" ;;
          v <- or_else v (get feature "display") ;;
          display_text <- as_text (if truthy v then v else PyStr "") ;;
          let typ := _guess_type display_text in
          let '(freq, baud, channels) := _parse_freq_baud display_text in
          let title := strip callsign in
          let notes := _strip_html display_text in
          let status :=
            if contains "age:" (lower display_text) then "online" else "unknown" in
          Ok (Some {|
            it_id := next_id;
            it_type := typ;
            it_callsign := strip callsign;
            it_name := if nonempty title then title else strip callsign;
            it_location := "";
            it_country := "";
            it_lat := lat;
            it_lng := lng;
            it_freq := freq;
            it_baud := baud;
            it_channels := channels;
            it_mode := "AX.25";
            it_status := status;
            it_notes := notes
          |})
      end
  | _, _ => Ok None
  end.

(** The first loop of [_build_items]: the list [items] it builds from
    [points], the next free identifier being [next_id]. *)
Fixpoint build_loop (points : list dict) (next_id : Z) : result (list PacketItem) :=
  match points with
  | [] => Ok []
  | p :: points' =>
      r <- build_item p next_id ;;
      match r with
      | None => build_loop points' next_id
      | Some it =>
          items <- build_loop points' (next_id + 1) ;;
          Ok (it :: items)
      end
  end.

(** [(it.callsign.upper(), round(it.lat, 5), round(it.lng, 5), it.type)] *)
Definition item_key (it : PacketItem) : str * pyfloat * pyfloat * str :=
  (upper (it_callsign it), py_round5 (it_lat it), py_round5 (it_lng it), it_type it).

(** Equality of two keys: [==] on each component. *)
Definition item_key_eqb (a b : str * pyfloat * pyfloat * str) : bool :=
  let '(c1, la1, lo1, t1) := a in
  let '(c2, la2, lo2, t2) := b in
  (str_eqb c1 c2 && feq la1 la2 && feq lo1 lo2 && str_eqb t1 t2)%bool.

Definition _build_items (points : list dict) : result (list PacketItem) :=
  items <- build_loop points 1 ;;
  Ok (dedupe_loop item_key item_key_eqb [] items).

Definition _js_escape (s : str) : str :=
  replace "${" "\${" (replace "`" "\`" (replace "\" "\\" s)).

(** The lines [_write_packet_data_js] appends for one channel and for one
    item. *)
Definition channel_line (ch : channel) : str :=
  "      { freq: '" ++ _js_escape (freq ch) ++ "', baud: '" ++ _js_escape (baud ch)
    ++ "', raw: '" ++ _js_escape (raw ch) ++ "' },".

Definition item_lines (it : PacketItem) : list str :=
  [ "  {";
    "    id: " ++ str_of_int (it_id it) ++ ",";
    "    type: '" ++ _js_escape (it_type it) ++ "',";
    "    callsign: '" ++ _js_escape (it_callsign it) ++ "',";
    "    name: '" ++ _js_escape (it_name it) ++ "',";
    "    location: '" ++ _js_escape (it_location it) ++ "',";
    "    country: '" ++ _js_escape (it_country it) ++ "',";
    "    lat: " ++ str_of_float (it_lat it) ++ ",";
    "    lng: " ++ str_of_float (it_lng it) ++ ",";
    "    freq: '" ++ _js_escape (it_freq it) ++ "',";
    "    baud: '" ++ _js_escape (it_baud it) ++ "'," ]
  ++ match it_channels it with
     | [] => [ "    channels: []," ]
     | chs => [ "    channels: [" ] ++ map channel_line chs ++ [ "    ]," ]
     end
  ++ [ "    mode: '" ++ _js_escape (it_mode it) ++ "',";
       "    status: '" ++ _js_escape (it_status it) ++ "',";
       "    notes: '" ++ _js_escape (it_notes it) ++ "'";
       "  }," ].

(* ================================================================== *)
(** ** scripts/discover-ukpacket-data-endpoint.py *)

Definition BASE : str := "https://nodes.ukpacketradio.network/".

Definition absolutize (url : str) : str :=
  if (startswith url "http://" || startswith url "https://")%bool then url
  else if startswith url "//" then "https:" ++ url
  else BASE ++ lstrip_chars (Ascii.eqb "/") url.

Definition not_dquote (c : ascii) : bool := negb (Ascii.eqb c dquote).
Definition is_quote (c : ascii) : bool := (Ascii.eqb c dquote || Ascii.eqb c squote)%bool.

(** [<script[^>]+src=\x22([^\x22]+)\x22] with [re.I] *)
Definition script_re : re.regex :=
  re.seq [re.ilit "<script"; re.plus (fun c => negb (Ascii.eqb c ">"));
          re.ilit "src="; re.chr dquote; re.Grp 1 (re.plus not_dquote);
          re.chr dquote].

(** [(?:fetch\(|XMLHttpRequest\(|open\(|axios\.|\$\.get\(|\$\.getJSON\(|\$\.ajax\(|getJSON\()\s*[\(\{\s]*[\x22']([^\x22']+)]
    with [re.I] *)
Definition endpoint_re : re.regex :=
  re.seq [re.alts (map re.ilit
            ["fetch("; "XMLHttpRequest("; "open("; "axios."; "$.get(";
             "$.getJSON("; "$.ajax("; "getJSON("]);
          re.star is_space;
          re.star (fun c => (Ascii.eqb c "(" || Ascii.eqb c "{" || is_space c)%bool);
          re.Cls is_quote;
          re.Grp 1 (re.plus (fun c => negb (is_quote c)))].

(** [(?:https?:)?//[^\x22'\s>]+] with [re.I] *)
Definition url_re : re.regex :=
  re.seq [re.Alt (re.seq [re.ilit "http"; re.range (fun c => Ascii.eqb (to_lower c) "s") 0 1;
                          re.chr ":"])
                 re.Eps;
          re.lit "//"; re.plus url_char].

Definition scan_endpoints (text : str) : list str :=
  map (fun m => absolutize (re.group m 1)) (re.finditer endpoint_re text).

Definition scan_urls (text : str) : list str :=
  map (fun m => absolutize (re.group m 0)) (re.finditer url_re text).

Definition on_host (u : str) : bool := contains "nodes.ukpacketradio.network" u.

Section Discover.
(** [get_text(url)]; [None] stands for an exception of the request. *)
Variable get_text : str -> option str.

Definition discover_scripts (html : str) : list str :=
  sorted_set (map (fun m => absolutize (re.group m 1)) (re.finditer script_re html)).

Definition fetched_scripts (html : str) : list str :=
  flat_map (fun s => match get_text s with Some js => [js] | None => [] end)
    (discover_scripts html).

(** The sets [endpoints] and [all_urls] of [main], each as the sorted list
    the report prints. *)
Definition discover_endpoints (html : str) : list str :=
  sorted_set (filter on_host
    (flat_map scan_endpoints (fetched_scripts html) ++ scan_endpoints html)).

Definition discover_all_urls (html : str) : list str :=
  sorted_set (filter on_host
    (flat_map scan_urls (fetched_scripts html) ++ scan_urls html)).

End Discover.

End Model.

(* ================================================================== *)
(** ** Reading a JavaScript string literal

    The generated module is JavaScript; a field is written between single
    quotes.  [js_read_single_quoted] reads such a literal as the language
    does (ECMAScript, StringLiteral): it returns the string value and the
    text left after the closing quote.  A line terminator inside the literal
    or a missing closing quote is a syntax error; escapes with digits, [x] or
    [u] and line continuations do not occur in what [_js_escape] writes from
    the texts considered here and are not read. *)

Definition js_escape_char (c : ascii) : option ascii :=
  if Ascii.eqb c "n" then Some "010"%char
  else if Ascii.eqb c "t" then Some "009"%char
  else if Ascii.eqb c "r" then Some "013"%char
  else if Ascii.eqb c "b" then Some "008"%char
  else if Ascii.eqb c "f" then Some "012"%char
  else if Ascii.eqb c "v" then Some "011"%char
  else if (is_digit c || Ascii.eqb c "x" || Ascii.eqb c "u")%bool then None
  else if (Ascii.eqb c "010" || Ascii.eqb c "013")%bool then None
  else Some c.

Fixpoint js_read_body (s : str) : option (str * str) :=
  match s with
  | [] => None
  | c :: s' =>
      if Ascii.eqb c "'" then Some ([], s')
      else if (Ascii.eqb c "010" || Ascii.eqb c "013")%bool then None
      else if Ascii.eqb c "\" then
        match s' with
        | [] => None
        | e :: s'' =>
            match js_escape_char e, js_read_body s'' with
            | Some x, Some (v, rest) => Some (x :: v, rest)
            | _, _ => None
            end
        end
      else
        match js_read_body s' with
        | Some (v, rest) => Some (c :: v, rest)
        | None => None
        end
  end.

Definition js_read_single_quoted (s : str) : option (str * str) :=
  match s with
  | c :: s' => if Ascii.eqb c "'" then js_read_body s' else None
  | [] => None
  end.

(* ================================================================== *)
(** ** Notions used to state the properties *)

(** [subseq l1 l2]: [l1] is [l2] with some elements left out, the order
    kept. *)
Inductive subseq {A : Type} : list A -> list A -> Prop :=
| subseq_nil : subseq [] []
| subseq_skip (x : A) (l1 l2 : list A) : subseq l1 l2 -> subseq l1 (x :: l2)
| subseq_keep (x : A) (l1 l2 : list A) : subseq l1 l2 -> subseq (x :: l1) (x :: l2).

(** The elements of [l] whose key is the key of no element before them;
    [before] holds the keys of all the elements already passed, kept or
    not. *)
Fixpoint first_occurrences {A K : Type} (key : A -> K) (keq : K -> K -> bool)
    (before : list K) (l : list A) : list A :=
  match l with
  | [] => []
  | c :: l' =>
      if existsb (keq (key c)) before
      then first_occurrences key keq (key c :: before) l'
      else c :: first_occurrences key keq (key c :: before) l'
  end.

Definition all_digits (l : str) : Prop := Forall (fun c => is_digit c = true) l.

(** Two records with the same pair: the same frequency and the same baud. *)
Definition same_pair (a b : channel) : bool :=
  (str_eqb (freq a) (freq b) && str_eqb (baud a) (baud b))%bool.

(** Two items with the same key: the callsigns are equal once in capital
    letters, the latitudes and the longitudes are equal as floats once
    rounded to five places, and the types are equal. *)
Definition same_key (a b : PacketItem) : bool :=
  (str_eqb (upper (it_callsign a)) (upper (it_callsign b))
   && feq (py_round5 (it_lat a)) (py_round5 (it_lat b))
   && feq (py_round5 (it_lng a)) (py_round5 (it_lng b))
   && str_eqb (it_type a) (it_type b))%bool.





(** The identifiers [n], [n + 1], ... given to [k] items in a row. *)
Fixpoint count_from (n : Z) (k : nat) : list Z :=
  match k with
  | O => []
  | S k' => n :: count_from (n + 1) k'
  end.

(** Inputs of the examples: a point with a callsign and no description, the
    same with a latitude given as a text, a point whose description holds
    an apostrophe, a station on the equator whose properties give another
    latitude, a feature whose properties are a text, with its collection
    and its point, and a page without any endpoint. *)
Definition gap_point (callsign : str) : dict :=
  [("lat", PyInt 51); ("lng", PyInt 1);
   ("properties", PyDict [("title", PyStr callsign)])].

Definition apostrophe_point : dict :=
  [("lat", PyInt 51); ("lng", PyInt 1);
   ("properties", PyDict [("title", PyStr "GB7AAA")]);
   ("feature", PyDict [("displayText", PyStr "Bob's node")])].

Definition placed_point (callsign lat : str) : dict :=
  [("lat", PyStr lat); ("lng", PyInt 1);
   ("properties", PyDict [("title", PyStr callsign)])].





Definition plain_page : str := "<html><body>no endpoint here</body></html>".

(** What [_js_escape] writes for one character that is not part of a
    dollar-brace pair. *)
Definition esc_char (c : ascii) : str :=
  if Ascii.eqb c "\" then "\\"
  else if Ascii.eqb c "`" then "\`"
  else [c].

(** [s.replace("${", new)] and [_js_escape] in one pass over the text. *)
Fixpoint dollar_direct (new s : str) : str :=
  match s with
  | [] => []
  | c :: rest =>
      match rest with
      | d :: rest' =>
          if (Ascii.eqb c "$" && Ascii.eqb d "{")%bool
          then new ++ dollar_direct new rest'
          else c :: dollar_direct new rest
      | [] => [c]
      end
  end.

Fixpoint esc_direct (s : str) : str :=
  match s with
  | [] => []
  | c :: rest =>
      match rest with
      | d :: rest' =>
          if (Ascii.eqb c "$" && Ascii.eqb d "{")%bool
          then "\${" ++ esc_direct rest'
          else esc_char c ++ esc_direct rest
      | [] => esc_char c
      end
  end.

(** A text that a single-quoted literal can hold as it is. *)
Definition quote_free (s : str) : Prop :=
  Forall (fun c => c <> "'"%char /\ c <> "010"%char /\ c <> "013"%char) s.

(** A frequency string lies in the band when it is a decimal literal whose
    value is between 0.5 and 500. *)
Definition in_band (s : str) : Prop :=
  exists q : Q, decimal_value s = Some q /\ (1 # 2 <= q)%Q /\ (q <= 500 # 1)%Q.

(* ================================================================== *)
(** ** The points of a payload

    [_extract_points_from_geojson] is a generator; [main] consumes it with
    [list], so the embedding gives the list of the points it yields, or the
    exception that ends the consumption. *)

Inductive pyexc := ExcAttributeError | ExcTypeError.

Inductive outcome (A : Type) :=
| Returned (a : A)
| Raised (e : pyexc).
Arguments Returned {A} a.
Arguments Raised {A} e.

Definition of_result {A : Type} (r : result A) : outcome A :=
  match r with
  | Ok a => Returned a
  | Raise AttributeError => Raised ExcAttributeError
  end.

(** [for x in v]: the elements of a [list], the characters of a [str], the
    keys of a [dict]; any other value is not iterable. *)
Definition iterate (v : pyval) : outcome (list pyval) :=
  match v with
  | PyList l => Returned l
  | PyStr s => Returned (map (fun c => PyStr [c]) s)
  | PyDict d => Returned (map (fun kv => PyStr (fst kv)) d)
  | PyNone | PyBool _ | PyInt _ | PyFloat _ => Raised ExcTypeError
  end.

(** The body of the loop over the features: [Ok None] is [continue],
    [Ok (Some p)] yields [p]. *)
Definition feature_point (f : pyval) : result (option dict) :=
  match f with
  | PyDict fd =>
      let geom := get_or_empty fd "geometry" in
      t <- get geom "type" ;;
      t <- as_text t ;;
      if negb (str_eqb (lower t) "point") then Ok None
      else
        coords <- get geom "coordinates" ;;
        match coords with
        | PyList (lng :: lat :: _) =>
            Ok (Some [("lat", lat); ("lng", lng);
                      ("properties", get_or_empty fd "properties");
                      ("feature", f)])
        | _ => Ok None
        end
  | _ => Ok None
  end.

Fixpoint features_loop (fs : list pyval) : result (list dict) :=
  match fs with
  | [] => Ok []
  | f :: fs' =>
      r <- feature_point f ;;
      rest <- features_loop fs' ;;
      Ok (match r with Some p => p :: rest | None => rest end)
  end.

(** The loop over [obj["data"]]. *)
Definition data_points (v : pyval) : list dict :=
  match v with
  | PyList rows =>
      flat_map (fun row => match row with
                           | PyDict _ => [[("properties", row)]]
                           | _ => []
                           end) rows
  | _ => []
  end.

Definition is_feature_collection (d : dict) : bool :=
  match dict_get d "type" with
  | PyStr s => str_eqb s "FeatureCollection"
  | _ => false
  end.

Definition _extract_points_from_geojson (obj : pyval) : outcome (list dict) :=
  match obj with
  | PyDict d =>
      let from_features :=
        if is_feature_collection d then
          let features := dict_get d "features" in
          match iterate (if truthy features then features else PyList []) with
          | Returned fs => of_result (features_loop fs)
          | Raised e => Raised e
          end
        else Returned [] in
      match from_features with
      | Returned pts => Returned (pts ++ data_points (dict_get d "data"))
      | Raised e => Raised e
      end
  | _ => Returned []
  end.

(* ================================================================== *)
(** ** The text of the generated module *)

Definition LF : ascii := "010".

(** The pattern of [_write_packet_data_js] is
    [const packetCommonFrequencies = \[.*?\];\n\nfunction normalizePacketItem\(]
    with [re.S]: two literals around a lazy [.*?] that also takes line
    breaks.  [lazy_any k] is that repetition followed by the rest [k] of the
    pattern: the rest is tried first, and one more character is taken only
    where it fails. *)
Fixpoint lazy_any (k : re.cursor -> option re.cursor) (prev : option ascii)
    (pos : nat) (caps : list (nat * str)) (rest : str) {struct rest}
    : option re.cursor :=
  match k (re.Cursor prev pos rest caps) with
  | Some c => Some c
  | None =>
      match rest with
      | [] => None
      | x :: rest' => lazy_any k (Some x) (S pos) caps rest'
      end
  end.

Definition table_start : str := "const packetCommonFrequencies = [".
Definition table_end : str := "];" ++ [LF; LF] ++ "function normalizePacketItem(".

Definition table_at (c : re.cursor) : option re.cursor :=
  re.rmatch (re.lit table_start)
    (fun c1 => lazy_any (re.rmatch (re.lit table_end) Some)
                 (re.c_prev c1) (re.c_pos c1) (re.c_caps c1) (re.c_rest c1))
    c.

(** [re.search] of the pattern: [m.start()] of the match, if any. *)
Fixpoint table_search_from (prev : option ascii) (pos : nat) (rest : str)
    : option nat :=
  match table_at (re.Cursor prev pos rest []) with
  | Some _ => Some pos
  | None =>
      match rest with
      | [] => None
      | x :: rest' => table_search_from (Some x) (S pos) rest'
      end
  end.

Definition table_search (existing : str) : option nat :=
  table_search_from None 0 existing.

(** The lines written when the file holds no frequency table. *)
Definition fallback_lines : list str :=
  [ "// Common packet-related frequencies (starter set; always verify local bandplan)";
    "const packetCommonFrequencies = [";
    "  { band: '2m', usage: 'Packet (general / node)', freq: '145.010', notes: 'Very common in many regions; confirm your local plan.' },";
    "  { band: '2m', usage: 'Packet (alternate)', freq: '145.030', notes: 'Alternate packet frequency in some areas.' },";
    "  { band: '2m', usage: 'BBS / mailbox (example)', freq: '145.050', notes: 'Often region-specific; confirm locally.' },";
    "  { band: '2m', usage: 'APRS', freq: '144.390', notes: 'North America APRS. (144.800 in much of the rest of the world.)' },";
    "  { band: '70cm', usage: 'Packet (general / node)', freq: '445.925', notes: 'Common 70cm packet channel in some plans.' },";
    "  { band: 'HF', usage: 'Winlink (example)', freq: 'varies', notes: 'Winlink uses multiple HF/VHF channels; see local channel lists.' }";
    "];" ++ [LF];
    "function normalizePacketItem(raw) { return raw; }";
    "function validatePacketItem(item) { return { ok: true }; }";
    "function getPacketNodesInRadius(centerLat, centerLng, radiusKm, nodes = packetNodeData) { return nodes; }" ].

Section Emitter.
Context {B : Builtins}.

(** The lines of [_write_packet_data_js] up to the end of the array
    [packetNodeData]; [now] is the date given by [time.strftime]. *)
Definition data_lines (now : str) (items : list PacketItem) : list str :=
  [ "// Packet Radio dataset (nodes + BBS) and helpers";
    "// Source: " ++ SOURCE_URL;
    "// Snapshot date: " ++ now;
    "// NOTE: This file is generated by scripts/fetch-ukpacket-nodes.py";
    "";
    "// Type values: 'node' | 'bbs'";
    "const packetNodeData = [" ]
  ++ flat_map item_lines items
  ++ [ "];" ++ [LF] ].

(** The lines kept from the text [existing] of the file, or the fallback. *)
Definition table_lines (existing : str) : list str :=
  match table_search existing with
  | Some start => [skipn start existing]
  | None => fallback_lines
  end.

(** The text [_write_packet_data_js] writes; [existing] is the text of the
    file before, the empty text when there is no file.  Reading and writing
    the file are taken to succeed. *)
Definition _write_packet_data_js (now existing : str) (items : list PacketItem) : str :=
  join [LF] (data_lines now items ++ table_lines existing).

(* ================================================================== *)
(** ** [main] of scripts/fetch-ukpacket-nodes.py

    The requests are parameters: [http_get_text] and [http_get_json] give
    [None] where the request, or the decoding of its answer, raises. *)

Inductive uncaught := RequestError | PythonError (e : pyexc).

(** How a run ends: an exception leaves [main], [main] raises [SystemExit]
    with a message, or the module is written and [main] returns 0. *)
Inductive run :=
| Uncaught (e : uncaught)
| SystemExit (message : str)
| Written (text : str).

Section Main.
Variable http_get_text : str -> option str.
Variable http_get_json : str -> option pyval.
Variables now existing : str.

(** The loop over the candidate URLs: the chosen URL with its points, if
    any. *)
Fixpoint probe (urls : list str) : outcome (option (str * list dict)) :=
  match urls with
  | [] => Returned None
  | u :: urls' =>
      match http_get_json u with
      | None => probe urls'
      | Some obj =>
          match _extract_points_from_geojson obj with
          | Raised e => Raised e
          | Returned pts =>
              if (length pts <? 10)%nat then probe urls'
              else Returned (Some (u, pts))
          end
      end
  end.

Definition no_endpoint_message : str :=
  "Could not find any JSON/GEOJSON endpoints in the map HTML".

Definition no_points_message : str :=
  "Found JSON/GEOJSON references but none yielded enough point features. "
  ++ "The site may have changed its data format.".

Definition too_few_message (n : nat) : str :=
  "Parsed too few items (" ++ str_of_int (Z.of_nat n)
  ++ "). Refusing to overwrite dataset.".

Definition main : run :=
  match http_get_text SOURCE_URL with
  | None => Uncaught RequestError
  | Some html =>
      match _find_data_urls_from_html html with
      | [] => SystemExit no_endpoint_message
      | urls =>
          match probe urls with
          | Raised e => Uncaught (PythonError e)
          | Returned None => SystemExit no_points_message
          | Returned (Some (_, all_points)) =>
              match _build_items all_points with
              | Raise AttributeError => Uncaught (PythonError ExcAttributeError)
              | Ok items =>
                  if (length items <? 10)%nat
                  then SystemExit (too_few_message (length items))
                  else Written (_write_packet_data_js now existing items)
              end
          end
      end
  end.

End Main.

End Emitter.

(* ================================================================== *)
(** ** Notions used to state the properties of the rest of the scripts *)

(** Three characters in a row that are capital letters or digits. *)
Definition alnum (c : ascii) : bool := (is_upper c || is_digit c)%bool.

Definition has_run3 (s : str) : Prop :=
  exists pre a b c post,
    s = pre ++ a :: b :: c :: post
    /\ alnum a = true /\ alnum b = true /\ alnum c = true.

Definition no_digit (s : str) : bool := forallb (fun c => negb (is_digit c)) s.

Definition digit_free (s : str) : Prop := Forall (fun c => is_digit c = false) s.

(** A value that can stand where the scripts expect a [str], or a [dict],
    behind an [or]. *)
Definition text_or_falsy (v : pyval) : bool :=
  match v with PyStr _ => true | _ => negb (truthy v) end.

Definition dict_or_falsy (v : pyval) : bool :=
  match v with PyDict _ => true | _ => negb (truthy v) end.

(** [d.get(k1) or d.get(k2)] *)
Definition get_or (d : dict) (k1 k2 : str) : pyval :=
  if truthy (dict_get d k1) then dict_get d k1 else dict_get d k2.

(** The geometry of a feature can be read: it is a mapping, or falsy, and
    its type is a text, or falsy.  A value that is not a mapping is no
    feature and is passed over. *)
Definition geometry_ok (f : pyval) : bool :=
  match f with
  | PyDict fd =>
      match get_or_empty fd "geometry" with
      | PyDict g => text_or_falsy (dict_get g "type")
      | _ => false
      end
  | _ => true
  end.

(** The features of a collection, as the loop meets them; the empty list
    for a value that cannot be iterated. *)
Definition features_of (d : dict) : list pyval :=
  match iterate (if truthy (dict_get d "features") then dict_get d "features"
                 else PyList []) with
  | Returned fs => fs
  | Raised _ => []
  end.

Definition iterable (v : pyval) : bool :=
  match iterate v with Returned _ => true | Raised _ => false end.

(** The point [p] is the one of a feature of the collection [d] whose
    geometry is a point with two coordinates or more. *)
Definition from_feature (d p : dict) : Prop :=
  exists fd g t lng lat more,
    is_feature_collection d = true
    /\ In (PyDict fd) (features_of d)
    /\ get_or_empty fd "geometry" = PyDict g
    /\ as_text (dict_get g "type") = Ok t /\ lower t = "point"
    /\ dict_get g "coordinates" = PyList (lng :: lat :: more)
    /\ p = [("lat", lat); ("lng", lng);
            ("properties", get_or_empty fd "properties");
            ("feature", PyDict fd)].

(** The point [p] is the one of a row of the list [d["data"]]. *)
Definition from_row (d p : dict) : Prop :=
  exists rows row,
    dict_get d "data" = PyList rows /\ In (PyDict row) rows
    /\ p = [("properties", PyDict row)].

(** A feature whose properties and description the builder can read. *)
Definition feature_ok (f : pyval) : bool :=
  match f with
  | PyDict fd =>
      (geometry_ok f
       && dict_or_falsy (dict_get fd "properties")
       && text_or_falsy (get_or fd "displayText" "display"))%bool
  | _ => true
  end.

Definition payload_ok (obj : pyval) : bool :=
  match obj with
  | PyDict d =>
      match dict_get d "features" with
      | PyList fs => forallb feature_ok fs
      | v => negb (truthy v)
      end
  | _ => true
  end.

(** A candidate that the loop of [main] passes over: its request raises,
    or its payload has fewer than ten points. *)
Definition passed_over (http_get_json : str -> option pyval) (u : str) : Prop :=
  http_get_json u = None
  \/ exists obj pts,
       http_get_json u = Some obj
       /\ _extract_points_from_geojson obj = Returned pts
       /\ (length pts < 10)%nat.

(** The text a run has written, the empty text for a run that wrote
    nothing. *)
Definition written_text (r : run) : str :=
  match r with Written text => text | _ => "" end.

(** [c'] is reached from [c] by taking characters of the subject. *)
Definition advances (c c' : re.cursor) : Prop :=
  exists consumed,
    re.c_rest c = consumed ++ re.c_rest c'
    /\ re.c_pos c' = (re.c_pos c + length consumed)%nat.

Fixpoint groupless (r : re.regex) : bool :=
  match r with
  | re.Eps | re.Cls _ | re.Rep _ _ _ | re.Bnd => true
  | re.Cat r1 r2 | re.Alt r1 r2 => (groupless r1 && groupless r2)%bool
  | re.Grp _ _ => false
  end.

(** [a] occurs in [s]. *)
Definition substring (a s : str) : Prop := exists pre post, s = pre ++ a ++ post.

Definition absolute_url (u : str) : bool :=
  (startswith u "http://" || startswith u "https://")%bool.

(** The only white space of a text is single spaces. *)
Definition spaces_only (s : str) : Prop :=
  Forall (fun c => is_space c = true -> c = " "%char) s.

(** Digits, then, if any, a point and up to six digits of which the last
    is not 0. *)
Definition mhz_text (s : str) : Prop :=
  exists ip fp,
    s = ip ++ match fp with [] => [] | _ :: _ => "."%char :: fp end
    /\ ip <> [] /\ all_digits ip /\ all_digits fp
    /\ (length fp <= 6)%nat /\ last fp "1"%char <> "0"%char.

(** No character that [_js_escape] rewrites. *)
Definition plain_text (s : str) : Prop :=
  Forall (fun c => c <> "\"%char /\ c <> "`"%char /\ c <> "$"%char) s.

(** The number a finite float stands for. *)
Definition value_of (x : pyfloat) : Q :=
  if 0 <=? expo x then (mant x * 2 ^ expo x) # 1
  else mant x # Z.to_pos (2 ^ (- expo x)).

(** The character before the position reached after the literal [s]. *)
Definition prev_after (prev : option ascii) (s : str) : option ascii :=
  fold_left (fun _ x => Some x) s prev.

(** The fallback table without its line of comment: what is kept of it
    when the module is written again. *)
Definition default_table : str := join [LF] (tl fallback_lines).

(** Inputs of the examples: a collection of ten stations with its points
    and its items, a description with one port, and a page that names the
    endpoint in capital letters. *)
Definition sample_feature_dict (k : Z) : dict :=
  [("type", PyStr "Feature");
   ("geometry", PyDict [("type", PyStr "Point");
                        ("coordinates", PyList [PyInt k; PyInt (50 + k)])]);
   ("properties", PyDict [("title", PyStr (" gb7aa" ++ str_of_int k))]);
   ("displayText", PyStr "<b>BBS</b> 144.950MHz 1200 baud")].

Definition sample_collection : dict :=
  [("type", PyStr "FeatureCollection");
   ("features",
    PyList (map (fun k => PyDict (sample_feature_dict k))
              [1; 2; 3; 4; 5; 6; 7; 8; 9; 10]))].

Definition sample_payload : pyval := PyDict sample_collection.

Definition sample_points : list dict :=
  match _extract_points_from_geojson sample_payload with
  | Returned pts => pts
  | Raised _ => []
  end.

Definition sample_point : dict := nth 0 sample_points [].

Definition sample_items : list PacketItem :=
  match _build_items sample_points with
  | Ok items => items
  | Raise _ => []
  end.

Definition blank_item : PacketItem :=
  {| it_id := 0; it_type := ""; it_callsign := ""; it_name := "";
     it_location := ""; it_country := "";
     it_lat := S754_zero false; it_lng := S754_zero false;
     it_freq := ""; it_baud := ""; it_channels := [];
     it_mode := ""; it_status := ""; it_notes := "" |}.

Definition sample_item : PacketItem := nth 0 sample_items blank_item.

Definition sample_text : str := "Port 1: 144.950MHz 1200 baud".

Definition sample_channel : channel :=
  nth 0 (_extract_channels sample_text) (Channel "" "" "").

Definition capital_page : str := "fetch('API/nodedata/geojson?x=1')".

Definition capital_url : str :=
  "https://nodes.ukpacketradio.network/API/nodedata/geojson?x=1".

Definition script_page : str :=
  "<script defer src=" ++ [dquote] ++ "/js/map.js" ++ [dquote] ++ "></script>"
  ++ " fetch('/api/nodedata/geojson?x=1')".

Definition script_url : str :=
  "https://nodes.ukpacketradio.network/api/nodedata/geojson?x=1".

(* ================================================================== *)
(** ** The embedding on known values

    Results of Python's [re], [float], [round] and [format] on the same
    inputs. *)

Definition span_of (m : re.match_obj) : nat * nat * str * str * str :=
  (re.m_start m, re.m_end m, re.group m 0, re.group m 1, re.group m 2).

Example re_unit_bearing :
  map span_of (re.finditer unit_freq_re "144.950 MHz and 7052,75khz x1.5mhz 1.5mhzz")
  = [(0, 11, "144.950 MHz", "144.950", "MHz");
     (16, 26, "7052,75khz", "7052,75", "khz")]%nat.
Proof. vm_compute. reflexivity. Qed.

Example re_bare_numbers :
  map span_of (re.finditer bare_freq_re "linbpq 6.0.25.16 fm 145.5 1234.5")
  = [(7, 10, "6.0", "6.0", ""); (11, 16, "25.16", "25.16", "");
     (20, 25, "145.5", "145.5", "")]%nat.
Proof. vm_compute. reflexivity. Qed.

Example re_baud :
  option_map span_of (re.search baud_re "144.950mhz 1200 Baud")
  = Some (11, 20, "1200 Baud", "1200", "")%nat
  /\ option_map span_of (re.search kbaud_re "fm 9K6 x")
     = Some (3, 6, "9K6", "9", "6")%nat.
Proof. vm_compute. split; reflexivity. Qed.

Example re_split_chunks :
  re.split chunk_sep_re "port 1: a - b|c sport -d" = [""; " 1: a"; "b"; "c sport -d"].
Proof. vm_compute. reflexivity. Qed.

Example strip_html_tags :
  _strip_html " <b>GB7AAA</b>   BBS <br/> 144.950MHz <> " = "GB7AAA BBS 144.950MHz <>".
Proof. vm_compute. reflexivity. Qed.

Example float_one_tenth :
  float_of_decimal "0.1" = Some (S754_finite false 7205759403792794 (-56)).
Proof. vm_compute. reflexivity. Qed.

Example format_ties_to_even :
  option_map format_f6 (float_of_decimal "0.0078125") = Some "0.007812"
  /\ option_map format_f6 (float_of_decimal "0.0234375") = Some "0.023438".
Proof. vm_compute. split; reflexivity. Qed.

Example fmt_mhz_trims :
  option_map _fmt_mhz (float_of_decimal "500.0") = Some "500"
  /\ option_map _fmt_mhz (float_of_decimal "0.5") = Some "0.5"
  /\ option_map (fun x => _fmt_mhz (float_div x thousand)) (float_of_decimal "507.8125")
     = Some "0.507812".
Proof. vm_compute. repeat split; reflexivity. Qed.

Example round_five_places :
  option_map py_round5 (float_of_decimal "51.123456789") = float_of_decimal "51.12346"
  /\ option_map py_round5 (float_of_decimal "-0.000004") = Some (S754_zero true).
Proof. vm_compute. split; reflexivity. Qed.

Example band_constants_valid :
  valid_binary prec emax half = true
  /\ valid_binary prec emax five_hundred = true
  /\ valid_binary prec emax thousand = true.
Proof. vm_compute. repeat split; reflexivity. Qed.

Example version_number_rejected : _extract_channels "LINBPQ 6.0.25.16" = [].
Proof. vm_compute. reflexivity. Qed.

Example no_digits_no_channel : _extract_channels "mailbox BBS fm node" = [].
Proof. vm_compute. reflexivity. Qed.

(* ================================================================== *)
(** ** Strings and keys *)

Lemma str_eqb_eq (a b : str) : str_eqb a b = true <-> a = b.
Proof.
  revert b; induction a as [|x a IH]; intros [|y b]; simpl;
    try (split; [discriminate | discriminate]); try tauto.
  rewrite andb_true_iff, Ascii.eqb_eq, IH.
  split; [intros [-> ->]; reflexivity | intros E; inversion E; auto].
Qed.

Lemma pair_eqb_eq (a b : str * str) : pair_eqb a b = true <-> a = b.
Proof.
  destruct a as [a1 a2], b as [b1 b2]; unfold pair_eqb; simpl.
  rewrite andb_true_iff, !str_eqb_eq.
  split; [intros [-> ->]; reflexivity | intros E; inversion E; auto].
Qed.

(* ================================================================== *)
(** ** The de-duplication loop *)

Section Dedupe.
Variables (A K : Type) (key : A -> K) (keq : K -> K -> bool).

Lemma dedupe_subseq (l : list A) :
  forall seen, subseq (dedupe_loop key keq seen l) l.
Proof.
  induction l as [|c l IH]; intros seen; simpl.
  - constructor.
  - destruct (existsb (keq (key c)) seen); constructor; apply IH.
Qed.

Lemma subseq_In (l1 l2 : list A) (x : A) : subseq l1 l2 -> In x l1 -> In x l2.
Proof.
  induction 1 as [|y l1 l2 _ IH|y l1 l2 _ IH]; simpl; intros Hin; auto.
  destruct Hin as [->|Hin]; auto.
Qed.

Lemma dedupe_In (l : list A) (seen : list K) (x : A) :
  In x (dedupe_loop key keq seen l) -> In x l.
Proof. apply subseq_In, dedupe_subseq. Qed.

(** Every element the loop keeps has a key that is not in [seen]. *)
Lemma dedupe_fresh (l : list A) :
  forall seen x, In x (dedupe_loop key keq seen l) ->
                 existsb (keq (key x)) seen = false.
Proof.
  induction l as [|c l IH]; intros seen x; simpl; [tauto|].
  destruct (existsb (keq (key c)) seen) eqn:E.
  - apply IH.
  - intros [<-|Hin]; [exact E|].
    apply IH in Hin. simpl in Hin. apply orb_false_iff in Hin. tauto.
Qed.

(** A kept element differs in key from every element kept before it. *)
Lemma dedupe_pairwise (l : list A) :
  forall seen,
    ForallOrdPairs (fun a b => keq (key b) (key a) = false)
      (dedupe_loop key keq seen l).
Proof.
  induction l as [|c l IH]; intros seen; simpl; [constructor|].
  destruct (existsb (keq (key c)) seen) eqn:E; [apply IH|].
  constructor; [|apply IH].
  apply Forall_forall. intros x Hin.
  apply dedupe_fresh in Hin. simpl in Hin.
  apply orb_false_iff in Hin. tauto.
Qed.

(** With a transitive equality of keys, remembering the keys that were kept
    is as good as remembering all the keys that were met. *)
Hypothesis keq_trans :
  forall a b c, keq a b = true -> keq b c = true -> keq a c = true.

Lemma dedupe_first_occurrences (l : list A) :
  forall seen before,
    (forall k, existsb (keq k) seen = existsb (keq k) before) ->
    dedupe_loop key keq seen l = first_occurrences key keq before l.
Proof.
  induction l as [|c l IH]; intros seen before Hs; simpl; [reflexivity|].
  rewrite <- Hs.
  destruct (existsb (keq (key c)) seen) eqn:E.
  - apply IH. intros k. simpl. rewrite <- Hs.
    destruct (keq k (key c)) eqn:Ek; [|reflexivity]. simpl.
    apply existsb_exists in E. destruct E as (z & Hz & Ez).
    apply existsb_exists. exists z. split; [exact Hz|].
    eapply keq_trans; eassumption.
  - f_equal. apply IH. intros k. simpl. rewrite Hs. reflexivity.
Qed.

End Dedupe.

Lemma subseq_map {A B : Type} (f : A -> B) (l1 l2 : list A) :
  subseq l1 l2 -> subseq (map f l1) (map f l2).
Proof. induction 1; simpl; constructor; assumption. Qed.

Lemma subseq_sorted (l1 l2 : list Z) :
  subseq l1 l2 -> StronglySorted Z.lt l2 -> StronglySorted Z.lt l1.
Proof.
  induction 1 as [|x l1 l2 Hs IH|x l1 l2 Hs IH]; intros Hsort.
  - constructor.
  - inversion Hsort; subst. auto.
  - inversion Hsort as [|? ? Hrest Hall]; subst. constructor; [auto|].
    rewrite Forall_forall in *. intros y Hy. apply Hall.
    eapply subseq_In; eassumption.
Qed.

Section DedupeCover.
Variables (A K : Type) (key : A -> K) (keq : K -> K -> bool).

(** Every element of the input is kept, or shares its key with a kept
    element or with a key of [seen]. *)
Lemma dedupe_complete (l : list A) :
  forall seen x, In x l ->
    existsb (keq (key x)) seen = true
    \/ In x (dedupe_loop key keq seen l)
    \/ exists y, In y (dedupe_loop key keq seen l) /\ keq (key x) (key y) = true.
Proof.
  induction l as [|c l IH]; intros seen x; simpl; [tauto|].
  intros [->|Hin].
  - destruct (existsb (keq (key x)) seen) eqn:E; [left; reflexivity|].
    right; left; simpl; auto.
  - destruct (existsb (keq (key c)) seen) eqn:E.
    + apply IH; assumption.
    + destruct (IH (key c :: seen) x Hin) as [Hs|[Hk|(y & Hy & Ey)]].
      * simpl in Hs. apply orb_true_iff in Hs. destruct Hs as [Hc|Hs]; [|auto].
        right; right. exists c. simpl; auto.
      * right; left; simpl; auto.
      * right; right. exists y. simpl; auto.
Qed.

Lemma pairwise_NoDup (l : list A) :
  ForallOrdPairs (fun a b => key b <> key a) l -> NoDup (map key l).
Proof.
  induction 1 as [|a l Hall _ IH]; simpl; constructor; [|exact IH].
  rewrite in_map_iff. intros (b & Eb & Hb).
  rewrite Forall_forall in Hall. exact (Hall b Hb Eb).
Qed.

Lemma pairwise_impl (P Q : A -> A -> Prop) (l : list A) :
  (forall a b, P a b -> Q a b) -> ForallOrdPairs P l -> ForallOrdPairs Q l.
Proof.
  intros HPQ. induction 1 as [|a l Hall _ IH]; constructor; [|exact IH].
  eapply Forall_impl; [|exact Hall]. intros b. apply HPQ.
Qed.

End DedupeCover.

(** The first occurrences for keys are the first occurrences for the
    relation [same] that compares the keys of two elements. *)
Lemma first_occurrences_same {A K : Type} (key : A -> K) (keq : K -> K -> bool)
    (same : A -> A -> bool) (l : list A) :
  (forall a b, same a b = keq (key a) (key b)) ->
  forall before,
    first_occurrences key keq (map key before) l
    = first_occurrences (fun c => c) same before l.
Proof.
  intros Hs. induction l as [|c l IH]; intros before; [reflexivity|].
  cbn [first_occurrences].
  assert (E : existsb (keq (key c)) (map key before) = existsb (same c) before).
  { induction before as [|x before IHb]; [reflexivity|].
    cbn [map existsb]. rewrite IHb, Hs. reflexivity. }
  rewrite E. change (key c :: map key before) with (map key (c :: before)).
  rewrite IH. reflexivity.
Qed.

(* ================================================================== *)
(** ** The Channel Extractor: chunks, examples, de-duplication *)

Section ChannelExtractor.
Context {B : Builtins}.

Lemma unit_record_In (baud0 : str) (m : re.match_obj) (c : channel) :
  In c (unit_record baud0 m) <->
  _to_mhz_str (re.group m 1) (Some (re.group m 2)) = Some (freq c)
  /\ freq c <> [] /\ baud c = baud0 /\ raw c = re.group m 0.
Proof.
  unfold unit_record.
  destruct (_to_mhz_str (re.group m 1) (Some (re.group m 2))) as [mhz|].
  - destruct mhz as [|x mhz]; simpl.
    + split; [tauto|]. intros (E & Hne & _). inversion E as [E']. congruence.
    + split.
      * intros [<-|[]]. simpl. repeat split; discriminate.
      * intros (E & _ & Eb & Er). left. destruct c as [f b r]; simpl in *.
        inversion E. subst. reflexivity.
  - simpl. split; [tauto|]. intros (E & _). discriminate.
Qed.

Lemma bare_record_In (ch baud0 : str) (m : re.match_obj) (c : channel) :
  In c (bare_record ch baud0 m) <->
  slice ch (re.m_start m - 1) (re.m_start m) <> "."
  /\ slice ch (re.m_end m) (Nat.min (length ch) (re.m_end m + 1)) <> "."
  /\ _to_mhz_str (re.group m 1) None = Some (freq c)
  /\ freq c <> [] /\ baud c = baud0 /\ raw c = re.group m 1.
Proof.
  unfold bare_record.
  destruct (str_eqb (slice ch (re.m_start m - 1) (re.m_start m)) ".") eqn:E1.
  { simpl. apply str_eqb_eq in E1. split; [tauto|]. intros (N & _). contradiction. }
  destruct (str_eqb (slice ch (re.m_end m) (Nat.min (length ch) (re.m_end m + 1))) ".") eqn:E2.
  { simpl. apply str_eqb_eq in E2. split; [tauto|]. intros (_ & N & _). contradiction. }
  assert (N1 : slice ch (re.m_start m - 1) (re.m_start m) <> ".").
  { intros E. apply str_eqb_eq in E. congruence. }
  assert (N2 : slice ch (re.m_end m) (Nat.min (length ch) (re.m_end m + 1)) <> ".").
  { intros E. apply str_eqb_eq in E. congruence. }
  cbn [orb].
  destruct (_to_mhz_str (re.group m 1) None) as [mhz|].
  - destruct mhz as [|x mhz]; simpl.
    + split; [tauto|]. intros (_ & _ & E & Hne & _). inversion E. congruence.
    + split.
      * intros [<-|[]]. simpl. repeat split; auto; discriminate.
      * intros (_ & _ & E & _ & Eb & Er). left. destruct c as [f b r]; simpl in *.
        inversion E. subst. reflexivity.
  - simpl. split; [tauto|]. intros (_ & _ & E & _). discriminate.
Qed.

(** C1, as amended.  What a chunk appends is a list of records of its
    unit-bearing matches followed by a list of records of its bare numbers.
    The first list holds exactly the records that come from a unit-bearing
    match.  The second holds exactly the records that come from a bare
    number not next to a dot when the chunk has a radio-context keyword, and
    nothing when it has none; it does not ask that the chunk has no
    unit-bearing match. *)
Theorem C1_bare_numbers_where_context (ch : str) :
  let unit_bearing (c : channel) :=
    exists m, In m (re.finditer unit_freq_re ch)
      /\ _to_mhz_str (re.group m 1) (Some (re.group m 2)) = Some (freq c)
      /\ freq c <> [] /\ baud c = _baud_in ch /\ raw c = re.group m 0 in
  let bare (c : channel) :=
    has_rf_context ch = true
    /\ exists m, In m (re.finditer bare_freq_re ch)
         /\ slice ch (re.m_start m - 1) (re.m_start m) <> "."
         /\ slice ch (re.m_end m) (Nat.min (length ch) (re.m_end m + 1)) <> "."
         /\ _to_mhz_str (re.group m 1) None = Some (freq c)
         /\ freq c <> [] /\ baud c = _baud_in ch /\ raw c = re.group m 1 in
  (forall c, In c (chunk_channels ch) <-> unit_bearing c \/ bare c)
  /\ exists us bs,
       chunk_channels ch = us ++ bs
       /\ (forall c, In c us <-> unit_bearing c)
       /\ (forall c, In c bs <-> bare c).
Proof.
  intros unit_bearing bare.
  assert (Hu : forall c, In c (unit_records ch (_baud_in ch)) <-> unit_bearing c).
  { intros c. unfold unit_records, unit_bearing. rewrite in_flat_map. split.
    - intros (m & Hm & Hc). exists m. split; [exact Hm|].
      apply unit_record_In. exact Hc.
    - intros (m & Hm & Hc). exists m. split; [exact Hm|].
      apply unit_record_In. exact Hc. }
  assert (Hb : forall c,
             In c (if has_rf_context ch then bare_records ch (_baud_in ch) else [])
             <-> bare c).
  { intros c. unfold bare_records, bare. split.
    - intros Hin. destruct (has_rf_context ch); [|destruct Hin].
      split; [reflexivity|].
      apply in_flat_map in Hin. destruct Hin as (m & Hm & Hc).
      exists m. split; [exact Hm|]. apply bare_record_In in Hc. exact Hc.
    - intros (Hctx & m & Hm & Hc). rewrite Hctx. apply in_flat_map.
      exists m. split; [exact Hm|]. apply bare_record_In. exact Hc. }
  split.
  - intros c. unfold chunk_channels. rewrite in_app_iff, Hu, Hb. reflexivity.
  - exists (unit_records ch (_baud_in ch)),
      (if has_rf_context ch then bare_records ch (_baud_in ch) else []).
    split; [reflexivity|]. split; [exact Hu|exact Hb].
Qed.

(** C5.  The output has one record for each pair (frequency, baud) of the
    retained matches: no two of its records have the same frequency and the
    same baud, a pair is the pair of one of its records exactly when it is
    the pair of a retained match, and the output is the list of the retained
    matches that have the pair of no retained match before them, in the
    order of the text. *)
Theorem C5_one_record_per_pair (text : str) :
  let retained := collect_channels text in
  let out := _extract_channels text in
  NoDup (map (fun c => (freq c, baud c)) out)
  /\ (forall f b, (exists c, In c out /\ freq c = f /\ baud c = b)
                  <-> (exists c, In c retained /\ freq c = f /\ baud c = b))
  /\ subseq out retained
  /\ out = first_occurrences (fun c => c) same_pair [] retained.
Proof.
  intros retained out. unfold out, _extract_channels. fold retained.
  split; [|split; [|split]].
  - change (NoDup (map channel_key
                     (dedupe_loop channel_key pair_eqb [] retained))).
    apply pairwise_NoDup.
    eapply pairwise_impl; [|apply dedupe_pairwise].
    intros a b Hab E. simpl in Hab. rewrite E in Hab.
    assert (T : pair_eqb (channel_key a) (channel_key a) = true)
      by (apply pair_eqb_eq; reflexivity).
    congruence.
  - intros f b. split.
    + intros (c & Hc & Ef & Eb). exists c. split; [|auto].
      eapply dedupe_In; exact Hc.
    + intros (c & Hc & Ef & Eb).
      destruct (dedupe_complete channel_key pair_eqb retained [] c Hc)
        as [Hs|[Hk|(y & Hy & Ey)]].
      * simpl in Hs. discriminate.
      * exists c. auto.
      * exists y. split; [exact Hy|]. apply pair_eqb_eq in Ey.
        unfold channel_key in Ey. inversion Ey. split; congruence.
  - apply dedupe_subseq.
  - rewrite (@dedupe_first_occurrences _ _ channel_key pair_eqb) with (before := []);
      [|intros a b c Hab Hbc; apply pair_eqb_eq in Hab, Hbc; apply pair_eqb_eq;
        congruence|reflexivity].
    exact (@first_occurrences_same _ _ channel_key pair_eqb same_pair retained
             (fun a b => eq_refl) []).
Qed.

End ChannelExtractor.

(** C1, as the specification states it, fails: in the chunk below the
    unit-bearing pattern matches, and the chunk still contributes a record
    from the bare number 145.5. *)
Lemma C1_counterexample :
  let ch : str := "144.950mhz fm 145.5" in
  re.finditer unit_freq_re ch <> []
  /\ unit_records ch (_baud_in ch) = [Channel "144.95" "" "144.950mhz"]
  /\ chunk_channels ch
     = [Channel "144.95" "" "144.950mhz"; Channel "145.5" "" "145.5"]
  /\ _extract_channels "144.950MHz FM 145.5"
     = [Channel "144.95" "" "144.950mhz"; Channel "145.5" "" "145.5"]
  /\ ~ (forall ch' : str,
          re.finditer unit_freq_re ch' <> [] ->
          chunk_channels ch' = unit_records ch' (_baud_in ch')).
Proof.
  cbv zeta.
  assert (Hm : re.finditer unit_freq_re "144.950mhz fm 145.5" <> [])
    by (vm_compute; discriminate).
  split; [exact Hm|].
  split; [vm_compute; reflexivity|].
  split; [vm_compute; reflexivity|].
  split; [vm_compute; reflexivity|].
  intros H. specialize (H "144.950mhz fm 145.5" Hm).
  vm_compute in H. discriminate H.
Qed.

(** C3.  The two ports of the example give two records, in this order. *)
Theorem C3_two_ports :
  _extract_channels "Port 1: 144.950MHz 1200 baud - Port 2: 432.500MHz 9600bd"
  = [Channel "144.95" "1200" "144.950mhz"; Channel "432.5" "9600" "432.500mhz"].
Proof. vm_compute. reflexivity. Qed.

(** C4.  A value in kHz is divided by 1000, its trailing zeros are trimmed,
    and no baud value comes with it. *)
Theorem C4_khz_example :
  _extract_channels "7052.75kHz USB" = [Channel "7.05275" "" "7052.75khz"].
Proof. vm_compute. reflexivity. Qed.

(* ================================================================== *)
(** ** Decimal digits *)

Lemma digit_chr_spec (d : Z) :
  0 <= d <= 9 -> digit_val (digit_chr d) = d /\ is_digit (digit_chr d) = true.
Proof.
  intros Hd.
  assert (E : d = 0 \/ d = 1 \/ d = 2 \/ d = 3 \/ d = 4 \/ d = 5 \/ d = 6
              \/ d = 7 \/ d = 8 \/ d = 9) by lia.
  repeat (destruct E as [->|E]; [split; reflexivity|]).
  subst; split; reflexivity.
Qed.

Lemma digit_val_range (c : ascii) : is_digit c = true -> 0 <= digit_val c <= 9.
Proof.
  unfold is_digit, in_range, digit_val. rewrite andb_true_iff.
  intros [H1 H2]. apply Nat.leb_le in H1, H2. lia.
Qed.

Lemma fold_digits_shift (l : str) (a : Z) :
  fold_left (fun a c => 10 * a + digit_val c) l a
  = a * 10 ^ Z.of_nat (length l) + digits_value l.
Proof.
  unfold digits_value. revert a.
  induction l as [|c l IH]; intros a.
  - simpl. lia.
  - cbn [fold_left length]. rewrite IH, (IH (10 * 0 + digit_val c)).
    rewrite Nat2Z.inj_succ, Z.pow_succ_r by lia. ring.
Qed.

Lemma digits_value_app (l1 l2 : str) :
  digits_value (l1 ++ l2)
  = digits_value l1 * 10 ^ Z.of_nat (length l2) + digits_value l2.
Proof.
  unfold digits_value at 1. rewrite fold_left_app.
  fold (digits_value l1). apply fold_digits_shift.
Qed.

Lemma digits_value_snoc (l : str) (c : ascii) :
  digits_value (l ++ [c]) = 10 * digits_value l + digit_val c.
Proof.
  rewrite digits_value_app.
  change (digits_value [c]) with (10 * 0 + digit_val c).
  change (Z.of_nat (length [c])) with 1. lia.
Qed.

Lemma digits_from_spec (f : nat) :
  forall n acc, 0 <= n < 2 ^ Z.of_nat (S f) ->
    exists d, digits_from (S f) n acc = d ++ acc /\ d <> []
              /\ all_digits d /\ digits_value d = n.
Proof.
  induction f as [|f IH]; intros n acc Hn.
  - change (2 ^ Z.of_nat 1) with 2 in Hn.
    assert (E : n / 10 = 0) by (apply Z.div_small; lia).
    cbn [digits_from]. rewrite E. simpl (0 =? 0).
    assert (Hm : n mod 10 = n) by (apply Z.mod_small; lia).
    destruct (@digit_chr_spec (n mod 10)) as [Hv Hd]; [lia|].
    exists [digit_chr (n mod 10)]. repeat split.
    + discriminate.
    + constructor; [exact Hd|constructor].
    + change (digits_value [digit_chr (n mod 10)])
        with (10 * 0 + digit_val (digit_chr (n mod 10))). lia.
  - assert (Hmod : 0 <= n mod 10 < 10) by (apply Z.mod_pos_bound; lia).
    destruct (@digit_chr_spec (n mod 10)) as [Hv Hd]; [lia|].
    assert (Hdm : n = 10 * (n / 10) + n mod 10) by (apply Z.div_mod; lia).
    remember (S f) as f1 eqn:Ef1.
    cbn [digits_from].
    destruct (n / 10 =? 0) eqn:E.
    + apply Z.eqb_eq in E.
      exists [digit_chr (n mod 10)]. repeat split.
      * discriminate.
      * constructor; [exact Hd|constructor].
      * change (digits_value [digit_chr (n mod 10)])
          with (10 * 0 + digit_val (digit_chr (n mod 10))). lia.
    + apply Z.eqb_neq in E.
      assert (Hq : 0 <= n / 10 < 2 ^ Z.of_nat f1).
      { split; [apply Z.div_pos; lia|].
        rewrite Nat2Z.inj_succ, Z.pow_succ_r in Hn by lia.
        apply Z.div_lt_upper_bound; lia. }
      destruct (IH (n / 10) (digit_chr (n mod 10) :: acc) Hq)
        as (d & Ed & Hne & Hall & Hval).
      exists (d ++ [digit_chr (n mod 10)]). repeat split.
      * rewrite Ed, <- app_assoc. reflexivity.
      * destruct d; discriminate.
      * apply Forall_app. split; [exact Hall|]. constructor; [exact Hd|constructor].
      * rewrite digits_value_snoc. lia.
Qed.

Lemma str_of_nonneg_spec (n : Z) :
  0 <= n ->
  exists d, str_of_nonneg n = d /\ d <> [] /\ all_digits d /\ digits_value d = n.
Proof.
  intros Hn. unfold str_of_nonneg.
  destruct (@digits_from_spec (Z.to_nat (Z.log2 n)) n []) as (d & Ed & H).
  - split; [exact Hn|].
    rewrite Nat2Z.inj_succ, Z2Nat.id by apply Z.log2_nonneg.
    destruct (Z.eq_dec n 0) as [->|Hnz]; [reflexivity|].
    apply Z.log2_spec. lia.
  - exists d. rewrite Ed, app_nil_r. auto.
Qed.

Lemma pad_digits_spec (k : nat) :
  forall n, 0 <= n ->
    length (pad_digits k n) = k /\ all_digits (pad_digits k n)
    /\ digits_value (pad_digits k n) = n mod 10 ^ Z.of_nat k.
Proof.
  induction k as [|k IH]; intros n Hn.
  - simpl. repeat split; [constructor|]. rewrite Z.mod_1_r. reflexivity.
  - cbn [pad_digits].
    assert (Hq : 0 <= n / 10) by (apply Z.div_pos; lia).
    destruct (IH (n / 10) Hq) as (Hlen & Hall & Hval).
    assert (Hmod : 0 <= n mod 10 < 10) by (apply Z.mod_pos_bound; lia).
    destruct (@digit_chr_spec (n mod 10)) as [Hv Hd]; [lia|].
    repeat split.
    + rewrite length_app, Hlen. simpl. lia.
    + apply Forall_app. split; [exact Hall|]. constructor; [exact Hd|constructor].
    + rewrite digits_value_snoc, Hval, Hv.
      rewrite Nat2Z.inj_succ, Z.pow_succ_r by lia.
      rewrite (Z.rem_mul_r n 10 (10 ^ Z.of_nat k)); [lia|lia|].
      apply Z.pow_pos_nonneg; lia.
Qed.

(* ================================================================== *)
(** ** Stripping at the right end *)

Lemma drop_while_stop (p : ascii -> bool) (u : str) (x : ascii) (v : str) :
  p x = false -> drop_while p (u ++ x :: v) = drop_while p u ++ x :: v.
Proof.
  intros Hx. induction u as [|c u IH]; simpl.
  - rewrite Hx. reflexivity.
  - destruct (p c); [exact IH|reflexivity].
Qed.

Lemma rstrip_after (p : ascii -> bool) (a : str) (x : ascii) (l : str) :
  p x = false -> rstrip_chars p (a ++ x :: l) = a ++ x :: rstrip_chars p l.
Proof.
  intros Hx. unfold rstrip_chars.
  rewrite rev_app_distr. simpl rev at 1. rewrite <- app_assoc. simpl app at 2.
  rewrite drop_while_stop by exact Hx.
  rewrite rev_app_distr. simpl rev at 1. rewrite rev_involutive, <- app_assoc.
  reflexivity.
Qed.

Lemma rstrip_end (p : ascii -> bool) (a : str) (x : ascii) :
  p x = false -> rstrip_chars p (a ++ [x]) = a ++ [x].
Proof. intros Hx. rewrite rstrip_after by exact Hx. reflexivity. Qed.

Lemma rstrip_last (p : ascii -> bool) (a : str) (x : ascii) :
  p x = true -> rstrip_chars p (a ++ [x]) = rstrip_chars p a.
Proof.
  intros Hx. unfold rstrip_chars. rewrite rev_app_distr. simpl. rewrite Hx.
  reflexivity.
Qed.

Lemma digit_not (x y : ascii) :
  is_digit x = true -> is_digit y = false -> Ascii.eqb y x = false.
Proof.
  intros Hx Hy. destruct (Ascii.eqb y x) eqn:E; [|reflexivity].
  apply Ascii.eqb_eq in E. congruence.
Qed.

(** Trailing zeros of a digit string count for nothing but the scale. *)
Lemma rstrip_zeros_value (l : str) :
  all_digits l ->
  let l' := rstrip_chars (Ascii.eqb "0") l in
  all_digits l' /\ (length l' <= length l)%nat
  /\ digits_value l
     = digits_value l' * 10 ^ Z.of_nat (length l - length l').
Proof.
  induction l as [|c l IH] using rev_ind; intros Hl; cbn zeta.
  - unfold rstrip_chars. simpl. split; [constructor|]. split; [lia|reflexivity].
  - apply Forall_app in Hl. destruct Hl as [Hl Hc].
    destruct (Ascii.eqb "0" c) eqn:E.
    + rewrite rstrip_last by exact E.
      destruct (IH Hl) as (Hall & Hlen & Hval).
      apply Ascii.eqb_eq in E. subst c.
      split; [exact Hall|]. split; [rewrite length_app; simpl; lia|].
      rewrite digits_value_snoc, Hval, length_app. simpl length.
      replace (Z.of_nat (length l + 1 - length (rstrip_chars (Ascii.eqb "0") l)))
        with (Z.succ (Z.of_nat (length l - length (rstrip_chars (Ascii.eqb "0") l))))
        by lia.
      rewrite Z.pow_succ_r by lia. change (digit_val "0") with 0. ring.
    + rewrite rstrip_end by exact E.
      split; [apply Forall_app; split; assumption|].
      split; [lia|].
      rewrite Nat.sub_diag. simpl. lia.
Qed.

Lemma last_digit_split (d : str) :
  d <> [] -> all_digits d ->
  exists u x, d = u ++ [x] /\ is_digit x = true /\ all_digits u.
Proof.
  intros Hne Hall. destruct (exists_last Hne) as (u & x & ->).
  apply Forall_app in Hall. destruct Hall as [Hu Hx].
  inversion Hx; subst. exists u, x. auto.
Qed.

(* ================================================================== *)
(** ** Reading a decimal literal *)

Lemma span_digits_app (d rest : str) :
  all_digits d ->
  match rest with [] => True | c :: _ => is_digit c = false end ->
  span_digits (d ++ rest) = (d, rest).
Proof.
  intros Hd Hrest. induction Hd as [|c d Hc _ IH]; simpl.
  - destruct rest as [|c rest]; [reflexivity|]. simpl. rewrite Hrest. reflexivity.
  - rewrite Hc, IH. reflexivity.
Qed.

Lemma parse_decimal_int (d : str) :
  d <> [] -> all_digits d -> parse_decimal d = Some (digits_value d, O).
Proof.
  intros Hne Hd. unfold parse_decimal.
  rewrite <- (app_nil_r d) at 1. rewrite span_digits_app by (auto; exact I).
  destruct d; [congruence|reflexivity].
Qed.

Lemma parse_decimal_frac (ip fp : str) :
  ip <> [] -> all_digits ip -> all_digits fp ->
  parse_decimal (ip ++ "."%char :: fp)
  = Some (digits_value (ip ++ fp), length fp).
Proof.
  intros Hne Hip Hfp. unfold parse_decimal.
  rewrite span_digits_app by (auto; reflexivity).
  rewrite <- (app_nil_r fp) at 1. rewrite span_digits_app by (auto; exact I).
  destruct ip as [|c ip]; [congruence|]. reflexivity.
Qed.

(** The digits written for [n] millionths, trimmed as [_fmt_mhz] trims
    them, read back as [a / 10 ^ k] with [a * 10 ^ (6 - k) = n]. *)
Lemma trimmed_fixed6_value (n : Z) :
  0 <= n ->
  exists a k,
    parse_decimal
      (rstrip_chars (Ascii.eqb ".") (rstrip_chars (Ascii.eqb "0") (fixed6 n)))
    = Some (a, k)
    /\ (k <= 6)%nat /\ a * 10 ^ Z.of_nat (6 - k) = n.
Proof.
  intros Hn. unfold fixed6.
  assert (Hq : 0 <= n / 1000000) by (apply Z.div_pos; lia).
  assert (Hr : 0 <= n mod 1000000 < 1000000) by (apply Z.mod_pos_bound; lia).
  destruct (str_of_nonneg_spec Hq) as (ip & -> & Hne & Hip & Hipv).
  destruct (@pad_digits_spec 6 (n mod 1000000)) as (Hlen & Hfp & Hfpv); [lia|].
  change (10 ^ Z.of_nat 6) with 1000000 in Hfpv.
  rewrite Z.mod_mod in Hfpv by lia.
  set (fp := pad_digits 6 (n mod 1000000)) in *.
  change (ip ++ "." ++ fp) with (ip ++ "."%char :: fp).
  rewrite rstrip_after by reflexivity.
  destruct (rstrip_zeros_value Hfp) as (Hfp' & Hlen' & Hval').
  set (fp' := rstrip_chars (Ascii.eqb "0") fp) in *.
  assert (Hdm : n = 1000000 * (n / 1000000) + n mod 1000000)
    by (apply Z.div_mod; lia).
  destruct fp' as [|c0 fp0] eqn:Efp.
  - (* no decimal is left: the point goes too *)
    destruct (last_digit_split Hne Hip) as (u & x & -> & Hx & Hu).
    change (u ++ [x]) with (u ++ [x]) in *.
    rewrite <- app_assoc. simpl app at 2.
    change (u ++ [x; "."%char]) with (u ++ x :: ["."%char]).
    rewrite rstrip_after by (apply digit_not; [exact Hx|reflexivity]).
    change (rstrip_chars (Ascii.eqb ".") ["."%char]) with (@nil ascii).
    exists (digits_value (u ++ [x])), O.
    rewrite parse_decimal_int; [|destruct u; discriminate|exact Hip].
    split; [reflexivity|]. split; [lia|].
    change (digits_value []) with 0 in Hval'. rewrite Z.mul_0_l in Hval'.
    change (10 ^ Z.of_nat (6 - 0)) with 1000000. lia.
  - assert (Hne' : c0 :: fp0 <> []) by discriminate.
    destruct (last_digit_split Hne' Hfp') as (u & x & Eu & Hx & Hu).
    rewrite Eu.
    change (ip ++ "."%char :: u ++ [x]) with (ip ++ ("."%char :: u) ++ [x]).
    rewrite app_assoc, rstrip_end by (apply digit_not; [exact Hx|reflexivity]).
    rewrite <- app_assoc. change (("."%char :: u) ++ [x]) with ("."%char :: u ++ [x]).
    rewrite <- Eu.
    exists (digits_value (ip ++ c0 :: fp0)), (length (c0 :: fp0)).
    rewrite parse_decimal_frac by assumption.
    rewrite Hlen in Hlen', Hval'.
    split; [reflexivity|]. split; [exact Hlen'|].
    rewrite digits_value_app, Hipv.
    assert (Hpow : 10 ^ Z.of_nat (length (c0 :: fp0))
                   * 10 ^ Z.of_nat (6 - length (c0 :: fp0)) = 1000000).
    { rewrite <- Z.pow_add_r by lia.
      replace (Z.of_nat (length (c0 :: fp0)) + Z.of_nat (6 - length (c0 :: fp0)))
        with 6 by lia. reflexivity. }
    nia.
Qed.

(* ================================================================== *)
(** ** Comparison of floats and the band *)

Lemma dy_cmp_scale (m1 e1 m2 e2 E : Z) :
  E <= e1 -> E <= e2 ->
  dy_cmp m1 e1 m2 e2 = (m1 * 2 ^ (e1 - E) ?= m2 * 2 ^ (e2 - E)).
Proof.
  intros H1 H2. unfold dy_cmp. set (e := Z.min e1 e2).
  assert (He : E <= e) by (unfold e; lia).
  assert (He1 : e <= e1) by (unfold e; lia).
  assert (He2 : e <= e2) by (unfold e; lia).
  replace (e1 - E) with ((e1 - e) + (e - E)) by lia.
  replace (e2 - E) with ((e2 - e) + (e - E)) by lia.
  rewrite !Z.pow_add_r by lia. rewrite !Z.mul_assoc.
  apply Zmult_compare_compat_r.
  assert (0 < 2 ^ (e - E)) by (apply Z.pow_pos_nonneg; lia). lia.
Qed.

Lemma dy_cmp_le (m1 e1 m2 e2 E : Z) :
  E <= e1 -> E <= e2 ->
  dy_cmp m1 e1 m2 e2 <> Gt -> m1 * 2 ^ (e1 - E) <= m2 * 2 ^ (e2 - E).
Proof.
  intros H1 H2 Hc. rewrite (dy_cmp_scale m1 m2 H1 H2) in Hc. exact Hc.
Qed.

Lemma fle_finite (x y : pyfloat) :
  fle x y = true ->
  match x, y with
  | S754_finite _ _ _, S754_finite _ _ _ =>
      dy_cmp (mant x) (expo x) (mant y) (expo y) <> Gt
  | _, _ => True
  end.
Proof.
  unfold fle, fcompare. destruct x, y; try exact (fun _ => I).
  destruct (dy_cmp _ _ _ _); intros H; discriminate.
Qed.

Lemma round_half_even_bounds (n d lo hi : Z) :
  0 < d -> lo * d <= n -> n <= hi * d ->
  lo <= round_half_even n d <= hi.
Proof.
  intros Hd Hlo Hhi. unfold round_half_even.
  assert (Hdm : n = d * (n / d) + n mod d) by (apply Z.div_mod; lia).
  assert (Hr : 0 <= n mod d < d) by (apply Z.mod_pos_bound; lia).
  assert (Hq1 : lo <= n / d) by (apply Z.div_le_lower_bound; lia).
  assert (Hq2 : n / d <= hi) by (apply Z.div_le_upper_bound; lia).
  destruct (Z.eq_dec (n / d) hi) as [E|E].
  - assert (Hz : n mod d = 0) by nia.
    rewrite Hz. replace (2 * 0 ?= d) with Lt by (symmetry; apply Z.compare_lt_iff; lia).
    lia.
  - destruct (2 * (n mod d) ?= d); [destruct (Z.even (n / d))| |]; lia.
Qed.

Lemma half_eq : half = S754_finite false 4503599627370496 (-53).
Proof. reflexivity. Qed.

Lemma five_hundred_eq : five_hundred = S754_finite false 8796093022208000 (-44).
Proof. reflexivity. Qed.

(** A float between 0.5 and 500.0 is finite and positive, and rounds to
    between 500000 and 500000000 millionths. *)
Lemma band_millionths (v : pyfloat) :
  fle half v = true -> fle v five_hundred = true ->
  exists m e, v = S754_finite false m e
              /\ 500000 <= scaled_round m e 1000000 <= 500000000.
Proof.
  intros Hlo Hhi.
  destruct v as [s|s| |s m e].
  - destruct s; discriminate Hlo.
  - destruct s; [discriminate Hlo|discriminate Hhi].
  - discriminate Hlo.
  - apply fle_finite in Hlo, Hhi. rewrite half_eq in Hlo. rewrite five_hundred_eq in Hhi.
    cbn [mant expo] in Hlo, Hhi.
    destruct s.
    { exfalso. apply Hlo. unfold dy_cmp. apply Z.compare_gt_iff.
      assert (0 < 2 ^ (e - Z.min (-53) e)) by (apply Z.pow_pos_nonneg; lia).
      assert (0 < 2 ^ (-53 - Z.min (-53) e)) by (apply Z.pow_pos_nonneg; lia).
      nia. }
    exists m, e. split; [reflexivity|].
    unfold scaled_round. destruct (0 <=? e) eqn:Ee.
    + apply Z.leb_le in Ee.
      assert (HP : 0 < 2 ^ e) by (apply Z.pow_pos_nonneg; lia).
      apply (@dy_cmp_le _ _ _ _ (-44)) in Hhi; [|lia|lia].
      replace (e - -44) with (e + 44) in Hhi by lia.
      rewrite Z.pow_add_r in Hhi by lia.
      change (2 ^ 44) with 17592186044416 in Hhi.
      change (2 ^ (-44 - -44)) with 1 in Hhi.
      nia.
    + apply Z.leb_gt in Ee.
      assert (HD : 0 < 2 ^ (- e)) by (apply Z.pow_pos_nonneg; lia).
      apply (@dy_cmp_le _ _ _ _ (e - 53)) in Hlo; [|lia|lia].
      apply (@dy_cmp_le _ _ _ _ (e - 44)) in Hhi; [|lia|lia].
      replace (-53 - (e - 53)) with (- e) in Hlo by lia.
      replace (e - (e - 53)) with 53 in Hlo by lia.
      replace (-44 - (e - 44)) with (- e) in Hhi by lia.
      replace (e - (e - 44)) with 44 in Hhi by lia.
      change (2 ^ 53) with 9007199254740992 in Hlo.
      change (2 ^ 44) with 17592186044416 in Hhi.
      apply round_half_even_bounds; [exact HD|lia|lia].
Qed.

Section Band.
Context {B : Builtins}.

Lemma fmt_mhz_in_band (v : pyfloat) :
  fle half v = true -> fle v five_hundred = true -> in_band (_fmt_mhz v).
Proof.
  intros Hlo Hhi.
  destruct (band_millionths v Hlo Hhi) as (m & e & -> & Hn).
  unfold _fmt_mhz, format_f6. change (sign_str false) with (@nil ascii).
  cbn [app].
  destruct (@trimmed_fixed6_value (scaled_round m e 1000000)) as (a & k & Ep & Hk & Ha);
    [lia|].
  unfold in_band, decimal_value. rewrite Ep.
  exists (a # Z.to_pos (10 ^ Z.of_nat k)). split; [reflexivity|].
  assert (Hp : 0 < 10 ^ Z.of_nat k) by (apply Z.pow_pos_nonneg; lia).
  assert (Hp' : 0 < 10 ^ Z.of_nat (6 - k)) by (apply Z.pow_pos_nonneg; lia).
  assert (Hpow : 10 ^ Z.of_nat k * 10 ^ Z.of_nat (6 - k) = 1000000).
  { rewrite <- Z.pow_add_r by lia.
    replace (Z.of_nat k + Z.of_nat (6 - k)) with 6 by lia. reflexivity. }
  unfold Qle. cbn [Qnum Qden]. rewrite Z2Pos.id by exact Hp.
  split; nia.
Qed.

Lemma to_mhz_in_band (raw_num : str) (unit : option str) (s : str) :
  _to_mhz_str raw_num unit = Some s -> in_band s.
Proof.
  unfold _to_mhz_str.
  destruct (negb (nonempty raw_num)); [discriminate|].
  destruct (float_of_str _) as [v|]; [|discriminate].
  set (v' := if str_eqb _ "khz" then float_div v thousand else v).
  destruct (fle half v' && fle v' five_hundred)%bool eqn:E; [|discriminate].
  simpl. intros H. inversion H; subst.
  apply andb_true_iff in E. destruct E as [E1 E2].
  apply fmt_mhz_in_band; assumption.
Qed.

Lemma chunk_channels_to_mhz (ch : str) (c : channel) :
  In c (chunk_channels ch) ->
  exists raw_num unit, _to_mhz_str raw_num unit = Some (freq c).
Proof.
  unfold chunk_channels, unit_records, bare_records.
  rewrite in_app_iff. intros [Hin|Hin].
  - apply in_flat_map in Hin. destruct Hin as (m & _ & Hc).
    apply unit_record_In in Hc. destruct Hc as (E & _). eauto.
  - destruct (has_rf_context ch); [|destruct Hin].
    apply in_flat_map in Hin. destruct Hin as (m & _ & Hc).
    apply bare_record_In in Hc. destruct Hc as (_ & _ & E & _). eauto.
Qed.

Lemma to_mhz_inv (raw_num : str) (unit : option str) (s : str) :
  _to_mhz_str raw_num unit = Some s ->
  exists v, fle half v = true /\ fle v five_hundred = true /\ s = _fmt_mhz v.
Proof.
  unfold _to_mhz_str.
  destruct (negb (nonempty raw_num)); [discriminate|].
  destruct (float_of_str _) as [v|]; [|discriminate].
  set (v' := if str_eqb _ "khz" then float_div v thousand else v).
  destruct (fle half v' && fle v' five_hundred)%bool eqn:E; [|discriminate].
  simpl. intros H. inversion H; subst.
  apply andb_true_iff in E. destruct E as [E1 E2].
  exists v'. auto.
Qed.

(** C2.  The frequency of every record the extractor returns is a decimal
    literal whose value lies between 0.5 and 500 MHz; it is the formatted
    value of a float, converted from kHz where the unit asks for it, that
    passed the test [0.5 <= v <= 500.0]. *)
Theorem C2_frequency_in_band (text : str) (c : channel) :
  In c (_extract_channels text) ->
  in_band (freq c)
  /\ exists v, fle half v = true /\ fle v five_hundred = true
               /\ freq c = _fmt_mhz v.
Proof.
  unfold _extract_channels, collect_channels. intros Hin.
  apply dedupe_In in Hin. apply in_flat_map in Hin.
  destruct Hin as (ch & _ & Hc).
  apply chunk_channels_to_mhz in Hc. destruct Hc as (raw_num & unit & E).
  split; [eapply to_mhz_in_band; exact E|].
  eapply to_mhz_inv; exact E.
Qed.

End Band.

(** The record of the kHz example. *)
Lemma C2_witness :
  In (Channel "7.05275" "" "7052.75khz") (_extract_channels "7052.75kHz USB")
  /\ in_band "7.05275".
Proof.
  assert (H : In (Channel "7.05275" "" "7052.75khz")
                (_extract_channels "7052.75kHz USB"))
    by (vm_compute; left; reflexivity).
  split; [exact H|].
  exact (proj1 (@C2_frequency_in_band decimal_builtins "7052.75kHz USB"
                  (Channel "7.05275" "" "7052.75khz") H)).
Defined.

(* ================================================================== *)
(** ** The comparison is that of [SpecFloat] on valid numbers *)

Lemma digits2_pos_bounds (m : positive) :
  2 ^ (Zpos (digits2_pos m) - 1) <= Zpos m < 2 ^ Zpos (digits2_pos m).
Proof.
  induction m as [m IH|m IH|]; cbn [digits2_pos].
  - rewrite Pos2Z.inj_succ.
    assert (E : Zpos m~1 = 2 * Zpos m + 1) by reflexivity.
    replace (Z.succ (Zpos (digits2_pos m)) - 1)
      with (Z.succ (Zpos (digits2_pos m) - 1)) by lia.
    rewrite !Z.pow_succ_r by lia. lia.
  - rewrite Pos2Z.inj_succ.
    assert (E : Zpos m~0 = 2 * Zpos m) by reflexivity.
    replace (Z.succ (Zpos (digits2_pos m)) - 1)
      with (Z.succ (Zpos (digits2_pos m) - 1)) by lia.
    rewrite !Z.pow_succ_r by lia. lia.
  - simpl. lia.
Qed.

(** A valid mantissa has at most 53 binary digits, and exactly 53 above the
    least exponent. *)
Lemma valid_mantissa (s : bool) (m : positive) (e : Z) :
  valid_binary prec emax (S754_finite s m e) = true ->
  Zpos m < 2 ^ 53 /\ -1074 <= e /\ (-1074 < e -> 2 ^ 52 <= Zpos m).
Proof.
  cbn [valid_binary]. unfold bounded, canonical_mantissa, fexp, emin, prec, emax.
  rewrite andb_true_iff, Z.eqb_eq. intros [Hc _].
  pose proof (digits2_pos_bounds m) as Hd.
  set (d := Zpos (digits2_pos m)) in *.
  assert (Hd1 : 1 <= d) by (unfold d; lia).
  assert (Hle : d <= 53) by lia.
  split; [|split].
  - eapply Z.lt_le_trans; [apply Hd|]. apply Z.pow_le_mono_r; lia.
  - lia.
  - intros He. assert (d = 53) by lia.
    replace 52 with (d - 1) by lia. apply Hd.
Qed.

Lemma dy_cmp_opp (m1 e1 m2 e2 : Z) :
  dy_cmp (- m1) e1 (- m2) e2 = CompOpp (dy_cmp m1 e1 m2 e2).
Proof.
  unfold dy_cmp. rewrite !Z.mul_opp_l, Z.compare_opp, <- Z.compare_antisym.
  reflexivity.
Qed.

Lemma dy_cmp_valid (m1 m2 : positive) (e1 e2 : Z) :
  valid_binary prec emax (S754_finite false m1 e1) = true ->
  valid_binary prec emax (S754_finite false m2 e2) = true ->
  dy_cmp (Zpos m1) e1 (Zpos m2) e2
  = match e1 ?= e2 with
    | Lt => Lt
    | Gt => Gt
    | Eq => Pos.compare_cont Eq m1 m2
    end.
Proof.
  intros V1 V2.
  destruct (@valid_mantissa false m1 e1 V1) as (H1 & H1' & H1'').
  destruct (@valid_mantissa false m2 e2 V2) as (H2 & H2' & H2'').
  change (2 ^ 53) with 9007199254740992 in *.
  change (2 ^ 52) with 4503599627370496 in *.
  destruct (e1 ?= e2) eqn:E.
  - apply Z.compare_eq_iff in E. subst e2.
    rewrite (@dy_cmp_scale _ e1 _ e1 e1) by lia.
    rewrite Z.sub_diag, !Z.mul_1_r. reflexivity.
  - assert (Hlt : e1 < e2) by (apply Z.compare_lt_iff; exact E).
    rewrite (@dy_cmp_scale _ e1 _ e2 e1) by lia.
    rewrite Z.sub_diag, Z.mul_1_r. apply Z.compare_lt_iff.
    assert (Hp : 2 ^ 1 <= 2 ^ (e2 - e1)) by (apply Z.pow_le_mono_r; lia).
    change (2 ^ 1) with 2 in Hp.
    assert (4503599627370496 * 2 <= Zpos m2 * 2 ^ (e2 - e1))
      by (apply Z.mul_le_mono_nonneg; lia).
    lia.
  - assert (Hgt : e2 < e1) by (apply Z.compare_gt_iff; exact E).
    rewrite (@dy_cmp_scale _ e1 _ e2 e2) by lia.
    rewrite Z.sub_diag, Z.mul_1_r. apply Z.compare_gt_iff.
    assert (Hp : 2 ^ 1 <= 2 ^ (e1 - e2)) by (apply Z.pow_le_mono_r; lia).
    change (2 ^ 1) with 2 in Hp.
    assert (4503599627370496 * 2 <= Zpos m1 * 2 ^ (e1 - e2))
      by (apply Z.mul_le_mono_nonneg; lia).
    lia.
Qed.

Lemma dy_cmp_signs (m1 m2 : positive) (e1 e2 : Z) :
  dy_cmp (Zneg m1) e1 (Zpos m2) e2 = Lt /\ dy_cmp (Zpos m1) e1 (Zneg m2) e2 = Gt
  /\ dy_cmp 0 0 (Zpos m2) e2 = Lt /\ dy_cmp 0 0 (Zneg m2) e2 = Gt
  /\ dy_cmp (Zpos m1) e1 0 0 = Gt /\ dy_cmp (Zneg m1) e1 0 0 = Lt.
Proof.
  unfold dy_cmp.
  assert (P : forall a b, 0 < 2 ^ (a - Z.min a b)) by (intros; apply Z.pow_pos_nonneg; lia).
  assert (P' : forall a b, 0 < 2 ^ (b - Z.min a b)) by (intros; apply Z.pow_pos_nonneg; lia).
  pose proof (P e1 e2). pose proof (P' e1 e2). pose proof (P' 0 e2).
  pose proof (P e1 0).
  repeat split;
    first [apply Z.compare_lt_iff | apply Z.compare_gt_iff]; nia.
Qed.

(** On valid binary64 numbers [fcompare] is the comparison of [SpecFloat]. *)
Lemma fcompare_SFcompare (x y : pyfloat) :
  valid_binary prec emax x = true -> valid_binary prec emax y = true ->
  fcompare x y = SFcompare x y.
Proof.
  intros Vx Vy.
  destruct x as [sx|sx| |sx mx ex], y as [sy|sy| |sy my ey];
    try reflexivity; unfold fcompare, SFcompare; cbn [mant expo]; f_equal.
  - destruct (dy_cmp_signs my my ey ey) as (_ & _ & H1 & H2 & _).
    destruct sy; assumption.
  - destruct (dy_cmp_signs mx mx ex ex) as (_ & _ & _ & _ & H1 & H2).
    destruct sx; assumption.
  - destruct sx, sy.
    + change (Zneg mx) with (- Zpos mx). change (Zneg my) with (- Zpos my).
      rewrite dy_cmp_opp, (@dy_cmp_valid mx my ex ey Vx Vy).
      destruct (ex ?= ey); reflexivity.
    + apply dy_cmp_signs.
    + apply dy_cmp_signs.
    + exact (@dy_cmp_valid mx my ex ey Vx Vy).
Qed.

(* ================================================================== *)
(** ** Equality of floats and of item keys *)

Lemma dy_cmp_eq_trans (m1 e1 m2 e2 m3 e3 : Z) :
  dy_cmp m1 e1 m2 e2 = Eq -> dy_cmp m2 e2 m3 e3 = Eq -> dy_cmp m1 e1 m3 e3 = Eq.
Proof.
  set (E := Z.min e1 (Z.min e2 e3)).
  rewrite (@dy_cmp_scale m1 e1 m2 e2 E), (@dy_cmp_scale m2 e2 m3 e3 E),
    (@dy_cmp_scale m1 e1 m3 e3 E) by (unfold E; lia).
  rewrite !Z.compare_eq_iff. congruence.
Qed.

Lemma dy_cmp_eq_sym (m1 e1 m2 e2 : Z) :
  dy_cmp m1 e1 m2 e2 = Eq -> dy_cmp m2 e2 m1 e1 = Eq.
Proof.
  set (E := Z.min e1 e2).
  rewrite (@dy_cmp_scale m1 e1 m2 e2 E), (@dy_cmp_scale m2 e2 m1 e1 E)
    by (unfold E; lia).
  rewrite !Z.compare_eq_iff. congruence.
Qed.

Lemma feq_dy (x y : pyfloat) :
  feq x y = true ->
  (exists s, x = S754_infinity s /\ y = S754_infinity s)
  \/ (match x with S754_zero _ | S754_finite _ _ _ => True | _ => False end
      /\ match y with S754_zero _ | S754_finite _ _ _ => True | _ => False end
      /\ dy_cmp (mant x) (expo x) (mant y) (expo y) = Eq).
Proof.
  unfold feq, fcompare.
  destruct x as [s1|s1| |s1 m1 e1], y as [s2|s2| |s2 m2 e2];
    try discriminate;
    try (destruct s1; discriminate); try (destruct s2; discriminate).
  all: try (intros H; right; split; [exact I|split; [exact I|]];
            destruct (dy_cmp _ _ _ _); congruence).
  intros H. left. destruct s1, s2; try discriminate; eauto.
Qed.

Lemma dy_feq (x y : pyfloat) :
  match x with S754_zero _ | S754_finite _ _ _ => True | _ => False end ->
  match y with S754_zero _ | S754_finite _ _ _ => True | _ => False end ->
  dy_cmp (mant x) (expo x) (mant y) (expo y) = Eq -> feq x y = true.
Proof.
  unfold feq, fcompare.
  destruct x, y; try contradiction; intros _ _ ->; reflexivity.
Qed.

Lemma feq_trans (x y z : pyfloat) :
  feq x y = true -> feq y z = true -> feq x z = true.
Proof.
  intros Hxy Hyz.
  destruct (feq_dy _ _ Hxy) as [(s & -> & ->)|(Hx & Hy & Exy)].
  - destruct (feq_dy _ _ Hyz) as [(s' & E & ->)|(Hy & _)]; [|contradiction].
    inversion E; subst. exact Hyz.
  - destruct (feq_dy _ _ Hyz) as [(s' & -> & _)|(_ & Hz & Eyz)]; [contradiction|].
    apply dy_feq; [exact Hx|exact Hz|].
    eapply dy_cmp_eq_trans; eassumption.
Qed.

Lemma feq_sym (x y : pyfloat) : feq x y = true -> feq y x = true.
Proof.
  intros Hxy.
  destruct (feq_dy _ _ Hxy) as [(s & -> & ->)|(Hx & Hy & Exy)]; [exact Hxy|].
  apply dy_feq; [exact Hy|exact Hx|]. apply dy_cmp_eq_sym. exact Exy.
Qed.

Lemma item_key_eqb_trans (a b c : str * pyfloat * pyfloat * str) :
  item_key_eqb a b = true -> item_key_eqb b c = true -> item_key_eqb a c = true.
Proof.
  destruct a as [[[a1 a2] a3] a4], b as [[[b1 b2] b3] b4], c as [[[c1 c2] c3] c4].
  unfold item_key_eqb. rewrite !andb_true_iff, !str_eqb_eq.
  intros [[[-> H2] H3] ->] [[[-> H2'] H3'] ->].
  repeat split; eauto using feq_trans.
Qed.

Lemma item_key_eqb_sym (a b : str * pyfloat * pyfloat * str) :
  item_key_eqb a b = true -> item_key_eqb b a = true.
Proof.
  destruct a as [[[a1 a2] a3] a4], b as [[[b1 b2] b3] b4].
  unfold item_key_eqb. rewrite !andb_true_iff, !str_eqb_eq.
  intros [[[-> H2] H3] ->]. repeat split; auto using feq_sym.
Qed.

(* ================================================================== *)
(** ** The Item Builder *)

Lemma count_from_lower (k : nat) :
  forall n, Forall (fun x => n <= x) (count_from n k).
Proof.
  induction k as [|k IH]; intros n; simpl; constructor; [lia|].
  eapply Forall_impl; [|apply (IH (n + 1))]. simpl. intros; lia.
Qed.

Lemma count_from_sorted (k : nat) :
  forall n, StronglySorted Z.lt (count_from n k).
Proof.
  induction k as [|k IH]; intros n; simpl; constructor; [apply IH|].
  eapply Forall_impl; [|apply (count_from_lower k (n + 1))]. simpl. intros; lia.
Qed.

Section ItemBuilder.
Context {B : Builtins}.

Lemma or_else_truthy (v : pyval) (alt : result pyval) :
  truthy v = true -> or_else v alt = Ok v.
Proof. unfold or_else. intros ->. reflexivity. Qed.

Lemma point_lat_own (p : dict) (props : pyval) :
  truthy (dict_get p "lat") = true ->
  point_lat p props = Ok (_as_float (dict_get p "lat")).
Proof.
  intros H. unfold point_lat. rewrite or_else_truthy by exact H.
  cbn [bind]. rewrite or_else_truthy by exact H. reflexivity.
Qed.

Lemma point_lng_own (p : dict) (props : pyval) :
  truthy (dict_get p "lng") = true ->
  point_lng p props = Ok (_as_float (dict_get p "lng")).
Proof.
  intros H. unfold point_lng. rewrite or_else_truthy by exact H.
  cbn [bind]. rewrite or_else_truthy by exact H.
  cbn [bind]. rewrite or_else_truthy by exact H. reflexivity.
Qed.

Lemma point_lat_dict (p d : dict) :
  point_lat p (PyDict d)
  = Ok (_as_float
          (if truthy (dict_get p "lat") then dict_get p "lat"
           else if truthy (dict_get d "lat") then dict_get d "lat"
           else dict_get d "latitude")).
Proof.
  unfold point_lat, or_else, get.
  destruct (truthy (dict_get p "lat")) eqn:E1; cbn [bind].
  - rewrite E1. reflexivity.
  - destruct (truthy (dict_get d "lat")); reflexivity.
Qed.

Lemma point_lng_dict (p d : dict) :
  point_lng p (PyDict d)
  = Ok (_as_float
          (if truthy (dict_get p "lng") then dict_get p "lng"
           else if truthy (dict_get d "lng") then dict_get d "lng"
           else if truthy (dict_get d "lon") then dict_get d "lon"
           else dict_get d "longitude")).
Proof.
  unfold point_lng, or_else, get.
  destruct (truthy (dict_get p "lng")) eqn:E1; cbn [bind].
  - rewrite E1. cbn [bind]. rewrite E1. reflexivity.
  - destruct (truthy (dict_get d "lng")) eqn:E2; cbn [bind].
    + rewrite E2. reflexivity.
    + destruct (truthy (dict_get d "lon")); reflexivity.
Qed.


(** An item takes the identifier that was free when it was built. *)
Lemma build_item_id (p : dict) (n : Z) (it : PacketItem) :
  build_item p n = Ok (Some it) -> it_id it = n.
Proof.
  unfold build_item.
  destruct (point_lat _ _) as [[lat|]|]; cbn [bind]; try discriminate;
    destruct (point_lng _ _) as [[lng|]|]; cbn [bind]; try discriminate.
  destruct (_pick _ ["title"]) as [t|]; cbn [bind]; [|discriminate].
  destruct (if nonempty t then Ok t else _pick _ _) as [callsign|];
    cbn [bind]; [|discriminate].
  destruct (re.search callsign_re (upper callsign)); [|discriminate].
  destruct (get _ "displayText") as [v|]; cbn [bind]; [|discriminate].
  destruct (or_else v _) as [v'|]; cbn [bind]; [|discriminate].
  destruct (as_text _) as [dt|]; cbn [bind]; [|discriminate].
  destruct (_parse_freq_baud dt) as [[f b] chs].
  intros H. inversion H. reflexivity.
Qed.

Lemma build_loop_ids (points : list dict) :
  forall n items, build_loop points n = Ok items ->
                  map it_id items = count_from n (length items).
Proof.
  induction points as [|p points IH]; intros n items; cbn [build_loop].
  - intros H. inversion H. reflexivity.
  - destruct (build_item p n) as [[it|]|] eqn:Ei; cbn [bind]; [| |discriminate].
    + destruct (build_loop points (n + 1)) as [items'|] eqn:El; cbn [bind];
        [|discriminate].
      intros H. inversion H; subst. simpl.
      rewrite (build_item_id _ _ Ei), (IH _ _ El). reflexivity.
    + apply IH.
Qed.

Lemma build_items_inv (points : list dict) (items : list PacketItem) :
  _build_items points = Ok items ->
  exists cands, build_loop points 1 = Ok cands
                /\ items = dedupe_loop item_key item_key_eqb [] cands.
Proof.
  unfold _build_items. destruct (build_loop points 1) as [cands|]; cbn [bind];
    [|discriminate].
  intros H. inversion H. eauto.
Qed.

(** C7.  The catalog has no two items with the same key, the key being
    the callsign in capital letters, the latitude and the longitude rounded
    to five places and the type; every built candidate is in the catalog or
    has the key of an item of the catalog; and the catalog is the list of
    the candidates that have the key of no candidate before them: a
    candidate with the key of an earlier one is left out. *)
Theorem C7_first_of_each_key (points : list dict) (items : list PacketItem) :
  _build_items points = Ok items ->
  exists cands,
    build_loop points 1 = Ok cands
    /\ ForallOrdPairs
         (fun a b => same_key a b = false /\ same_key b a = false) items
    /\ subseq items cands
    /\ (forall c, In c cands ->
          In c items \/ exists it, In it items /\ same_key c it = true)
    /\ items = first_occurrences (fun it => it) same_key [] cands.
Proof.
  intros H. destruct (build_items_inv _ H) as (cands & Hc & ->).
  assert (Hk : forall a b, same_key a b = item_key_eqb (item_key a) (item_key b))
    by reflexivity.
  exists cands. split; [exact Hc|]. split; [|split; [|split]].
  - eapply pairwise_impl; [|apply dedupe_pairwise].
    intros a b Hba. cbv beta in Hba. rewrite !Hk. split; [|exact Hba].
    destruct (item_key_eqb (item_key a) (item_key b)) eqn:E; [|reflexivity].
    apply item_key_eqb_sym in E. congruence.
  - apply dedupe_subseq.
  - intros c Hin.
    destruct (dedupe_complete item_key item_key_eqb cands [] c Hin)
      as [Hs|[Hkept|(y & Hy & Ey)]].
    + simpl in Hs. discriminate.
    + left. exact Hkept.
    + right. exists y. rewrite Hk. split; assumption.
  - rewrite (@dedupe_first_occurrences _ _ item_key item_key_eqb) with (before := []);
      [|exact item_key_eqb_trans|reflexivity].
    exact (@first_occurrences_same _ _ item_key item_key_eqb same_key cands Hk []).
Qed.

(** C10.  The identifiers of the returned items increase strictly.  They
    are taken from the identifiers 1, 2, 3, ... given to the candidates
    before the de-duplication, so they need not be consecutive: of three
    points of which the second repeats the first, the items 1 and 3 are
    returned. *)
Theorem C10_ids_increase_with_gaps (points : list dict) (items : list PacketItem) :
  _build_items points = Ok items ->
  StronglySorted Z.lt (map it_id items)
  /\ (exists cands,
        build_loop points 1 = Ok cands
        /\ map it_id cands = count_from 1 (length cands)
        /\ subseq items cands)
  /\ (exists items',
        _build_items [gap_point "GB7AAA"; gap_point "GB7AAA"; gap_point "GB7BBB"]
        = Ok items'
        /\ map it_id items' = [1; 3]).
Proof.
  intros H. destruct (build_items_inv _ H) as (cands & Hc & ->).
  assert (Hids := build_loop_ids _ _ Hc).
  assert (Hsub : subseq (dedupe_loop item_key item_key_eqb [] cands) cands)
    by apply dedupe_subseq.
  split; [|split].
  - eapply subseq_sorted; [apply subseq_map; exact Hsub|].
    rewrite Hids. apply count_from_sorted.
  - exists cands. auto.
  - eexists. split; vm_compute; reflexivity.
Qed.

End ItemBuilder.

(* ================================================================== *)
(** ** The Endpoint Resolver *)

Lemma insert_sorted_In (x y : str) (l : list str) :
  In x (insert_sorted y l) <-> x = y \/ In x l.
Proof.
  induction l as [|z l IH]; simpl.
  - intuition.
  - destruct (str_eqb y z) eqn:E.
    + apply str_eqb_eq in E. subst z. simpl. intuition.
    + destruct (str_ltb y z); simpl; rewrite ?IH; intuition.
Qed.

Lemma sorted_set_In (x : str) (l : list str) :
  In x (sorted_set l) <-> In x l.
Proof.
  induction l as [|y l IH]; simpl; [tauto|].
  rewrite insert_sorted_In, IH. intuition.
Qed.

Lemma code_inj (x y : ascii) : code x = code y -> x = y.
Proof.
  unfold code. intros H.
  rewrite <- (ascii_nat_embedding x), <- (ascii_nat_embedding y), H. reflexivity.
Qed.

Lemma str_ltb_trans (a : str) :
  forall b c, str_ltb a b = true -> str_ltb b c = true -> str_ltb a c = true.
Proof.
  induction a as [|x a IH]; intros [|y b] [|z c]; simpl; try discriminate; auto.
  destruct (Nat.ltb (code x) (code y)) eqn:Exy;
    destruct (Nat.ltb (code y) (code z)) eqn:Eyz;
    destruct (Nat.ltb (code x) (code z)) eqn:Exz;
    destruct (Nat.ltb (code y) (code x)) eqn:Eyx;
    destruct (Nat.ltb (code z) (code y)) eqn:Ezy;
    destruct (Nat.ltb (code z) (code x)) eqn:Ezx;
    try discriminate; auto;
    rewrite ?Nat.ltb_lt, ?Nat.ltb_ge in *; try lia.
  apply IH.
Qed.

Lemma str_ltb_total (a : str) :
  forall b, str_eqb a b = false -> str_ltb a b = false -> str_ltb b a = true.
Proof.
  induction a as [|x a IH]; intros [|y b]; simpl; try discriminate; auto.
  destruct (Nat.ltb (code x) (code y)) eqn:Exy; [discriminate|].
  destruct (Nat.ltb (code y) (code x)) eqn:Eyx; [reflexivity|].
  rewrite Nat.ltb_ge in Exy, Eyx.
  assert (E : x = y) by (apply code_inj; lia). subst y.
  rewrite Ascii.eqb_refl. simpl. apply IH.
Qed.

Lemma insert_sorted_sorted (x : str) (l : list str) :
  StronglySorted (fun a b => str_ltb a b = true) l ->
  StronglySorted (fun a b => str_ltb a b = true) (insert_sorted x l).
Proof.
  induction 1 as [|y l Hs IH Hall]; simpl.
  - constructor; constructor.
  - destruct (str_eqb x y) eqn:E; [constructor; assumption|].
    destruct (str_ltb x y) eqn:L.
    + constructor; [constructor; assumption|].
      constructor; [exact L|].
      eapply Forall_impl; [|exact Hall]. intros z Hz.
      eapply str_ltb_trans; eassumption.
    + constructor; [exact IH|].
      apply Forall_forall. intros z Hz. apply insert_sorted_In in Hz.
      destruct Hz as [->|Hz].
      * apply str_ltb_total; assumption.
      * rewrite Forall_forall in Hall. apply Hall. exact Hz.
Qed.

(** [sorted_set l] is in strictly increasing order, so without repetition. *)
Lemma sorted_set_sorted (l : list str) :
  StronglySorted (fun a b => str_ltb a b = true) (sorted_set l).
Proof.
  induction l as [|x l IH]; simpl; [constructor|].
  apply insert_sorted_sorted. exact IH.
Qed.

Lemma flat_map_nil {A C : Type} (f : A -> list C) (l : list A) :
  (forall x, In x l -> f x = []) -> flat_map f l = [].
Proof.
  induction l as [|a l IH]; intros H; simpl; [reflexivity|].
  rewrite (H a) by (left; reflexivity). apply IH.
  intros x Hx. apply H. right. exact Hx.
Qed.

(** C9, as amended.  The resolver of the fetch script returns a list in
    strictly increasing order that always holds the known endpoint
    [DATA_URL], so its result is never empty, and it is exactly that one URL
    when the pattern matches nothing in the page.  The sets of the discovery
    script are empty when their pattern matches nothing in the page nor in
    any script that could be fetched. *)
Theorem C9_known_endpoint_always_listed (html : str) :
  In DATA_URL (_find_data_urls_from_html html)
  /\ StronglySorted (fun a b => str_ltb a b = true) (_find_data_urls_from_html html)
  /\ (re.findall api_re html = [] ->
      _find_data_urls_from_html html = [DATA_URL])
  /\ (forall get_text : str -> option str,
        re.finditer endpoint_re html = [] ->
        (forall js, In js (fetched_scripts get_text html) ->
                    re.finditer endpoint_re js = []) ->
        discover_endpoints get_text html = [])
  /\ (forall get_text : str -> option str,
        re.finditer url_re html = [] ->
        (forall js, In js (fetched_scripts get_text html) ->
                    re.finditer url_re js = []) ->
        discover_all_urls get_text html = []).
Proof.
  split; [|split; [|split; [|split]]].
  - unfold _find_data_urls_from_html. apply sorted_set_In.
    apply in_or_app. right. left. reflexivity.
  - apply sorted_set_sorted.
  - intros H. unfold _find_data_urls_from_html. rewrite H. reflexivity.
  - intros get_text Hhtml Hjs. unfold discover_endpoints, scan_endpoints.
    rewrite Hhtml. rewrite flat_map_nil; [reflexivity|].
    intros js Hin. rewrite (Hjs js Hin). reflexivity.
  - intros get_text Hhtml Hjs. unfold discover_all_urls, scan_urls.
    rewrite Hhtml. rewrite flat_map_nil; [reflexivity|].
    intros js Hin. rewrite (Hjs js Hin). reflexivity.
Qed.

(** A page in which the pattern matches nothing. *)
Lemma C9_witness :
  re.findall api_re plain_page = []
  /\ _find_data_urls_from_html plain_page = [DATA_URL].
Proof.
  assert (H : re.findall api_re plain_page = []) by (vm_compute; reflexivity).
  split; [exact H|].
  exact (proj1 (proj2 (proj2 (C9_known_endpoint_always_listed plain_page))) H).
Defined.

(** C9, as the specification states it, fails: nothing in the page below
    matches the pattern, and the result is not empty. *)
Lemma C9_counterexample :
  re.findall api_re plain_page = []
  /\ _find_data_urls_from_html plain_page <> [].
Proof.
  split; [vm_compute; reflexivity|]. vm_compute. discriminate.
Qed.

(* ================================================================== *)
(** ** The Catalog Emitter *)

Lemma list_ind2 (A : Type) (P : list A -> Prop) :
  P [] -> (forall c, P [c]) ->
  (forall c d l, P l -> P (d :: l) -> P (c :: d :: l)) ->
  forall l, P l.
Proof.
  intros H0 H1 H2 l.
  assert (H : P l /\ forall c, P (c :: l)).
  { induction l as [|d l [IH1 IH2]]; split; auto. }
  apply H.
Qed.

Lemma startswith_nil (s : str) : startswith s [] = true.
Proof. destruct s; reflexivity. Qed.

Lemma replace_char (x : ascii) (new s : str) :
  replace [x] new s = flat_map (fun c => if Ascii.eqb x c then new else [c]) s.
Proof.
  unfold replace. induction s as [|c s IH]; [reflexivity|].
  cbn [replace_from startswith flat_map length Nat.pred].
  rewrite startswith_nil, andb_true_r.
  destruct (Ascii.eqb x c); rewrite IH; reflexivity.
Qed.

Lemma replace_from_cons (old new : str) (c : ascii) (s : str) :
  replace_from old new 0 (c :: s)
  = if startswith (c :: s) old
    then new ++ replace_from old new (Nat.pred (length old)) s
    else c :: replace_from old new 0 s.
Proof. reflexivity. Qed.

Lemma replace_from_skip (old new : str) (n : nat) (c : ascii) (s : str) :
  replace_from old new (S n) (c :: s) = replace_from old new n s.
Proof. reflexivity. Qed.

Lemma replace_dollar (new s : str) :
  replace "${" new s = dollar_direct new s.
Proof.
  unfold replace. induction s as [|c|c d l IH1 IH2] using list_ind2.
  - reflexivity.
  - rewrite replace_from_cons. cbn [startswith dollar_direct].
    rewrite andb_false_r. reflexivity.
  - rewrite replace_from_cons. cbn [startswith dollar_direct length Nat.pred].
    rewrite replace_from_skip.
    rewrite startswith_nil, andb_true_r, (Ascii.eqb_sym c "$"), (Ascii.eqb_sym d "{").
    destruct (Ascii.eqb "$" c && Ascii.eqb "{" d)%bool.
    + rewrite IH1. reflexivity.
    + rewrite IH2. reflexivity.
Qed.

Lemma escape_two_passes (s : str) :
  replace "`" "\`" (replace "\" "\\" s) = flat_map esc_char s.
Proof.
  rewrite !replace_char. induction s as [|c s IH]; [reflexivity|].
  cbn [flat_map]. rewrite flat_map_app, IH. f_equal.
  unfold esc_char. rewrite (Ascii.eqb_sym c "\"), (Ascii.eqb_sym c "`").
  destruct (Ascii.eqb "\" c) eqn:E1.
  - reflexivity.
  - cbn [flat_map app]. destruct (Ascii.eqb "`" c); reflexivity.
Qed.

Lemma dollar_direct_other (new : str) (c : ascii) (s : str) :
  Ascii.eqb c "$" = false ->
  dollar_direct new (c :: s) = c :: dollar_direct new s.
Proof.
  intros Hc. destruct s as [|d s]; [reflexivity|].
  cbn [dollar_direct]. rewrite Hc. reflexivity.
Qed.

Lemma dollar_direct_no_brace (new : str) (s : str) :
  match s with d :: _ => Ascii.eqb d "{" = false | [] => True end ->
  dollar_direct new ("$"%char :: s) = "$"%char :: dollar_direct new s.
Proof.
  destruct s as [|d s]; [reflexivity|]. intros Hd.
  cbn [dollar_direct]. rewrite Hd, andb_false_r. reflexivity.
Qed.

Lemma esc_head_no_brace (d : ascii) (s : str) :
  Ascii.eqb d "{" = false ->
  match flat_map esc_char (d :: s) with
  | x :: _ => Ascii.eqb x "{" = false
  | [] => True
  end.
Proof.
  intros Hd. cbn [flat_map]. unfold esc_char.
  destruct (Ascii.eqb d "\"); [reflexivity|].
  destruct (Ascii.eqb d "`"); [reflexivity|]. exact Hd.
Qed.

Lemma esc_direct_cons (c d : ascii) (l : str) :
  esc_direct (c :: d :: l)
  = if (Ascii.eqb c "$" && Ascii.eqb d "{")%bool
    then "\${" ++ esc_direct l
    else esc_char c ++ esc_direct (d :: l).
Proof. reflexivity. Qed.

Lemma dollar_after_escape (s : str) :
  dollar_direct "\${" (flat_map esc_char s) = esc_direct s.
Proof.
  induction s as [|c|c d l IH1 IH2] using list_ind2.
  - reflexivity.
  - cbn. unfold esc_char. destruct (Ascii.eqb c "\"); [reflexivity|].
    destruct (Ascii.eqb c "`"); reflexivity.
  - rewrite esc_direct_cons.
    destruct (Ascii.eqb c "$") eqn:Ec.
    + apply Ascii.eqb_eq in Ec. subst c.
      destruct (Ascii.eqb d "{") eqn:Ed.
      * apply Ascii.eqb_eq in Ed. subst d. cbn [andb].
        change (flat_map esc_char ("$"%char :: "{"%char :: l))
          with ("$"%char :: "{"%char :: flat_map esc_char l).
        cbn [dollar_direct Ascii.eqb Bool.eqb andb]. rewrite IH1. reflexivity.
      * cbn [andb].
        change (flat_map esc_char ("$"%char :: d :: l))
          with ("$"%char :: flat_map esc_char (d :: l)).
        rewrite dollar_direct_no_brace by (apply esc_head_no_brace; exact Ed).
        rewrite IH2. reflexivity.
    + cbn [andb].
      change (flat_map esc_char (c :: d :: l))
        with (esc_char c ++ flat_map esc_char (d :: l)).
      rewrite <- IH2. unfold esc_char at 1 3.
      destruct (Ascii.eqb c "\") eqn:E1.
      * cbn [app]. rewrite !dollar_direct_other by reflexivity. reflexivity.
      * destruct (Ascii.eqb c "`") eqn:E2.
        -- cbn [app]. rewrite !dollar_direct_other by reflexivity. reflexivity.
        -- cbn [app]. rewrite dollar_direct_other by exact Ec. reflexivity.
Qed.

Lemma js_escape_direct (s : str) : _js_escape s = esc_direct s.
Proof.
  unfold _js_escape. rewrite escape_two_passes, replace_dollar.
  apply dollar_after_escape.
Qed.

Lemma js_read_plain (c : ascii) (s v rest : str) :
  c <> "'"%char -> c <> "010"%char -> c <> "013"%char -> c <> "\"%char ->
  js_read_body s = Some (v, rest) ->
  js_read_body (c :: s) = Some (c :: v, rest).
Proof.
  intros H1 H2 H3 H4 Hs. cbn [js_read_body].
  apply Ascii.eqb_neq in H1, H2, H3, H4.
  rewrite H1, H2, H3, H4, Hs. reflexivity.
Qed.

Lemma js_read_escaped (e : ascii) (s v rest : str) :
  js_escape_char e = Some e ->
  js_read_body s = Some (v, rest) ->
  js_read_body ("\"%char :: e :: s) = Some (e :: v, rest).
Proof.
  intros He Hs. cbn [js_read_body]. rewrite He, Hs. reflexivity.
Qed.

Lemma js_read_esc_char (c : ascii) (s v rest : str) :
  c <> "'"%char -> c <> "010"%char -> c <> "013"%char ->
  js_read_body s = Some (v, rest) ->
  js_read_body (esc_char c ++ s) = Some (c :: v, rest).
Proof.
  intros H1 H2 H3 Hs. unfold esc_char.
  destruct (Ascii.eqb c "\") eqn:E1.
  - apply Ascii.eqb_eq in E1. subst c. apply js_read_escaped; [reflexivity|exact Hs].
  - destruct (Ascii.eqb c "`") eqn:E2.
    + apply Ascii.eqb_eq in E2. subst c. apply js_read_escaped; [reflexivity|exact Hs].
    + apply js_read_plain; auto. apply Ascii.eqb_neq. exact E1.
Qed.

(** An apostrophe or a line break is written as it is; the reader stops
    at the first and refuses the others, and so does not return it. *)
Lemma quote_char_dec (c : ascii) :
  (c = "'"%char \/ c = "010"%char \/ c = "013"%char)
  \/ (c <> "'"%char /\ c <> "010"%char /\ c <> "013"%char).
Proof.
  destruct (Ascii.eqb c "'") eqn:E1; [apply Ascii.eqb_eq in E1; auto|].
  destruct (Ascii.eqb c "010") eqn:E2; [apply Ascii.eqb_eq in E2; auto|].
  destruct (Ascii.eqb c "013") eqn:E3; [apply Ascii.eqb_eq in E3; auto|].
  apply Ascii.eqb_neq in E1, E2, E3. auto.
Qed.

Lemma js_read_quote_char (c : ascii) (s v rest : str) :
  c = "'"%char \/ c = "010"%char \/ c = "013"%char ->
  js_read_body (esc_char c ++ s) = Some (c :: v, rest) -> False.
Proof.
  intros [->|[->| ->]]; cbn; discriminate.
Qed.

Lemma js_read_esc_char_step (c : ascii) (s : str) :
  c <> "'"%char -> c <> "010"%char -> c <> "013"%char ->
  js_read_body (esc_char c ++ s)
  = match js_read_body s with
    | Some (v, rest) => Some (c :: v, rest)
    | None => None
    end.
Proof.
  intros H1 H2 H3. unfold esc_char.
  destruct (Ascii.eqb c "\") eqn:E1.
  - apply Ascii.eqb_eq in E1. subst c.
    cbn [app js_read_body Ascii.eqb Bool.eqb orb js_escape_char is_digit].
    destruct (js_read_body s) as [[v r]|]; reflexivity.
  - destruct (Ascii.eqb c "`") eqn:E2.
    + apply Ascii.eqb_eq in E2. subst c.
      cbn [app js_read_body Ascii.eqb Bool.eqb orb js_escape_char is_digit].
      destruct (js_read_body s) as [[v r]|]; reflexivity.
    + cbn [app js_read_body].
      apply Ascii.eqb_neq in H1, H2, H3. rewrite H1, H2, H3, E1. reflexivity.
Qed.

(** Without an apostrophe or a line break in the value, the literal that
    [_js_escape] writes between single quotes reads back as the value. *)
Lemma js_escape_read_back (v tail : str) :
  quote_free v ->
  js_read_single_quoted ("'" ++ _js_escape v ++ "'" ++ tail) = Some (v, tail).
Proof.
  intros Hv. rewrite js_escape_direct.
  change (js_read_body (esc_direct v ++ "'"%char :: tail) = Some (v, tail)).
  induction v as [|c|c d l IH1 IH2] using list_ind2.
  - reflexivity.
  - inversion Hv as [|? ? (H1 & H2 & H3) _]; subst.
    cbn [esc_direct]. apply js_read_esc_char; auto.
  - inversion Hv as [|? ? (H1 & H2 & H3) Hv']; subst.
    inversion Hv' as [|? ? (H1' & H2' & H3') Hv'']; subst.
    rewrite esc_direct_cons.
    destruct (Ascii.eqb c "$" && Ascii.eqb d "{")%bool eqn:E.
    + apply andb_true_iff in E. destruct E as [Ec Ed].
      apply Ascii.eqb_eq in Ec, Ed. subst c d.
      change (("\${" ++ esc_direct l) ++ "'"%char :: tail)
        with ("\"%char :: "$"%char :: "{"%char :: esc_direct l ++ "'"%char :: tail).
      apply js_read_escaped; [reflexivity|].
      apply js_read_plain; try discriminate. apply IH1. exact Hv''.
    + rewrite <- app_assoc. apply js_read_esc_char; auto.
Qed.

(** C8, on a failing input.  The description of the point holds an
    apostrophe; [_js_escape] leaves it as it is, the line written for the
    notes ends the literal at the apostrophe, and reading the literal back
    gives three characters of the notes and leaves the rest as text of the
    module. *)
Theorem C8_apostrophe_ends_literal (B : Builtins) :
  exists it,
    _build_items [apostrophe_point] = Ok [it]
    /\ it_notes it = "Bob's node"
    /\ _js_escape (it_notes it) = "Bob's node"
    /\ nth_error (item_lines it) 14 = Some "    notes: 'Bob's node'"
    /\ js_read_single_quoted ("'" ++ _js_escape (it_notes it) ++ "'")
       = Some ("Bob", "s node'").
Proof.
  eexists. split; [vm_compute; reflexivity|].
  repeat split; vm_compute; reflexivity.
Qed.

(* ================================================================== *)
(** ** Instances of the properties with hypotheses *)

(** Five points at one longitude.  The second repeats the callsign of the
    first in small letters, the third has a latitude that rounds to the
    latitude of the first, the fourth a latitude that does not: the first,
    the fourth and the fifth are kept. *)
Lemma C7_witness :
  let points := [gap_point "GB7AAA"; gap_point "gb7aaa";
                 placed_point "GB7AAA" "51.000001";
                 placed_point "GB7AAA" "51.00002"; gap_point "GB7BBB"] in
  exists items,
    _build_items points = Ok items
    /\ map it_id items = [1; 4; 5]
    /\ map it_callsign items = ["GB7AAA"; "GB7AAA"; "GB7BBB"]
    /\ (exists built,
          build_loop points 1 = Ok built
          /\ map it_callsign built
             = ["GB7AAA"; "gb7aaa"; "GB7AAA"; "GB7AAA"; "GB7BBB"])
    /\ exists cands,
         build_loop points 1 = Ok cands
         /\ ForallOrdPairs
              (fun a b => same_key a b = false /\ same_key b a = false) items
         /\ subseq items cands
         /\ (forall c, In c cands ->
               In c items \/ exists it, In it items /\ same_key c it = true)
         /\ items = first_occurrences (fun it => it) same_key [] cands.
Proof.
  cbv zeta. eexists. split; [vm_compute; reflexivity|].
  split; [vm_compute; reflexivity|]. split; [vm_compute; reflexivity|].
  split; [eexists; split; vm_compute; reflexivity|].
  apply (@C7_first_of_each_key decimal_builtins
           [gap_point "GB7AAA"; gap_point "gb7aaa";
            placed_point "GB7AAA" "51.000001";
            placed_point "GB7AAA" "51.00002"; gap_point "GB7BBB"]).
  vm_compute. reflexivity.
Defined.

(** Three points of which the second repeats the first. *)
Lemma C10_witness :
  exists items,
    _build_items [gap_point "GB7AAA"; gap_point "GB7AAA"; gap_point "GB7BBB"]
    = Ok items
    /\ StronglySorted Z.lt (map it_id items).
Proof.
  eexists. split; [vm_compute; reflexivity|].
  match goal with |- StronglySorted _ (map _ ?items) =>
    exact (proj1 (@C10_ids_increase_with_gaps decimal_builtins
                    [gap_point "GB7AAA"; gap_point "GB7AAA"; gap_point "GB7BBB"]
                    items ltac:(vm_compute; reflexivity)))
  end.
Defined.

(* ================================================================== *)
(** ** Characters and the string methods *)

Lemma is_space_to_upper (c : ascii) : is_space (to_upper c) = is_space c.
Proof. destruct c as [[] [] [] [] [] [] [] []]; vm_compute; reflexivity. Qed.

Lemma is_space_to_lower (c : ascii) : is_space (to_lower c) = is_space c.
Proof. destruct c as [[] [] [] [] [] [] [] []]; vm_compute; reflexivity. Qed.

Lemma is_digit_to_lower (c : ascii) : is_digit (to_lower c) = is_digit c.
Proof. destruct c as [[] [] [] [] [] [] [] []]; vm_compute; reflexivity. Qed.

Lemma to_lower_to_upper (c : ascii) : to_lower (to_upper c) = to_lower c.
Proof. destruct c as [[] [] [] [] [] [] [] []]; vm_compute; reflexivity. Qed.

Lemma alnum_not_space (c : ascii) : alnum c = true -> is_space c = false.
Proof. destruct c as [[] [] [] [] [] [] [] []]; vm_compute; congruence. Qed.

Lemma drop_while_map (p : ascii -> bool) (f : ascii -> ascii) (s : str) :
  (forall c, p (f c) = p c) ->
  drop_while p (map f s) = map f (drop_while p s).
Proof.
  intros Hf. induction s as [|c s IH]; simpl; [reflexivity|].
  rewrite Hf. destruct (p c); [exact IH|reflexivity].
Qed.

Lemma strip_map (f : ascii -> ascii) (s : str) :
  (forall c, is_space (f c) = is_space c) ->
  strip (map f s) = map f (strip s).
Proof.
  intros Hf. unfold strip, rstrip_chars, lstrip_chars.
  rewrite drop_while_map by exact Hf.
  rewrite <- map_rev, drop_while_map by exact Hf.
  rewrite map_rev. reflexivity.
Qed.

Lemma drop_while_Forall (P : ascii -> Prop) (p : ascii -> bool) (s : str) :
  Forall P s -> Forall P (drop_while p s).
Proof.
  induction 1 as [|c s Hc Hs IH]; simpl; [constructor|].
  destruct (p c); [exact IH|constructor; assumption].
Qed.

Lemma strip_Forall (P : ascii -> Prop) (s : str) : Forall P s -> Forall P (strip s).
Proof.
  intros H. unfold strip, rstrip_chars, lstrip_chars.
  apply Forall_rev, drop_while_Forall, Forall_rev, drop_while_Forall, H.
Qed.

Lemma join_Forall (P : ascii -> Prop) (sep : str) (parts : list str) :
  Forall P sep -> Forall (Forall P) parts -> Forall P (join sep parts).
Proof.
  intros Hsep. induction 1 as [|p parts Hp Hparts IH]; simpl; [constructor|].
  destruct parts as [|q parts]; [exact Hp|].
  apply Forall_app; split; [exact Hp|].
  apply Forall_app; split; [exact Hsep|exact IH].
Qed.

(* ================================================================== *)
(** ** The matcher *)

Lemma firstn_Forall (A : Type) (P : A -> Prop) (n : nat) (l : list A) :
  Forall P l -> Forall P (firstn n l).
Proof.
  intros H. revert n. induction H as [|x l Hx Hl IH]; intros [|n]; simpl;
    constructor; auto.
Qed.

Lemma skipn_Forall (A : Type) (P : A -> Prop) (n : nat) (l : list A) :
  Forall P l -> Forall P (skipn n l).
Proof.
  intros H. revert n. induction H as [|x l Hx Hl IH]; intros [|n]; simpl;
    auto.
Qed.

(** The pieces between matches are made of characters of the subject. *)
Lemma pieces_Forall (P : ascii -> Prop) (ms : list re.match_obj) :
  forall pos s, Forall P s -> Forall (Forall P) (re.pieces ms pos s).
Proof.
  induction ms as [|m ms IH]; intros pos s Hs; simpl.
  - constructor; [exact Hs|constructor].
  - constructor; [apply firstn_Forall, Hs|apply IH, skipn_Forall, Hs].
Qed.

Lemma sub_Forall (P : ascii -> Prop) (r : re.regex) (repl s : str) :
  Forall P repl -> Forall P s -> Forall P (re.sub r repl s).
Proof.
  intros Hr Hs. unfold re.sub, re.split. apply join_Forall; [exact Hr|].
  apply pieces_Forall, Hs.
Qed.

(** A pattern that matches at no position of the subject has no match. *)
Lemma scan_no_match (r : re.regex) (Q : str -> Prop) :
  (forall prev pos rest, Q rest -> re.match_at r prev pos rest = None) ->
  (forall x rest, Q (x :: rest) -> Q rest) ->
  forall rest prev pos skip, Q rest -> re.scan r prev pos skip rest = [].
Proof.
  intros Hno Htl. induction rest as [|x rest IH]; intros prev pos skip HQ.
  - destruct skip; simpl; [|reflexivity]. rewrite Hno by exact HQ. reflexivity.
  - destruct skip; cbn [re.scan].
    + rewrite Hno by exact HQ. apply IH. eapply Htl, HQ.
    + apply IH. eapply Htl, HQ.
Qed.

Lemma search_no_match (r : re.regex) (Q : str -> Prop) :
  (forall prev pos rest, Q rest -> re.match_at r prev pos rest = None) ->
  (forall x rest, Q (x :: rest) -> Q rest) ->
  forall rest prev pos, Q rest -> re.search_from r prev pos rest = None.
Proof.
  intros Hno Htl. induction rest as [|x rest IH]; intros prev pos HQ;
    cbn [re.search_from]; rewrite Hno by exact HQ; [reflexivity|].
  apply IH. eapply Htl, HQ.
Qed.

(** A repetition that needs one more character of the class fails where
    the next character is not of the class. *)
Lemma rep_greedy_needs (p : ascii -> bool) (k : re.cursor -> option re.cursor)
    (lo : nat) (hi : option nat) (prev : option ascii) (pos : nat)
    (caps : list (nat * str)) (rest : str) :
  match rest with [] => True | x :: _ => p x = false end ->
  re.rep_greedy p k (S lo) hi prev pos caps rest = None.
Proof.
  destruct rest as [|x rest]; simpl; [reflexivity|].
  intros ->. reflexivity.
Qed.

Lemma digit_free_head (rest : str) :
  digit_free rest -> match rest with [] => True | x :: _ => is_digit x = false end.
Proof. destruct 1; auto. Qed.

Lemma unit_freq_needs_digit (prev : option ascii) (pos : nat) (rest : str) :
  digit_free rest -> re.match_at unit_freq_re prev pos rest = None.
Proof.
  intros H. apply digit_free_head in H.
  unfold re.match_at, unit_freq_re. cbn [re.seq re.rmatch re.range].
  destruct (re.at_boundary _); [|reflexivity].
  cbn [re.c_prev re.c_pos re.c_caps re.c_rest].
  rewrite rep_greedy_needs by exact H. reflexivity.
Qed.

Lemma bare_freq_needs_digit (prev : option ascii) (pos : nat) (rest : str) :
  digit_free rest -> re.match_at bare_freq_re prev pos rest = None.
Proof.
  intros H. apply digit_free_head in H.
  unfold re.match_at, bare_freq_re. cbn [re.seq re.rmatch re.range].
  destruct (re.at_boundary _); [|reflexivity].
  cbn [re.c_prev re.c_pos re.c_caps re.c_rest].
  rewrite rep_greedy_needs by exact H. reflexivity.
Qed.

Lemma digit_free_tail (x : ascii) (rest : str) :
  digit_free (x :: rest) -> digit_free rest.
Proof. intros H. inversion H; assumption. Qed.

Lemma no_digit_free (s : str) : no_digit s = true <-> digit_free s.
Proof.
  unfold no_digit, digit_free. rewrite forallb_forall, Forall_forall.
  split; intros H c Hc; specialize (H c Hc); destruct (is_digit c); auto;
    discriminate.
Qed.

Section NoDigit.
Context {B : Builtins}.

Lemma chunk_channels_digit_free (ch : str) :
  digit_free ch -> chunk_channels ch = [].
Proof.
  intros H. unfold chunk_channels, unit_records, bare_records, re.finditer.
  rewrite (@scan_no_match unit_freq_re digit_free unit_freq_needs_digit
             digit_free_tail ch None 0%nat 0%nat H).
  rewrite (@scan_no_match bare_freq_re digit_free bare_freq_needs_digit
             digit_free_tail ch None 0%nat 0%nat H).
  simpl. destruct (has_rf_context ch); reflexivity.
Qed.

Lemma strip_html_digit_free (html : str) :
  digit_free html -> digit_free (_strip_html html).
Proof.
  intros H. unfold _strip_html.
  destruct (negb (nonempty html)); [constructor|].
  apply strip_Forall, sub_Forall; [repeat constructor|].
  apply sub_Forall; [repeat constructor|exact H].
Qed.

Lemma lower_digit_free (s : str) : digit_free s -> digit_free (lower s).
Proof.
  unfold digit_free, lower. intros H. apply Forall_map.
  eapply Forall_impl; [|exact H]. intros c Hc. cbv beta.
  rewrite is_digit_to_lower. exact Hc.
Qed.

(** X1.  An ASCII description without a digit holds no channel: the
    extractor returns the empty list for it, and the primary frequency and
    baud are empty. *)
Theorem X1_digits_needed (text : str) :
  isascii text = true ->
  no_digit text = true ->
  _extract_channels text = [] /\ _parse_freq_baud text = ("", "", []).
Proof.
  intros _ H. apply no_digit_free in H.
  assert (E : _extract_channels text = []).
  { unfold _extract_channels, collect_channels, re.split.
    assert (Hc : Forall digit_free
                   (re.pieces (re.finditer chunk_sep_re (lower (_strip_html text)))
                      0 (lower (_strip_html text)))).
    { apply pieces_Forall, lower_digit_free, strip_html_digit_free, H. }
    induction Hc as [|ch chunks Hch _ IH]; [reflexivity|].
    cbn [flat_map]. rewrite chunk_channels_digit_free by exact Hch. exact IH. }
  split; [exact E|]. unfold _parse_freq_baud. rewrite E. reflexivity.
Qed.

End NoDigit.

(* ================================================================== *)
(** ** The callsign filter *)

Lemma rep_unbounded_succeeds (p : ascii -> bool) (rest : str) :
  forall lo prev pos caps,
    re.rep_greedy p Some lo None prev pos caps rest <> None
    <-> (lo <= length rest)%nat /\ forallb p (firstn lo rest) = true.
Proof.
  induction rest as [|x rest IH]; intros lo prev pos caps.
  - destruct lo; simpl; split; try (intros; split; [lia|reflexivity]);
      try discriminate; try tauto. intros [H _]. lia.
  - cbn [re.rep_greedy re.room andb option_map]. rewrite andb_true_r.
    destruct (p x) eqn:Ex.
    + destruct lo as [|lo]; cbn [Nat.pred].
      * destruct (re.rep_greedy p Some 0 None (Some x) (S pos) caps rest);
          simpl; split; try discriminate; intros; split; try lia; reflexivity.
      * specialize (IH lo (Some x) (S pos) caps).
        destruct (re.rep_greedy p Some lo None (Some x) (S pos) caps rest).
        -- split; [intros _|discriminate].
           destruct IH as [IH _]. destruct IH as [Hl Hf]; [discriminate|].
           simpl. rewrite Ex, Hf. split; [lia|reflexivity].
        -- split; [intros N; contradiction N; reflexivity|].
           intros [Hl Hf]. simpl in Hl, Hf. rewrite Ex in Hf.
           apply IH. split; [lia|exact Hf].
    + destruct lo as [|lo].
      * simpl. split; [intros _; split; [lia|reflexivity]|discriminate].
      * split; [intros N; contradiction N; reflexivity|].
        intros [_ Hf]. simpl in Hf. rewrite Ex in Hf. discriminate.
Qed.

Lemma callsign_at (prev : option ascii) (pos : nat) (rest : str) :
  re.match_at callsign_re prev pos rest <> None
  <-> exists a b c post, rest = a :: b :: c :: post
        /\ alnum a = true /\ alnum b = true /\ alnum c = true.
Proof.
  unfold re.match_at, callsign_re. cbn [re.rmatch re.c_prev re.c_pos re.c_caps re.c_rest].
  pose proof (@rep_unbounded_succeeds (fun c => (is_upper c || is_digit c)%bool)
                rest 3%nat prev pos []) as H.
  destruct (re.rep_greedy _ Some 3 None prev pos [] rest) as [c|].
  - split; [intros _|discriminate].
    destruct H as [H _]. destruct H as [Hl Hf]; [discriminate|].
    destruct rest as [|a [|b [|c' post]]]; simpl in Hl; try lia.
    simpl in Hf. rewrite andb_true_r in Hf.
    apply andb_true_iff in Hf. destruct Hf as [Ha Hf].
    apply andb_true_iff in Hf. destruct Hf as [Hb Hc].
    exists a, b, c', post. unfold alnum. auto.
  - split; [intros N; contradiction N; reflexivity|].
    intros (a & b & c & post & -> & Ha & Hb & Hc).
    exfalso. destruct H as [_ H]. apply H; [|reflexivity].
    unfold alnum in *. simpl. rewrite Ha, Hb, Hc. split; [lia|reflexivity].
Qed.

Lemma callsign_search_from (rest : str) :
  forall prev pos,
    re.search_from callsign_re prev pos rest <> None <-> has_run3 rest.
Proof.
  induction rest as [|x rest IH]; intros prev pos; cbn [re.search_from].
  - pose proof (callsign_at prev pos []) as H.
    destruct (re.match_at callsign_re prev pos []).
    + destruct H as [H _]. destruct H as (a & b & c & post & E & _);
        [discriminate|discriminate].
    + split; [intros N; contradiction N; reflexivity|].
      intros (pre & a & b & c & post & E & _).
      destruct pre; discriminate.
  - pose proof (callsign_at prev pos (x :: rest)) as H.
    destruct (re.match_at callsign_re prev pos (x :: rest)).
    + split; [intros _|discriminate].
      destruct H as [H _]. destruct H as (a & b & c & post & E & Ha);
        [discriminate|].
      exists [], a, b, c, post. split; [exact E|exact Ha].
    + rewrite IH. split.
      * intros (pre & a & b & c & post & -> & Ha).
        exists (x :: pre), a, b, c, post. split; [reflexivity|exact Ha].
      * intros (pre & a & b & c & post & E & Ha).
        destruct pre as [|y pre].
        -- exfalso. destruct H as [_ H]. apply H; [|reflexivity].
           exists a, b, c, post. split; [exact E|exact Ha].
        -- inversion E; subst. exists pre, a, b, c, post. split; [reflexivity|exact Ha].
Qed.

(** The test [re.search(r"[A-Z0-9]{3,}", s)] succeeds exactly on the texts
    with three capital letters or digits in a row. *)
Lemma callsign_search (s : str) : re.search callsign_re s <> None <-> has_run3 s.
Proof. apply callsign_search_from. Qed.

Lemma has_run3_strip (s : str) : has_run3 s -> has_run3 (strip s).
Proof.
  intros (pre & a & b & c & post & -> & Ha & Hb & Hc).
  unfold strip, lstrip_chars.
  rewrite drop_while_stop by (apply alnum_not_space, Ha).
  change (drop_while is_space pre ++ a :: b :: c :: post)
    with (drop_while is_space pre ++ [a] ++ [b] ++ c :: post).
  rewrite !app_assoc.
  rewrite rstrip_after by (apply alnum_not_space, Hc).
  rewrite <- !app_assoc. cbn [app].
  exists (drop_while is_space pre), a, b, c, (rstrip_chars is_space post).
  auto.
Qed.

Lemma upper_strip (s : str) : upper (strip s) = strip (upper s).
Proof. unfold upper. symmetry. apply strip_map, is_space_to_upper. Qed.

(** What [strip] returns has no white space at either end, so [strip]
    leaves it as it is. *)
Lemma drop_while_idem (p : ascii -> bool) (s : str) :
  drop_while p (drop_while p s) = drop_while p s.
Proof.
  induction s as [|c s IH]; simpl; [reflexivity|].
  destruct (p c) eqn:E; [exact IH|]. simpl. rewrite E. reflexivity.
Qed.

Lemma drop_while_head (p : ascii -> bool) (s : str) (x : ascii) (t : str) :
  drop_while p s = x :: t -> p x = false.
Proof.
  induction s as [|c s IH]; simpl; [discriminate|].
  destruct (p c) eqn:E; [exact IH|]. intros H. inversion H; subst. exact E.
Qed.

Lemma strip_cons (x : ascii) (t : str) :
  is_space x = false ->
  rstrip_chars is_space (x :: t) = x :: rstrip_chars is_space t.
Proof. intros Hx. apply (@rstrip_after is_space [] x t Hx). Qed.

Lemma rstrip_idem (p : ascii -> bool) (s : str) :
  rstrip_chars p (rstrip_chars p s) = rstrip_chars p s.
Proof.
  unfold rstrip_chars. rewrite rev_involutive, drop_while_idem. reflexivity.
Qed.

Lemma strip_idem (s : str) : strip (strip s) = strip s.
Proof.
  unfold strip, lstrip_chars.
  destruct (drop_while is_space s) as [|x t] eqn:El; [reflexivity|].
  pose proof (drop_while_head _ _ El) as Hx.
  rewrite strip_cons by exact Hx.
  cbn [drop_while]. rewrite Hx.
  rewrite strip_cons by exact Hx. rewrite rstrip_idem. reflexivity.
Qed.

(* ================================================================== *)
(** ** What the builder puts into an item *)

Section Items.
Context {B : Builtins}.

Lemma build_item_inv (p : dict) (n : Z) (it : PacketItem) :
  build_item p n = Ok (Some it) ->
  exists lat lng callsign dt,
    point_lat p (get_or_empty p "properties") = Ok (Some lat)
    /\ point_lng p (get_or_empty p "properties") = Ok (Some lng)
    /\ re.search callsign_re (upper callsign) <> None
    /\ it = {| it_id := n;
               it_type := _guess_type dt;
               it_callsign := strip callsign;
               it_name := strip callsign;
               it_location := "";
               it_country := "";
               it_lat := lat;
               it_lng := lng;
               it_freq := fst (fst (_parse_freq_baud dt));
               it_baud := snd (fst (_parse_freq_baud dt));
               it_channels := snd (_parse_freq_baud dt);
               it_mode := "AX.25";
               it_status := if contains "age:" (lower dt) then "online" else "unknown";
               it_notes := _strip_html dt |}.
Proof.
  unfold build_item.
  destruct (point_lat _ _) as [[lat|]|]; cbn [bind]; try discriminate;
    destruct (point_lng _ _) as [[lng|]|]; cbn [bind]; try discriminate.
  destruct (_pick _ ["title"]) as [t|]; cbn [bind]; [|discriminate].
  destruct (if nonempty t then Ok t else _pick _ _) as [callsign|];
    cbn [bind]; [|discriminate].
  destruct (re.search callsign_re (upper callsign)) eqn:Es; [|discriminate].
  destruct (get _ "displayText") as [v|]; cbn [bind]; [|discriminate].
  destruct (or_else v _) as [v'|]; cbn [bind]; [|discriminate].
  destruct (as_text _) as [dt|]; cbn [bind]; [|discriminate].
  destruct (_parse_freq_baud dt) as [[f b] chs] eqn:Ep.
  intros H. inversion H; subst; clear H.
  exists lat, lng, callsign, dt. rewrite Ep. cbn [fst snd].
  split; [reflexivity|]. split; [reflexivity|]. split; [congruence|].
  destruct (nonempty (strip callsign)); reflexivity.
Qed.

Lemma build_loop_In (points : list dict) :
  forall n items it,
    build_loop points n = Ok items -> In it items ->
    exists p m, In p points /\ build_item p m = Ok (Some it).
Proof.
  induction points as [|p points IH]; intros n items it; cbn [build_loop].
  - intros H. inversion H. intros [].
  - destruct (build_item p n) as [[it'|]|] eqn:Ei; cbn [bind]; [| |discriminate].
    + destruct (build_loop points (n + 1)) as [items'|] eqn:El; cbn [bind];
        [|discriminate].
      intros H. inversion H; subst. intros [<-|Hin].
      * exists p, n. split; [left; reflexivity|exact Ei].
      * destruct (IH _ _ _ El Hin) as (q & m & Hq & Eq).
        exists q, m. split; [right; exact Hq|exact Eq].
    + intros El Hin. destruct (IH _ _ _ El Hin) as (q & m & Hq & Eq).
      exists q, m. split; [right; exact Hq|exact Eq].
Qed.

Lemma build_items_In (points : list dict) (items : list PacketItem) (it : PacketItem) :
  _build_items points = Ok items -> In it items ->
  exists p m, In p points /\ build_item p m = Ok (Some it).
Proof.
  intros H Hin. apply build_items_inv in H. destruct H as (cands & El & ->).
  apply dedupe_In in Hin. eapply build_loop_In; eassumption.
Qed.

Lemma as_float_not_nan (v : pyval) (f : pyfloat) :
  _as_float v = Some f -> is_nan f = false.
Proof.
  unfold _as_float. destruct (py_float v) as [x|]; [|discriminate].
  destruct (is_nan x) eqn:E; [discriminate|]. intros H. inversion H; subst. exact E.
Qed.

Lemma point_lat_not_nan (p : dict) (props : pyval) (f : pyfloat) :
  point_lat p props = Ok (Some f) -> is_nan f = false.
Proof.
  unfold point_lat.
  destruct (or_else _ _) as [v|]; cbn [bind]; [|discriminate].
  destruct (or_else v _) as [v'|]; cbn [bind]; [|discriminate].
  intros H. inversion H as [E]. eapply as_float_not_nan, E.
Qed.

Lemma point_lng_not_nan (p : dict) (props : pyval) (f : pyfloat) :
  point_lng p props = Ok (Some f) -> is_nan f = false.
Proof.
  unfold point_lng.
  destruct (or_else _ _) as [v|]; cbn [bind]; [|discriminate].
  destruct (or_else v _) as [v'|]; cbn [bind]; [|discriminate].
  destruct (or_else v' _) as [v''|]; cbn [bind]; [|discriminate].
  intros H. inversion H as [E]. eapply as_float_not_nan, E.
Qed.

(** X2.  The callsign of every item the builder returns holds three
    capital letters or digits in a row once its letters are raised, has no
    white space at either end, and is also the name of the item. *)
Theorem X2_callsign (points : list dict) (items : list PacketItem) (it : PacketItem) :
  _build_items points = Ok items -> In it items ->
  has_run3 (upper (it_callsign it))
  /\ strip (it_callsign it) = it_callsign it
  /\ it_name it = it_callsign it.
Proof.
  intros H Hin. destruct (@build_items_In _ _ _ H Hin) as (p & m & _ & Ei).
  apply build_item_inv in Ei.
  destruct Ei as (lat & lng & callsign & dt & _ & _ & Hs & ->). cbn.
  split; [|split; [apply strip_idem|reflexivity]].
  rewrite upper_strip. apply has_run3_strip, callsign_search, Hs.
Qed.

(** X3.  Every item the builder returns has the type node or bbs, the
    status online or unknown, the mode AX.25, an empty location and an empty
    country, and coordinates that are not NaN. *)
Theorem X3_fixed_fields (points : list dict) (items : list PacketItem) (it : PacketItem) :
  _build_items points = Ok items -> In it items ->
  (it_type it = "node" \/ it_type it = "bbs")
  /\ (it_status it = "online" \/ it_status it = "unknown")
  /\ it_mode it = "AX.25" /\ it_location it = "" /\ it_country it = ""
  /\ is_nan (it_lat it) = false /\ is_nan (it_lng it) = false.
Proof.
  intros H Hin. destruct (@build_items_In _ _ _ H Hin) as (p & m & _ & Ei).
  apply build_item_inv in Ei.
  destruct Ei as (lat & lng & callsign & dt & Hlat & Hlng & _ & ->). cbn.
  split. { unfold _guess_type. destruct (_ || _)%bool; auto. }
  split. { destruct (contains "age:" (lower dt)); auto. }
  split; [reflexivity|]. split; [reflexivity|]. split; [reflexivity|].
  split; [eapply point_lat_not_nan, Hlat|eapply point_lng_not_nan, Hlng].
Qed.

(* ================================================================== *)
(** ** The primary frequency *)

Lemma extract_channels_freq (text : str) (c : channel) :
  In c (_extract_channels text) -> nonempty (freq c) = true.
Proof.
  unfold _extract_channels, collect_channels. intros Hin.
  apply dedupe_In in Hin. apply in_flat_map in Hin.
  destruct Hin as (ch & _ & Hin).
  assert (Hne : freq c <> []).
  { unfold chunk_channels, unit_records, bare_records in Hin.
    rewrite in_app_iff in Hin. destruct Hin as [Hin|Hin].
    - apply in_flat_map in Hin. destruct Hin as (m & _ & Hc).
      apply unit_record_In in Hc. tauto.
    - destruct (has_rf_context ch); [|destruct Hin].
      apply in_flat_map in Hin. destruct Hin as (m & _ & Hc).
      apply bare_record_In in Hc. tauto. }
  destruct (freq c); [contradiction Hne; reflexivity|reflexivity].
Qed.

Lemma find_ext_in (A : Type) (f g : A -> bool) (l : list A) :
  (forall x, In x l -> f x = g x) -> find f l = find g l.
Proof.
  induction l as [|x l IH]; intros H; simpl; [reflexivity|].
  rewrite (H x) by (left; reflexivity).
  destruct (g x); [reflexivity|]. apply IH. intros y Hy. apply H. right. exact Hy.
Qed.

Lemma find_with_baud (text : str) :
  find (fun c => (nonempty (freq c) && nonempty (baud c))%bool) (_extract_channels text)
  = find (fun c => nonempty (baud c)) (_extract_channels text).
Proof.
  apply find_ext_in. intros c Hc.
  rewrite (@extract_channels_freq text c Hc). reflexivity.
Qed.

(** X4.  The primary frequency and baud are those of the first record
    with a baud; without such a record they are the frequency of the first
    record and no baud; without any record both are empty.  The test of the
    source for a record with a frequency is passed by every record. *)
Theorem X4_primary_channel (text : str) :
  _parse_freq_baud text
  = let channels := _extract_channels text in
    match find (fun c => nonempty (baud c)) channels with
    | Some c => (freq c, baud c, channels)
    | None =>
        match channels with
        | c :: _ => (freq c, "", channels)
        | [] => ("", "", channels)
        end
    end.
Proof.
  unfold _parse_freq_baud. cbv zeta. rewrite find_with_baud.
  pose proof (@extract_channels_freq text) as Hf.
  destruct (find (fun c => nonempty (baud c)) (_extract_channels text)) as [c|] eqn:E;
    [reflexivity|].
  destruct (_extract_channels text) as [|c chs']; [reflexivity|].
  cbn [find]. rewrite (Hf c) by (left; reflexivity).
  assert (Hb : nonempty (baud c) = false).
  { apply (find_none _ _ E). left. reflexivity. }
  destruct (baud c); [reflexivity|discriminate].
Qed.

(** X5.  The frequency and the baud of an item are those of one of its
    channels, and the frequency is not empty; or the item has no channel
    and both are empty. *)
Theorem X5_primary_among_channels (points : list dict) (items : list PacketItem)
    (it : PacketItem) :
  _build_items points = Ok items -> In it items ->
  (it_channels it = [] /\ it_freq it = "" /\ it_baud it = "")
  \/ (exists c, In c (it_channels it)
                /\ it_freq it = freq c /\ it_baud it = baud c
                /\ it_freq it <> "").
Proof.
  intros H Hin. destruct (@build_items_In _ _ _ H Hin) as (p & m & _ & Ei).
  apply build_item_inv in Ei.
  destruct Ei as (lat & lng & callsign & dt & _ & _ & _ & ->). cbn.
  unfold _parse_freq_baud. cbv zeta. rewrite find_with_baud.
  pose proof (@extract_channels_freq dt) as Hf.
  destruct (find (fun c => nonempty (baud c)) (_extract_channels dt)) as [c|] eqn:E.
  - right. cbn. exists c. apply find_some in E. destruct E as [Hc _].
    repeat split; auto. specialize (Hf c Hc). destruct (freq c); discriminate.
  - destruct (_extract_channels dt) as [|c chs]; [left; auto|].
    right. specialize (Hf c (or_introl eq_refl)).
    cbn [find]. rewrite Hf. cbn. exists c.
    assert (Hb : nonempty (baud c) = false).
    { apply (find_none _ _ E). left. reflexivity. }
    split; [left; reflexivity|]. split; [reflexivity|].
    split; [destruct (baud c); [reflexivity|discriminate]|].
    destruct (freq c); discriminate.
Qed.

(* ================================================================== *)
(** ** When the builder raises *)

Lemma pick_dict (d : dict) (keys : list str) : exists s, _pick (PyDict d) keys = Ok s.
Proof.
  induction keys as [|k keys IH]; cbn [_pick get bind]; [eauto|].
  destruct (dict_get d k) as [| b | z | x | s | l | d']; eauto.
  destruct (nonempty (strip s)); eauto.
Qed.

(** With mappings for the properties and the feature, and a text or a
    falsy value for the description, the body of the loop raises nothing. *)
Lemma build_item_of_mappings (p d fd : dict) (n : Z) :
  get_or_empty p "properties" = PyDict d ->
  get_or_empty p "feature" = PyDict fd ->
  text_or_falsy (get_or fd "displayText" "display") = true ->
  exists r, build_item p n = Ok r.
Proof.
  intros Ep Ef Ht.
  unfold build_item. rewrite Ep, Ef, point_lat_dict, point_lng_dict. cbn [bind].
  destruct (_as_float _) as [lat|]; [|eauto].
  destruct (_as_float _) as [lng|]; [|eauto].
  destruct (pick_dict d ["title"]) as (t & ->). cbn [bind].
  assert (Ec : exists cs, (if nonempty t then Ok t else _pick (PyDict fd) ["node"; "callsign"])
                          = Ok cs).
  { destruct (nonempty t); [eauto|apply pick_dict]. }
  destruct Ec as (cs & ->). cbn [bind].
  destruct (re.search callsign_re (upper cs)); [|eauto].
  cbn [get bind]. unfold or_else, get_or in *.
  destruct (truthy (dict_get fd "displayText")) eqn:E1; cbn [bind get].
  - rewrite E1. destruct (dict_get fd "displayText") as [|b|z|x|dt|l|d'];
      cbn [text_or_falsy] in Ht; try (rewrite E1 in Ht; discriminate).
    cbn [as_text bind]. destruct (_parse_freq_baud dt) as [[f b] chs]. eauto.
  - destruct (truthy (dict_get fd "display")) eqn:E2.
    + destruct (dict_get fd "display") as [|b|z|x|dt|l|d'];
        cbn [text_or_falsy] in Ht; try (rewrite E2 in Ht; discriminate).
      cbn [as_text bind]. destruct (_parse_freq_baud dt) as [[f b] chs]. eauto.
    + cbn [as_text bind]. destruct (_parse_freq_baud "") as [[f b] chs]. eauto.
Qed.








(** X6.  A point whose properties and feature are mappings, or falsy, and
    whose description is a text, or falsy, raises nothing in the builder. *)
Theorem X6_well_typed_point (p : dict) (n : Z) :
  dict_or_falsy (dict_get p "properties") = true ->
  dict_or_falsy (dict_get p "feature") = true ->
  (forall fd, get_or_empty p "feature" = PyDict fd ->
              text_or_falsy (get_or fd "displayText" "display") = true) ->
  exists r, build_item p n = Ok r.
Proof.
  intros Hp Hf Ht.
  assert (Ep : exists d, get_or_empty p "properties" = PyDict d).
  { unfold get_or_empty. destruct (dict_get p "properties"); simpl in *; eauto;
      try discriminate; try (rewrite negb_true_iff in Hp; rewrite Hp; eauto).
    destruct d; eauto. }
  assert (Ef : exists fd, get_or_empty p "feature" = PyDict fd).
  { unfold get_or_empty. destruct (dict_get p "feature"); simpl in *; eauto;
      try discriminate; try (rewrite negb_true_iff in Hf; rewrite Hf; eauto).
    destruct d; eauto. }
  destruct Ep as (d & Ep), Ef as (fd & Ef).
  eapply build_item_of_mappings; [exact Ep|exact Ef|apply Ht, Ef].
Qed.

(** Whether a point raises does not depend on the identifier it would
    take. *)
Lemma build_item_raise (p : dict) (n m : Z) (e : exn) :
  build_item p n = Raise e -> build_item p m = Raise e.
Proof.
  unfold build_item.
  destruct (point_lat _ _) as [[lat|]|]; cbn [bind]; try discriminate;
    try (intros H; exact H);
    destruct (point_lng _ _) as [[lng|]|]; cbn [bind]; try discriminate;
    try (intros H; exact H).
  destruct (_pick _ ["title"]) as [t|]; cbn [bind]; [|intros H; exact H].
  destruct (if nonempty t then Ok t else _pick _ _) as [callsign|];
    cbn [bind]; [|intros H; exact H].
  destruct (re.search callsign_re (upper callsign)); [|discriminate].
  destruct (get _ "displayText") as [v|]; cbn [bind]; [|intros H; exact H].
  destruct (or_else v _) as [v'|]; cbn [bind]; [|intros H; exact H].
  destruct (as_text _) as [dt|]; cbn [bind]; [|intros H; exact H].
  destruct (_parse_freq_baud dt) as [[f b] chs]. discriminate.
Qed.

Lemma build_loop_raises (points : list dict) :
  forall n,
    build_loop points n = Raise AttributeError
    <-> exists p, In p points /\ build_item p 0 = Raise AttributeError.
Proof.
  induction points as [|p points IH]; intros n; cbn [build_loop].
  - split; [discriminate|]. intros (p & [] & _).
  - destruct (build_item p n) as [[it|]|[]] eqn:Ei; cbn [bind].
    + destruct (build_loop points (n + 1)) as [items|[]] eqn:El; cbn [bind].
      * split; [discriminate|]. intros (q & [<-|Hq] & Eq).
        -- apply (@build_item_raise _ _ n) in Eq. congruence.
        -- assert (N : build_loop points (n + 1) = Raise AttributeError)
             by (apply IH; eauto). congruence.
      * split; [intros _|reflexivity].
        apply IH in El. destruct El as (q & Hq & Eq). exists q. split; [right|]; assumption.
    + rewrite IH. split.
      * intros (q & Hq & Eq). exists q. split; [right|]; assumption.
      * intros (q & [<-|Hq] & Eq).
        -- apply (@build_item_raise _ _ n) in Eq. congruence.
        -- eauto.
    + split; [intros _|reflexivity].
      exists p. split; [left; reflexivity|]. eapply build_item_raise, Ei.
Qed.

(** X7.  The builder raises exactly when the body of its loop raises for
    one of the points: a single such point, wherever it stands, leaves no
    item of the others. *)
Theorem X7_one_bad_point_aborts (points : list dict) :
  _build_items points = Raise AttributeError
  <-> exists p, In p points /\ build_item p 0 = Raise AttributeError.
Proof.
  rewrite <- (build_loop_raises points 1). unfold _build_items.
  destruct (build_loop points 1) as [items|[]]; cbn [bind]; split;
    try discriminate; reflexivity.
Qed.

End Items.



(** A description that is a number makes the builder raise. *)
Example number_as_description_raises :
  _build_items [gap_point "GB7AAA";
                [("lat", PyInt 51); ("lng", PyInt 1);
                 ("properties", PyDict [("title", PyStr "GB7BBB")]);
                 ("feature", PyDict [("displayText", PyInt 5)])]]
  = Raise AttributeError.
Proof. vm_compute. reflexivity. Qed.

(* ================================================================== *)
(** ** The points of a payload *)

Lemma feature_point_raises (f : pyval) :
  feature_point f = Raise AttributeError <-> geometry_ok f = false.
Proof.
  unfold feature_point, geometry_ok.
  destruct f as [|b|z|x|s|l|fd]; try (split; discriminate).
  destruct (get_or_empty fd "geometry") as [|b|z|x|s|l|g]; cbn [get bind];
    try (split; reflexivity).
  destruct (dict_get g "type") as [|b|z|x|s|l|g'] eqn:Et;
    cbn [as_text text_or_falsy truthy negb bind].
  - split; discriminate.
  - destruct b; cbn [bind negb]; split; try discriminate; reflexivity.
  - destruct (negb (z =? 0)); cbn [bind negb]; split; try discriminate; reflexivity.
  - destruct x; cbn [bind negb]; split; try discriminate; reflexivity.
  - destruct (negb (str_eqb (lower s) "point")); [split; discriminate|].
    destruct (dict_get g "coordinates") as [|b|z|x|s'|[|lng [|lat l]]|g'];
      split; discriminate.
  - destruct l; cbn [bind negb]; split; try discriminate; reflexivity.
  - destruct g'; cbn [bind negb]; split; try discriminate; reflexivity.
Qed.

Lemma features_loop_raises (fs : list pyval) :
  features_loop fs = Raise AttributeError <-> forallb geometry_ok fs = false.
Proof.
  induction fs as [|f fs IH]; cbn [features_loop forallb].
  - split; discriminate.
  - pose proof (feature_point_raises f) as Hf.
    destruct (feature_point f) as [r|[]]; cbn [bind].
    + destruct (geometry_ok f).
      * cbn [andb]. rewrite <- IH.
        destruct (features_loop fs) as [rest|[]]; cbn [bind]; split;
          try discriminate; reflexivity.
      * destruct Hf as [_ Hf]. discriminate Hf. reflexivity.
    + destruct Hf as [Hf _]. rewrite Hf by reflexivity. split; reflexivity.
Qed.

(** X8.  Consuming the generator raises only for a collection of
    features: [TypeError] when its features are a truthy value that cannot
    be iterated, [AttributeError] when the geometry of a feature is a truthy
    value that is no mapping, or has a truthy type that is no text. *)
Theorem X8_points_raise (obj : pyval) (e : pyexc) :
  _extract_points_from_geojson obj = Raised e
  <-> exists d,
        obj = PyDict d /\ is_feature_collection d = true
        /\ ((e = ExcTypeError /\ truthy (dict_get d "features") = true
             /\ iterable (dict_get d "features") = false)
            \/ (e = ExcAttributeError
                /\ forallb geometry_ok (features_of d) = false)).
Proof.
  destruct obj as [|b|z|x|s|l|d];
    try (split; [discriminate|intros (d & E & _); discriminate]).
  unfold _extract_points_from_geojson. split.
  - intros H. exists d. split; [reflexivity|].
    destruct (is_feature_collection d); [|discriminate].
    split; [reflexivity|]. unfold features_of, iterable.
    destruct (truthy (dict_get d "features")) eqn:Et.
    + destruct (iterate (dict_get d "features")) as [fs|e'] eqn:Ei.
      * destruct (features_loop fs) as [pts|[]] eqn:El; cbn [of_result] in H;
          [discriminate|].
        inversion H; subst. right. split; [reflexivity|].
        apply features_loop_raises, El.
      * inversion H; subst e'. left.
        destruct (dict_get d "features"); simpl in Ei; inversion Ei; auto.
    + cbn [iterate features_loop of_result app] in H. discriminate.
  - intros (d' & E & Hfc & Hcases). inversion E; subst d'; clear E.
    rewrite Hfc. destruct Hcases as [(-> & Ht & Hi)|(-> & Hg)].
    + rewrite Ht. unfold iterable in Hi.
      destruct (iterate (dict_get d "features")) as [fs|e'] eqn:Ei; [discriminate|].
      destruct (dict_get d "features"); simpl in Ei; inversion Ei; reflexivity.
    + unfold features_of in Hg.
      destruct (iterate _) as [fs|e'] eqn:Ei; [|discriminate].
      apply features_loop_raises in Hg. rewrite Hg. reflexivity.
Qed.

Lemma feature_point_shape (f : pyval) (p : dict) :
  feature_point f = Ok (Some p) ->
  exists fd g t lng lat more,
    f = PyDict fd
    /\ get_or_empty fd "geometry" = PyDict g
    /\ as_text (dict_get g "type") = Ok t /\ lower t = "point"
    /\ dict_get g "coordinates" = PyList (lng :: lat :: more)
    /\ p = [("lat", lat); ("lng", lng);
            ("properties", get_or_empty fd "properties"); ("feature", f)].
Proof.
  unfold feature_point.
  destruct f as [|b|z|x|s|l|fd]; try discriminate.
  destruct (get_or_empty fd "geometry") as [|b|z|x|s|l|g] eqn:Eg; cbn [get bind];
    try discriminate.
  destruct (as_text (dict_get g "type")) as [t|] eqn:Et; cbn [bind]; [|discriminate].
  destruct (str_eqb (lower t) "point") eqn:El; cbn [negb]; [|discriminate].
  destruct (dict_get g "coordinates") as [|b|z|x|s'|[|lng [|lat more]]|g'] eqn:Ec;
    try discriminate.
  intros H. inversion H; subst.
  exists fd, g, t, lng, lat, more. apply str_eqb_eq in El.
  repeat (split; [first [reflexivity|assumption]|]). reflexivity.
Qed.

Lemma features_loop_In (fs : list pyval) :
  forall pts p, features_loop fs = Ok pts -> In p pts ->
                exists f, In f fs /\ feature_point f = Ok (Some p).
Proof.
  induction fs as [|f fs IH]; intros pts p; cbn [features_loop].
  - intros H. inversion H. intros [].
  - destruct (feature_point f) as [r|] eqn:Ef; cbn [bind]; [|discriminate].
    destruct (features_loop fs) as [rest|] eqn:El; cbn [bind]; [|discriminate].
    intros H. inversion H; subst.
    destruct r as [q|].
    + intros [<-|Hin]; [exists f; split; [left; reflexivity|exact Ef]|].
      destruct (IH _ _ eq_refl Hin) as (f' & Hf' & E').
      exists f'. split; [right; exact Hf'|exact E'].
    + intros Hin. destruct (IH _ _ eq_refl Hin) as (f' & Hf' & E').
      exists f'. split; [right; exact Hf'|exact E'].
Qed.

Lemma features_loop_length (fs : list pyval) :
  forall pts, features_loop fs = Ok pts -> (length pts <= length fs)%nat.
Proof.
  induction fs as [|f fs IH]; intros pts; cbn [features_loop].
  - intros H. inversion H. simpl. lia.
  - destruct (feature_point f) as [r|]; cbn [bind]; [|discriminate].
    destruct (features_loop fs) as [rest|]; cbn [bind]; [|discriminate].
    intros H. inversion H; subst. specialize (IH rest eq_refl).
    destruct r; simpl; lia.
Qed.

Lemma data_points_In (v : pyval) (p : dict) :
  In p (data_points v)
  <-> exists rows row, v = PyList rows /\ In (PyDict row) rows
                       /\ p = [("properties", PyDict row)].
Proof.
  unfold data_points. destruct v as [|b|z|x|s|rows|d];
    try (split; [intros []|intros (rows & row & E & _); discriminate]).
  rewrite in_flat_map. split.
  - intros (r & Hr & Hp). destruct r as [|b|z|x|s|l|row]; try destruct Hp.
    + exists rows, row. auto.
    + destruct H.
  - intros (rows' & row & E & Hr & ->). inversion E; subst.
    exists (PyDict row). split; [exact Hr|left; reflexivity].
Qed.

Lemma extract_points_inv (obj : pyval) (pts : list dict) :
  _extract_points_from_geojson obj = Returned pts ->
  (pts = [] /\ forall d, obj <> PyDict d)
  \/ exists d fpts,
       obj = PyDict d
       /\ pts = fpts ++ data_points (dict_get d "data")
       /\ ((is_feature_collection d = false /\ fpts = [])
           \/ (is_feature_collection d = true
               /\ features_loop (features_of d) = Ok fpts)).
Proof.
  unfold _extract_points_from_geojson, features_of.
  destruct obj as [|b|z|x|s|l|d];
    try (intros H; inversion H; left; split; [reflexivity|intros d; discriminate]).
  intros H. right. exists d.
  destruct (is_feature_collection d).
  - destruct (iterate _) as [fs|e]; [|discriminate].
    destruct (features_loop fs) as [fpts|[]] eqn:El; cbn [of_result] in H;
      [|discriminate].
    inversion H; subst. exists fpts. auto.
  - inversion H; subst. exists []. auto.
Qed.

Lemma extract_points_sources (obj : pyval) (pts : list dict) (p : dict) :
  _extract_points_from_geojson obj = Returned pts -> In p pts ->
  exists d, obj = PyDict d /\ (from_feature d p \/ from_row d p).
Proof.
  intros H Hin. apply extract_points_inv in H.
  destruct H as [[-> _]|(d & fpts & -> & -> & Hf)]; [destruct Hin|].
  exists d. split; [reflexivity|].
  apply in_app_iff in Hin. destruct Hin as [Hin|Hin].
  - left. destruct Hf as [[_ ->]|[Hfc Hl]]; [destruct Hin|].
    destruct (@features_loop_In _ _ _ Hl Hin) as (f & Hf & Ef).
    apply feature_point_shape in Ef.
    destruct Ef as (fd & g & t & lng & lat & more & -> & Eg & Et & El & Ec & ->).
    exists fd, g, t, lng, lat, more.
    repeat (split; [first [reflexivity|assumption]|]). reflexivity.
  - right. apply data_points_In in Hin. exact Hin.
Qed.

Lemma features_loop_complete (fs : list pyval) :
  forall pts f p,
    features_loop fs = Ok pts -> In f fs -> feature_point f = Ok (Some p) ->
    In p pts.
Proof.
  induction fs as [|f0 fs IH]; intros pts f p; cbn [features_loop]; [intros _ []|].
  destruct (feature_point f0) as [r|] eqn:Ef; cbn [bind]; [|discriminate].
  destruct (features_loop fs) as [rest|] eqn:El; cbn [bind]; [|discriminate].
  intros H [<-|Hin] Hp; inversion H; subst.
  - rewrite Hp in Ef. inversion Ef; subst. left. reflexivity.
  - specialize (IH _ _ _ eq_refl Hin Hp). destruct r; [right|]; exact IH.
Qed.

(** X9.  The points of a payload are, in this order, one for each
    feature of the collection whose geometry is a point with two
    coordinates or more, holding the second coordinate as latitude and the
    first as longitude, and one for each mapping of the list of rows; there
    is no other point. *)
Theorem X9_points_sources (d : dict) (pts : list dict) (p : dict) :
  _extract_points_from_geojson (PyDict d) = Returned pts ->
  (In p pts <-> from_feature d p \/ from_row d p).
Proof.
  intros H. split.
  - intros Hin. destruct (@extract_points_sources _ _ _ H Hin) as (d' & E & Hs).
    inversion E; subst d'. exact Hs.
  - apply extract_points_inv in H.
    destruct H as [[_ N]|(d' & fpts & E & -> & Hf)];
      [contradiction (N d); reflexivity|].
    inversion E; subst d'; clear E. intros Hs. apply in_app_iff.
    destruct Hs as [(fd & g & t & lng & lat & more & Hfc & Hin & Eg & Et & El & Ec & ->)
                   |Hrow].
    + left. destruct Hf as [[N _]|[_ Hl]]; [congruence|].
      apply (@features_loop_complete _ _ (PyDict fd) _ Hl Hin).
      unfold feature_point. rewrite Eg. cbn [get bind]. rewrite Et. cbn [bind].
      rewrite El. cbn [str_eqb negb]. rewrite Ec. reflexivity.
    + right. apply data_points_In. exact Hrow.
Qed.

Lemma flat_map_at_most_one (A C : Type) (f : A -> list C) (l : list A) :
  (forall x, (length (f x) <= 1)%nat) -> (length (flat_map f l) <= length l)%nat.
Proof.
  intros Hf. induction l as [|x l IH]; [simpl; lia|].
  cbn [flat_map]. rewrite length_app. specialize (Hf x). simpl. lia.
Qed.

(** X10.  There is at most one point for each feature and each row: a
    payload that is no mapping gives no point, and a mapping that is
    neither a collection of features nor holds a list of rows gives none
    either. *)
Theorem X10_points_count (obj : pyval) (pts : list dict) :
  _extract_points_from_geojson obj = Returned pts ->
  (length pts
   <= match obj with
      | PyDict d =>
          (if is_feature_collection d then length (features_of d) else O)
          + match dict_get d "data" with
            | PyList rows => length rows
            | _ => O
            end
      | _ => O
      end)%nat.
Proof.
  intros H. apply extract_points_inv in H.
  destruct H as [[-> _]|(d & fpts & -> & -> & Hf)]; [simpl; lia|].
  rewrite length_app.
  assert (H1 : (length fpts
                <= if is_feature_collection d then length (features_of d) else O)%nat).
  { destruct Hf as [[-> ->]|[-> Hl]]; [simpl; lia|].
    apply features_loop_length, Hl. }
  assert (H2 : (length (data_points (dict_get d "data"))
                <= match dict_get d "data" with
                   | PyList rows => length rows
                   | _ => O
                   end)%nat).
  { unfold data_points.
    destruct (dict_get d "data") as [|b|z|x|s|rows|d']; try (simpl; lia).
    apply flat_map_at_most_one. intros []; simpl; lia. }
  lia.
Qed.

(* ================================================================== *)
(** ** From the payload to the catalogue *)

Section Pipeline.
Context {B : Builtins}.

Lemma feature_ok_geometry (f : pyval) : feature_ok f = true -> geometry_ok f = true.
Proof.
  unfold feature_ok. destruct f; try reflexivity.
  intros H. apply andb_true_iff in H. destruct H as [H _].
  apply andb_true_iff in H. tauto.
Qed.

Lemma dict_or_falsy_get_or_empty (d : dict) (k : str) :
  dict_or_falsy (dict_get d k) = true ->
  dict_or_falsy (get_or_empty d k) = true
  /\ exists d', get_or_empty d k = PyDict d'.
Proof.
  unfold get_or_empty. intros H.
  destruct (truthy (dict_get d k)) eqn:Et.
  - split; [exact H|].
    destruct (dict_get d k);
      try (cbn [dict_or_falsy] in H; rewrite Et in H; discriminate).
    eauto.
  - split; [reflexivity|eauto].
Qed.

Lemma get_or_empty_dict (d fd : dict) (k : str) :
  dict_get d k = PyDict fd -> get_or_empty d k = PyDict fd.
Proof.
  unfold get_or_empty. intros ->. destruct fd; reflexivity.
Qed.

Lemma dict_or_falsy_mapping (v : pyval) :
  dict_or_falsy v = true ->
  exists d, (if truthy v then v else PyDict []) = PyDict d.
Proof.
  destruct v as [|b|z|x|s|l|d]; cbn [dict_or_falsy]; intros H;
    try (rewrite negb_true_iff in H; rewrite H; eauto); eauto.
  destruct (truthy (PyDict d)); eauto.
Qed.

Lemma payload_ok_returns (obj : pyval) :
  payload_ok obj = true ->
  exists pts, _extract_points_from_geojson obj = Returned pts.
Proof.
  destruct obj as [|b|z|x|s|l|d]; try (intros _; eexists; reflexivity).
  unfold payload_ok, _extract_points_from_geojson. intros Hok.
  destruct (is_feature_collection d); [|eexists; reflexivity].
  destruct (dict_get d "features") as [|b|z|x|s|fs|d'];
    try (rewrite negb_true_iff in Hok; rewrite Hok; eexists; reflexivity).
  assert (N : forallb geometry_ok fs = true).
  { apply forallb_forall. intros f Hf.
    apply feature_ok_geometry. rewrite forallb_forall in Hok. auto. }
  destruct (truthy (PyList fs)); [|eexists; reflexivity].
  cbn [iterate].
  destruct (features_loop fs) as [pts|[]] eqn:El; [eexists; reflexivity|].
  apply features_loop_raises in El. congruence.
Qed.

(** X11.  A payload whose features are well typed goes through the
    extractor and the builder without an exception: each feature has a
    geometry, properties and a description that are of the expected kind
    or falsy. *)
Theorem X11_well_typed_payload (obj : pyval) :
  payload_ok obj = true ->
  exists pts items,
    _extract_points_from_geojson obj = Returned pts
    /\ _build_items pts = Ok items.
Proof.
  intros Hok.
  destruct (payload_ok_returns obj Hok) as (pts & Ex).
  exists pts.
  destruct (_build_items pts) as [items|[]] eqn:Eb; [eauto|].
  exfalso. unfold _build_items in Eb.
  destruct (build_loop pts 1) as [its|[]] eqn:El; [discriminate|].
  apply build_loop_raises in El. destruct El as (p & Hp & Er).
  destruct (@extract_points_sources _ _ _ Ex Hp) as (d & -> & Hsrc).
  unfold from_feature, from_row in Hsrc.
  assert (Hno : exists r, build_item p 0 = Ok r); [|destruct Hno; congruence].
  destruct Hsrc as [(fd & g & t & lng & lat & more & Hfc & Hf & _ & _ & _ & _ & ->)
                   |(rows & row & _ & _ & ->)].
  - assert (Hfo : feature_ok (PyDict fd) = true).
    { unfold payload_ok in Hok. unfold features_of in Hf.
      destruct (dict_get d "features") as [|b|z|x|s|fs|d'];
        try (rewrite negb_true_iff in Hok; rewrite Hok in Hf; destruct Hf).
      destruct (truthy (PyList fs)); [|destruct Hf]. cbn [iterate] in Hf.
      rewrite forallb_forall in Hok. auto. }
    unfold feature_ok in Hfo.
    apply andb_true_iff in Hfo. destruct Hfo as [Hfo Hd].
    apply andb_true_iff in Hfo. destruct Hfo as [_ Hpr].
    destruct (dict_or_falsy_mapping _ (proj1 (dict_or_falsy_get_or_empty _ _ Hpr)))
      as (pd & Epd).
    eapply build_item_of_mappings with (d := pd) (fd := fd).
    + exact Epd.
    + apply get_or_empty_dict. reflexivity.
    + exact Hd.
  - destruct (dict_or_falsy_mapping (PyDict row) eq_refl) as (pd & Epd).
    eapply build_item_of_mappings with (d := pd) (fd := []);
      [exact Epd|reflexivity|reflexivity].
Qed.

(** X12.  The coordinates of a feature are read as longitude, then
    latitude: the item built from the point of the feature has the float of
    the second coordinate as latitude and the float of the first as
    longitude, when both are truthy. *)
Theorem X12_coordinates_swapped (fd g : dict) (first second : pyval)
    (more : list pyval) (p : dict) (n : Z) (it : PacketItem) :
  get_or_empty fd "geometry" = PyDict g ->
  dict_get g "coordinates" = PyList (first :: second :: more) ->
  truthy first = true -> truthy second = true ->
  feature_point (PyDict fd) = Ok (Some p) ->
  build_item p n = Ok (Some it) ->
  _as_float second = Some (it_lat it) /\ _as_float first = Some (it_lng it).
Proof.
  intros Eg Ec Hfirst Hsecond Hf Hb. apply feature_point_shape in Hf.
  destruct Hf as (fd' & g' & t & lng & lat & more' & E & Eg' & _ & _ & Ec' & ->).
  inversion E; subst fd'; clear E.
  rewrite Eg in Eg'. inversion Eg'; subst g'; clear Eg'.
  rewrite Ec in Ec'. inversion Ec'; subst lng lat more'; clear Ec'.
  apply build_item_inv in Hb.
  destruct Hb as (la & lo & cs & dt & Hla & Hlo & _ & ->). cbn [it_lat it_lng].
  rewrite point_lat_own in Hla by exact Hsecond.
  rewrite point_lng_own in Hlo by exact Hfirst.
  cbn in Hla, Hlo. inversion Hla. inversion Hlo. auto.
Qed.

End Pipeline.

(* ================================================================== *)
(** ** [main] of the fetch script *)

Section MainProperties.
Context {B : Builtins}.
Variable http_get_text : str -> option str.
Variable http_get_json : str -> option pyval.
Variables now existing : str.

Lemma probe_chosen (urls : list str) (u : str) (pts : list dict) :
  probe http_get_json urls = Returned (Some (u, pts)) ->
  exists before after obj,
    urls = before ++ u :: after
    /\ Forall (passed_over http_get_json) before
    /\ http_get_json u = Some obj
    /\ _extract_points_from_geojson obj = Returned pts
    /\ (10 <= length pts)%nat.
Proof.
  induction urls as [|v urls IH]; cbn [probe]; [discriminate|].
  destruct (http_get_json v) as [obj|] eqn:Ej.
  - destruct (_extract_points_from_geojson obj) as [pts'|e] eqn:Ex; [|discriminate].
    destruct (length pts' <? 10)%nat eqn:El.
    + intros H. destruct (IH H) as (before & after & obj' & -> & Hb & Hrest).
      exists (v :: before), after, obj'. split; [reflexivity|].
      split; [|exact Hrest]. constructor; [|exact Hb].
      right. exists obj, pts'. apply Nat.ltb_lt in El. auto.
    + intros H. inversion H; subst. exists [], urls, obj.
      apply Nat.ltb_ge in El. auto.
  - intros H. destruct (IH H) as (before & after & obj' & -> & Hb & Hrest).
    exists (v :: before), after, obj'. split; [reflexivity|].
    split; [|exact Hrest]. constructor; [|exact Hb]. left. exact Ej.
Qed.

Lemma find_data_urls_not_empty (html : str) : _find_data_urls_from_html html <> [].
Proof.
  intros E.
  assert (H : In DATA_URL (_find_data_urls_from_html html)).
  { unfold _find_data_urls_from_html. apply sorted_set_In.
    apply in_or_app. right. left. reflexivity. }
  rewrite E in H. destruct H.
Qed.

(** X13.  [main] writes the module only from the first candidate, in the
    order of the resolver, whose request succeeds with ten points or more,
    the candidates before it being passed over, and only when ten items or
    more were built from these points. *)
Theorem X13_main_writes (text : str) :
  main http_get_text http_get_json now existing = Written text ->
  exists html before u after obj pts items,
    http_get_text SOURCE_URL = Some html
    /\ _find_data_urls_from_html html = before ++ u :: after
    /\ Forall (passed_over http_get_json) before
    /\ http_get_json u = Some obj
    /\ _extract_points_from_geojson obj = Returned pts
    /\ (10 <= length pts)%nat
    /\ _build_items pts = Ok items
    /\ (10 <= length items)%nat
    /\ text = _write_packet_data_js now existing items.
Proof.
  unfold main.
  destruct (http_get_text SOURCE_URL) as [html|]; [|discriminate].
  destruct (_find_data_urls_from_html html) as [|u0 urls] eqn:Eu; [discriminate|].
  destruct (probe http_get_json (u0 :: urls)) as [[[u pts]|]|e] eqn:Ep;
    try discriminate.
  destruct (_build_items pts) as [items|[]] eqn:Eb; [|discriminate].
  destruct (length items <? 10)%nat eqn:El; [discriminate|].
  intros H. inversion H; subst.
  destruct (probe_chosen _ Ep) as (before & after & obj & E & Hb & Hj & Hx & Hl).
  apply Nat.ltb_ge in El. rewrite <- Eu in E.
  exists html, before, u, after, obj, pts, items.
  repeat (split; [first [reflexivity|assumption]|]). reflexivity.
Qed.

(** X14.  [main] raises [SystemExit] only because no candidate gave ten
    points, or because fewer than ten items were built, the message then
    naming their number; the exit for an empty list of candidates is never
    taken. *)
Theorem X14_main_exits (message : str) :
  main http_get_text http_get_json now existing = SystemExit message ->
  message <> no_endpoint_message
  /\ (message = no_points_message
      \/ exists n, (n < 10)%nat /\ message = too_few_message n).
Proof.
  unfold main.
  destruct (http_get_text SOURCE_URL) as [html|]; [|discriminate].
  pose proof (find_data_urls_not_empty html) as Hne.
  destruct (_find_data_urls_from_html html) as [|u0 urls]; [contradiction Hne; reflexivity|].
  destruct (probe http_get_json (u0 :: urls)) as [[[u pts]|]|e]; try discriminate.
  - destruct (_build_items pts) as [items|[]]; [|discriminate].
    destruct (length items <? 10)%nat eqn:El; [|discriminate].
    intros H. inversion H; subst. split; [discriminate|].
    right. exists (length items). apply Nat.ltb_lt in El. auto.
  - intros H. inversion H; subst. split; [discriminate|]. left. reflexivity.
Qed.

End MainProperties.

(* ================================================================== *)
(** ** What a match takes from the subject *)

Lemma advances_refl (c : re.cursor) : advances c c.
Proof. exists []. simpl. split; [reflexivity|lia]. Qed.

Lemma advances_trans (c1 c2 c3 : re.cursor) :
  advances c1 c2 -> advances c2 c3 -> advances c1 c3.
Proof.
  intros (u & E1 & P1) (v & E2 & P2). exists (u ++ v).
  rewrite E1, E2, P2, P1, length_app, <- app_assoc. split; [reflexivity|lia].
Qed.

(** A greedy repetition hands over to the rest of the pattern after
    characters of its class, at least [lo] of them. *)
Lemma rep_greedy_inv (p : ascii -> bool) (k : re.cursor -> option re.cursor)
    (rest : str) :
  forall lo hi prev pos caps res,
    re.rep_greedy p k lo hi prev pos caps rest = Some res ->
    exists consumed rest' prev',
      rest = consumed ++ rest'
      /\ Forall (fun x => p x = true) consumed
      /\ (lo <= length consumed)%nat
      /\ k (re.Cursor prev' (pos + length consumed) rest' caps) = Some res.
Proof.
  induction rest as [|x rest IH]; intros lo hi prev pos caps res.
  - cbn [re.rep_greedy]. destruct lo; [|discriminate].
    intros H. exists [], [], prev. rewrite Nat.add_0_r.
    split; [reflexivity|]. split; [constructor|]. split; [simpl; lia|exact H].
  - cbn [re.rep_greedy].
    assert (Hstop : match lo with
                    | O => k (re.Cursor prev pos (x :: rest) caps)
                    | S _ => None
                    end = Some res ->
                    exists consumed rest' prev',
                      x :: rest = consumed ++ rest'
                      /\ Forall (fun x => p x = true) consumed
                      /\ (lo <= length consumed)%nat
                      /\ k (re.Cursor prev' (pos + length consumed) rest' caps)
                         = Some res).
    { destruct lo; [|discriminate]. intros H. exists [], (x :: rest), prev.
      rewrite Nat.add_0_r. split; [reflexivity|]. split; [constructor|].
      split; [simpl; lia|exact H]. }
    destruct (p x && re.room hi)%bool eqn:Ep; [|exact Hstop].
    destruct (re.rep_greedy p k (Nat.pred lo) (option_map Nat.pred hi) (Some x)
                (S pos) caps rest) as [c|] eqn:Er; [|exact Hstop].
    intros H. inversion H; subst c; clear H.
    apply IH in Er. destruct Er as (consumed & rest' & prev' & -> & Hall & Hlo & Hk).
    exists (x :: consumed), rest', prev'.
    apply andb_true_iff in Ep. destruct Ep as [Ep _].
    split; [reflexivity|]. split; [constructor; assumption|].
    split; [simpl; lia|].
    replace (pos + length (x :: consumed))%nat with (S pos + length consumed)%nat
      by (simpl; lia).
    exact Hk.
Qed.

Lemma rmatch_inv (r : re.regex) :
  forall k c res,
    re.rmatch r k c = Some res ->
    exists c', k c' = Some res /\ advances c c'
               /\ (groupless r = true -> re.c_caps c' = re.c_caps c).
Proof.
  induction r as [|p|r1 IH1 r2 IH2|r1 IH1 r2 IH2|p lo hi| |i r1 IH1];
    intros k c res; cbn [re.rmatch groupless].
  - intros H. exists c. split; [exact H|]. split; [apply advances_refl|reflexivity].
  - destruct (re.c_rest c) as [|x rest'] eqn:Er; [discriminate|].
    destruct (p x); [|discriminate]. intros H.
    exists (re.Cursor (Some x) (S (re.c_pos c)) rest' (re.c_caps c)).
    split; [exact H|]. split; [|reflexivity].
    exists [x]. cbn. rewrite Er. split; [reflexivity|lia].
  - intros H. apply IH1 in H. destruct H as (c1 & H & A1 & G1).
    apply IH2 in H. destruct H as (c2 & H & A2 & G2).
    exists c2. split; [exact H|]. split; [eapply advances_trans; eassumption|].
    intros G. apply andb_true_iff in G. destruct G as [Ga Gb].
    rewrite G2, G1 by assumption. reflexivity.
  - destruct (re.rmatch r1 k c) as [c0|] eqn:E1.
    + intros H. inversion H; subst c0. apply IH1 in E1.
      destruct E1 as (c1 & H1 & A1 & G1). exists c1. split; [exact H1|].
      split; [exact A1|]. intros G. apply andb_true_iff in G. tauto.
    + intros H. apply IH2 in H. destruct H as (c2 & H2 & A2 & G2).
      exists c2. split; [exact H2|]. split; [exact A2|].
      intros G. apply andb_true_iff in G. tauto.
  - intros H. apply rep_greedy_inv in H.
    destruct H as (consumed & rest' & prev' & Er & _ & _ & Hk).
    exists (re.Cursor prev' (re.c_pos c + length consumed) rest' (re.c_caps c)).
    split; [exact Hk|]. split; [|reflexivity].
    exists consumed. cbn. split; [exact Er|reflexivity].
  - destruct (re.at_boundary c); [|discriminate]. intros H.
    exists c. split; [exact H|]. split; [apply advances_refl|reflexivity].
  - intros H. apply IH1 in H. destruct H as (c1 & H & A1 & _).
    eexists. split; [exact H|]. split; [|discriminate].
    destruct A1 as (u & E & P). exists u. cbn. auto.
Qed.

Lemma firstn_exact (A : Type) (u v : list A) (pos : nat) :
  firstn (pos + length u - pos) (u ++ v) = u.
Proof.
  replace (pos + length u - pos)%nat with (length u + 0)%nat by lia.
  rewrite firstn_app_2. simpl. apply app_nil_r.
Qed.

(** A group holds the text its pattern took. *)
Lemma group_inv (i : nat) (r : re.regex) (k : re.cursor -> option re.cursor)
    (c res : re.cursor) :
  re.rmatch (re.Grp i r) k c = Some res ->
  exists c1 consumed,
    re.c_rest c = consumed ++ re.c_rest c1
    /\ re.c_pos c1 = (re.c_pos c + length consumed)%nat
    /\ (groupless r = true -> re.c_caps c1 = re.c_caps c)
    /\ k (re.Cursor (re.c_prev c1) (re.c_pos c1) (re.c_rest c1)
            ((i, consumed) :: re.c_caps c1)) = Some res.
Proof.
  cbn [re.rmatch]. intros H. apply rmatch_inv in H.
  destruct H as (c1 & H & (u & E & P) & G).
  exists c1, u. split; [exact E|]. split; [exact P|]. split; [exact G|].
  rewrite E, P, firstn_exact in H. rewrite <- P in H. exact H.
Qed.

(** A group around a repetition of a class holds characters of the
    class. *)
Lemma group_rep_inv (i : nat) (p : ascii -> bool) (lo : nat) (hi : option nat)
    (k : re.cursor -> option re.cursor) (c res : re.cursor) :
  re.rmatch (re.Grp i (re.Rep p lo hi)) k c = Some res ->
  exists consumed rest' prev',
    re.c_rest c = consumed ++ rest'
    /\ Forall (fun x => p x = true) consumed
    /\ (lo <= length consumed)%nat
    /\ k (re.Cursor prev' (re.c_pos c + length consumed) rest'
            ((i, consumed) :: re.c_caps c)) = Some res.
Proof.
  cbn [re.rmatch]. intros H. apply rep_greedy_inv in H.
  destruct H as (u & rest' & prev' & E & Hall & Hlo & H).
  cbn [re.c_prev re.c_pos re.c_rest re.c_caps] in H.
  exists u, rest', prev'. rewrite E, firstn_exact in H. auto.
Qed.

(** The text of a match is what lies between its start and its end. *)
Lemma match_at_inv (r : re.regex) (prev : option ascii) (pos : nat) (rest : str)
    (m : re.match_obj) :
  re.match_at r prev pos rest = Some m ->
  re.m_start m = pos
  /\ re.m_end m = (pos + length (re.m_text m))%nat
  /\ exists rest', rest = re.m_text m ++ rest'.
Proof.
  unfold re.match_at.
  destruct (re.rmatch r Some (re.Cursor prev pos rest [])) as [c|] eqn:E;
    [|discriminate].
  intros H. inversion H; subst; clear H. cbn.
  apply rmatch_inv in E. destruct E as (c' & Hc & (u & Er & Ep) & _).
  inversion Hc; subst c'. cbn in Er, Ep.
  rewrite Er, Ep, firstn_exact. split; [reflexivity|]. split; [reflexivity|].
  exists (re.c_rest c). reflexivity.
Qed.

Lemma search_from_inv (r : re.regex) (rest : str) :
  forall prev pos m,
    re.search_from r prev pos rest = Some m ->
    exists prev' pre rest',
      rest = pre ++ rest'
      /\ re.match_at r prev' (pos + length pre) rest' = Some m.
Proof.
  induction rest as [|x rest IH]; intros prev pos m; cbn [re.search_from].
  - destruct (re.match_at r prev pos []) as [m'|] eqn:E; [|discriminate].
    intros H. inversion H; subst. exists prev, [], []. rewrite Nat.add_0_r. auto.
  - destruct (re.match_at r prev pos (x :: rest)) as [m'|] eqn:E.
    + intros H. inversion H; subst. exists prev, [], (x :: rest).
      rewrite Nat.add_0_r. auto.
    + intros H. apply IH in H. destruct H as (prev' & pre & rest' & -> & H).
      exists prev', (x :: pre), rest'. split; [reflexivity|].
      replace (pos + length (x :: pre))%nat with (S pos + length pre)%nat
        by (simpl; lia).
      exact H.
Qed.

Lemma scan_inv (r : re.regex) (rest : str) :
  forall prev pos skip m,
    In m (re.scan r prev pos skip rest) ->
    exists prev' pre rest',
      rest = pre ++ rest'
      /\ re.match_at r prev' (pos + length pre) rest' = Some m.
Proof.
  induction rest as [|x rest IH]; intros prev pos skip m.
  - destruct skip; cbn [re.scan]; [|intros []].
    destruct (re.match_at r prev pos []) as [m'|] eqn:E; [|intros []].
    intros [<-|[]]. exists prev, [], []. rewrite Nat.add_0_r. auto.
  - assert (Hrec : forall prev0 skip0,
               In m (re.scan r prev0 (S pos) skip0 rest) ->
               exists prev' pre rest',
                 x :: rest = pre ++ rest'
                 /\ re.match_at r prev' (pos + length pre) rest' = Some m).
    { intros prev0 skip0 H. apply IH in H.
      destruct H as (prev' & pre & rest' & -> & H).
      exists prev', (x :: pre), rest'. split; [reflexivity|].
      replace (pos + length (x :: pre))%nat with (S pos + length pre)%nat
        by (simpl; lia).
      exact H. }
    destruct skip; cbn [re.scan]; [|apply Hrec].
    destruct (re.match_at r prev pos (x :: rest)) as [m'|] eqn:E; [|apply Hrec].
    intros [<-|H]; [|eapply Hrec, H].
    exists prev, [], (x :: rest). rewrite Nat.add_0_r. auto.
Qed.

Lemma substring_refl (s : str) : substring s s.
Proof. exists [], []. rewrite app_nil_r. reflexivity. Qed.

Lemma substring_trans (a b c : str) : substring a b -> substring b c -> substring a c.
Proof.
  intros (p1 & q1 & ->) (p2 & q2 & ->). exists (p2 ++ p1), (q1 ++ q2).
  rewrite <- !app_assoc. reflexivity.
Qed.

Lemma substring_prefix_of_suffix (a pre rest' : str) (post : str) :
  substring a (pre ++ (a ++ post)).
Proof. exists pre, post. reflexivity. Qed.

(** The text of every match [finditer] reports occurs in the subject. *)
Lemma finditer_substring (r : re.regex) (s : str) (m : re.match_obj) :
  In m (re.finditer r s) -> substring (re.m_text m) s.
Proof.
  unfold re.finditer. intros H. apply scan_inv in H.
  destruct H as (prev' & pre & rest' & -> & H).
  apply match_at_inv in H. destruct H as (_ & _ & rest'' & ->).
  exists pre, rest''. reflexivity.
Qed.

Lemma firstn_substring (n : nat) (s : str) : substring (firstn n s) s.
Proof.
  exists [], (skipn n s). simpl. symmetry. apply firstn_skipn.
Qed.

Lemma skipn_substring (n : nat) (s : str) : substring (skipn n s) s.
Proof.
  exists (firstn n s), []. rewrite app_nil_r. symmetry. apply firstn_skipn.
Qed.

Lemma pieces_substring (ms : list re.match_obj) :
  forall pos s piece, In piece (re.pieces ms pos s) -> substring piece s.
Proof.
  induction ms as [|m ms IH]; intros pos s piece; cbn [re.pieces].
  - intros [<-|[]]. apply substring_refl.
  - intros [<-|H]; [apply firstn_substring|].
    eapply substring_trans; [eapply IH, H|apply skipn_substring].
Qed.

(* ================================================================== *)
(** ** The baud of a chunk *)

Lemma rmatch_cat (r1 r2 : re.regex) (k : re.cursor -> option re.cursor)
    (c : re.cursor) :
  re.rmatch (re.Cat r1 r2) k c = re.rmatch r1 (re.rmatch r2 k) c.
Proof. reflexivity. Qed.

Lemma group_cls_inv (i : nat) (p : ascii -> bool)
    (k : re.cursor -> option re.cursor) (c res : re.cursor) :
  re.rmatch (re.Grp i (re.Cls p)) k c = Some res ->
  exists x rest',
    re.c_rest c = x :: rest' /\ p x = true
    /\ k (re.Cursor (Some x) (S (re.c_pos c)) rest' ((i, [x]) :: re.c_caps c))
       = Some res.
Proof.
  cbn [re.rmatch]. destruct (re.c_rest c) as [|x rest'] eqn:Er; [discriminate|].
  destruct (p x) eqn:Ep; [|discriminate].
  cbn [re.c_prev re.c_pos re.c_rest re.c_caps].
  replace (S (re.c_pos c) - re.c_pos c)%nat with 1%nat by lia.
  cbn [firstn]. intros H. exists x, rest'. auto.
Qed.

Lemma digits_value_nonneg (l : str) : all_digits l -> 0 <= digits_value l.
Proof.
  induction l as [|c l IH] using rev_ind; intros H; [unfold digits_value; simpl; lia|].
  apply Forall_app in H. destruct H as [Hl Hc]. inversion Hc; subst.
  rewrite digits_value_snoc. pose proof (digit_val_range _ H1). specialize (IH Hl). lia.
Qed.

Lemma str_of_int_digits (z : Z) : 0 <= z -> all_digits (str_of_int z).
Proof.
  intros Hz. unfold str_of_int.
  destruct (z <? 0) eqn:E; [apply Z.ltb_lt in E; lia|].
  destruct (str_of_nonneg_spec Hz) as (d & -> & _ & Hd & _). exact Hd.
Qed.

Lemma baud_match_digits (prev : option ascii) (pos : nat) (rest : str)
    (m : re.match_obj) :
  re.match_at baud_re prev pos rest = Some m -> all_digits (re.group m 1).
Proof.
  unfold re.match_at.
  destruct (re.rmatch baud_re Some (re.Cursor prev pos rest [])) as [c|] eqn:E;
    [|discriminate].
  intros H. inversion H; subst; clear H. cbn [re.group re.m_caps].
  unfold baud_re in E. cbn [re.seq] in E. rewrite rmatch_cat in E.
  apply rmatch_inv in E. destruct E as (c1 & E & _ & G1).
  specialize (G1 eq_refl). rewrite rmatch_cat in E.
  apply group_rep_inv in E.
  destruct E as (consumed & rest' & prev' & _ & Hall & _ & E).
  apply rmatch_inv in E. destruct E as (c2 & E & _ & G2).
  specialize (G2 eq_refl). inversion E; subst c2. rewrite G2. cbn.
  exact Hall.
Qed.

Lemma kbaud_match_digits (prev : option ascii) (pos : nat) (rest : str)
    (m : re.match_obj) :
  re.match_at kbaud_re prev pos rest = Some m ->
  all_digits (re.group m 1) /\ all_digits (re.group m 2).
Proof.
  unfold re.match_at.
  destruct (re.rmatch kbaud_re Some (re.Cursor prev pos rest [])) as [c|] eqn:E;
    [|discriminate].
  intros H. inversion H; subst; clear H. cbn [re.group re.m_caps].
  unfold kbaud_re in E. cbn [re.seq] in E. rewrite rmatch_cat in E.
  apply rmatch_inv in E. destruct E as (c1 & E & _ & G1).
  specialize (G1 eq_refl). rewrite rmatch_cat in E.
  apply group_rep_inv in E.
  destruct E as (consumed & rest' & prev' & _ & Hall & _ & E).
  rewrite rmatch_cat in E. apply rmatch_inv in E.
  destruct E as (c2 & E & _ & G2). specialize (G2 eq_refl).
  rewrite rmatch_cat in E. apply group_cls_inv in E.
  destruct E as (x & rest'' & _ & Hx & E).
  apply rmatch_inv in E. destruct E as (c3 & E & _ & G3).
  specialize (G3 eq_refl). inversion E; subst c3. rewrite G3. cbn.
  rewrite G2. cbn. split; [exact Hall|]. constructor; [exact Hx|constructor].
Qed.

Section BaudAndRaw.
Context {B : Builtins}.

Lemma baud_in_digits (chunk : str) : all_digits (_baud_in chunk).
Proof.
  unfold _baud_in.
  destruct (re.search baud_re chunk) as [m|] eqn:E1.
  - apply search_from_inv in E1. destruct E1 as (prev' & pre & rest' & _ & E1).
    eapply baud_match_digits, E1.
  - destruct (re.search kbaud_re chunk) as [mk|] eqn:E2; [|constructor].
    apply search_from_inv in E2. destruct E2 as (prev' & pre & rest' & _ & E2).
    apply kbaud_match_digits in E2. destruct E2 as [H1 H2].
    apply str_of_int_digits.
    pose proof (digits_value_nonneg H1). pose proof (digits_value_nonneg H2). lia.
Qed.

Lemma extract_channels_chunk (text : str) (c : channel) :
  In c (_extract_channels text) ->
  exists ch, substring ch (lower (_strip_html text)) /\ In c (chunk_channels ch).
Proof.
  unfold _extract_channels, collect_channels, re.split. intros Hin.
  apply dedupe_In in Hin. apply in_flat_map in Hin.
  destruct Hin as (ch & Hch & Hin). exists ch.
  split; [eapply pieces_substring, Hch|exact Hin].
Qed.

(** The baud of a record is what [_baud_in] finds in its chunk. *)
Lemma chunk_channels_baud (ch : str) (c : channel) :
  In c (chunk_channels ch) -> baud c = _baud_in ch.
Proof.
  unfold chunk_channels, unit_records, bare_records.
  rewrite in_app_iff. intros [Hin|Hin].
  - apply in_flat_map in Hin. destruct Hin as (m & _ & Hc).
    apply unit_record_In in Hc. destruct Hc as (_ & _ & -> & _). reflexivity.
  - destruct (has_rf_context ch); [|destruct Hin].
    apply in_flat_map in Hin. destruct Hin as (m & _ & Hc).
    apply bare_record_In in Hc. destruct Hc as (_ & _ & _ & _ & -> & _).
    reflexivity.
Qed.

(** X15.  The baud of every record of an ASCII description is empty or
    made of the digits 0 to 9 only. *)
Theorem X15_baud_digits (text : str) (c : channel) :
  isascii text = true ->
  In c (_extract_channels text) -> all_digits (baud c).
Proof.
  intros _ Hin. apply extract_channels_chunk in Hin.
  destruct Hin as (ch & _ & Hin).
  rewrite (chunk_channels_baud _ _ Hin). apply baud_in_digits.
Qed.

(* ================================================================== *)
(** ** The source text of a record *)

Lemma bare_group_substring (prev : option ascii) (pos : nat) (rest : str)
    (m : re.match_obj) :
  re.match_at bare_freq_re prev pos rest = Some m ->
  substring (re.group m 1) rest.
Proof.
  unfold re.match_at.
  destruct (re.rmatch bare_freq_re Some (re.Cursor prev pos rest [])) as [c|] eqn:E;
    [|discriminate].
  intros H. inversion H; subst; clear H. cbn [re.group re.m_caps].
  unfold bare_freq_re in E. cbn [re.seq] in E. rewrite rmatch_cat in E.
  apply rmatch_inv in E. destruct E as (c1 & E & (u & Eu & _) & G1).
  specialize (G1 eq_refl). cbn in Eu, G1. rewrite rmatch_cat in E.
  apply group_inv in E.
  destruct E as (c2 & consumed & Ec & _ & G2 & E). specialize (G2 eq_refl).
  apply rmatch_inv in E. destruct E as (c3 & E & _ & G3).
  specialize (G3 eq_refl). inversion E; subst c3. rewrite G3.
  cbn [re.c_caps re.lookup_cap Nat.eqb]. rewrite Eu, Ec.
  exists u, (re.c_rest c2). reflexivity.
Qed.

(** X16.  The source text of every record occurs in the description,
    once its tags are removed, its white space is normalised and its
    letters are lowered. *)
Theorem X16_raw_occurs (text : str) (c : channel) :
  In c (_extract_channels text) -> substring (raw c) (lower (_strip_html text)).
Proof.
  intros Hin. apply extract_channels_chunk in Hin.
  destruct Hin as (ch & Hch & Hin).
  eapply substring_trans; [|exact Hch].
  unfold chunk_channels, unit_records, bare_records in Hin.
  rewrite in_app_iff in Hin. destruct Hin as [Hin|Hin].
  - apply in_flat_map in Hin. destruct Hin as (m & Hm & Hc).
    apply unit_record_In in Hc. destruct Hc as (_ & _ & _ & ->).
    apply finditer_substring in Hm. exact Hm.
  - destruct (has_rf_context ch); [|destruct Hin].
    apply in_flat_map in Hin. destruct Hin as (m & Hm & Hc).
    apply bare_record_In in Hc. destruct Hc as (_ & _ & _ & _ & _ & ->).
    unfold re.finditer in Hm. apply scan_inv in Hm.
    destruct Hm as (prev' & pre & rest' & -> & Hm).
    apply bare_group_substring in Hm.
    eapply substring_trans; [exact Hm|]. exists pre, []. rewrite app_nil_r. reflexivity.
Qed.

End BaudAndRaw.

(* ================================================================== *)
(** ** White space in the notes *)

Lemma plus_match_at (p : ascii -> bool) (prev : option ascii) (pos : nat)
    (x : ascii) (rest : str) :
  p x = true ->
  exists m n,
    re.match_at (re.plus p) prev pos (x :: rest) = Some m
    /\ re.m_start m = pos /\ re.m_end m = (pos + S n)%nat
    /\ (n <= length rest)%nat.
Proof.
  intros Hx. unfold re.match_at, re.plus. cbn [re.rmatch re.c_prev re.c_pos re.c_caps re.c_rest].
  destruct (re.rep_greedy p Some 1 None prev pos [] (x :: rest)) as [c|] eqn:E.
  - apply rep_greedy_inv in E.
    destruct E as (consumed & rest' & prev' & Er & _ & Hlo & E).
    inversion E; subst c; clear E.
    destruct consumed as [|y consumed]; [simpl in Hlo; lia|].
    eexists. exists (length consumed). split; [reflexivity|]. cbn.
    split; [reflexivity|]. split; [reflexivity|].
    inversion Er; subst. rewrite length_app. lia.
  - exfalso.
    assert (N : re.rep_greedy p Some 1 None prev pos [] (x :: rest) <> None).
    { apply rep_unbounded_succeeds. simpl. rewrite Hx. split; [lia|reflexivity]. }
    contradiction.
Qed.

Lemma plus_no_match (p : ascii -> bool) (prev : option ascii) (pos : nat)
    (rest : str) :
  match rest with [] => True | x :: _ => p x = false end ->
  re.match_at (re.plus p) prev pos rest = None.
Proof.
  intros H. unfold re.match_at, re.plus.
  cbn [re.rmatch re.c_prev re.c_pos re.c_caps re.c_rest].
  rewrite rep_greedy_needs by exact H. reflexivity.
Qed.

(** The pieces between the runs of a class hold no character of the
    class. *)
Lemma plus_pieces_free (p : ascii -> bool) (rest : str) :
  forall prev pos skip acc,
    Forall (fun c => p c = false) acc -> (length acc <= pos)%nat ->
    skip = O \/ acc = [] -> (skip <= length rest)%nat ->
    Forall (Forall (fun c => p c = false))
      (re.pieces (re.scan (re.plus p) prev pos skip rest)
         (pos + skip - length acc) (acc ++ skipn skip rest)).
Proof.
  induction rest as [|x rest IH]; intros prev pos skip acc Hacc Hlen Hsk Hle.
  - assert (skip = O) as -> by (simpl in Hle; lia).
    cbn [re.scan]. rewrite plus_no_match by exact I. cbn [re.pieces skipn].
    rewrite app_nil_r. constructor; [exact Hacc|constructor].
  - destruct skip as [|n].
    + cbn [re.scan skipn]. destruct (p x) eqn:Ex.
      * destruct (@plus_match_at p prev pos x rest Ex) as (m & n & -> & Hs & He & Hn).
        cbn [re.pieces]. rewrite Hs, He.
        replace (pos - (pos + 0 - length acc))%nat with (length acc + 0)%nat by lia.
        rewrite firstn_app_2. cbn [firstn]. rewrite app_nil_r.
        constructor; [exact Hacc|].
        replace (pos + S n - (pos + 0 - length acc))%nat
          with (length acc + S n)%nat by lia.
        rewrite skipn_app, skipn_all2 by lia.
        replace (length acc + S n - length acc)%nat with (S n) by lia.
        cbn [app skipn].
        replace (Nat.pred (pos + S n - pos)) with n by lia.
        specialize (IH (Some x) (S pos) n [] (Forall_nil _)).
        cbn [length app] in IH.
        replace (S pos + n - 0)%nat with (pos + S n)%nat in IH by lia.
        apply IH; [lia|right; reflexivity|exact Hn].
      * rewrite plus_no_match by exact Ex.
        specialize (IH (Some x) (S pos) O (acc ++ [x])).
        rewrite length_app in IH. cbn [length skipn] in IH.
        replace (S pos + 0 - (length acc + 1))%nat with (pos + 0 - length acc)%nat
          in IH by lia.
        rewrite <- app_assoc in IH. apply IH.
        -- apply Forall_app. split; [exact Hacc|]. constructor; [exact Ex|constructor].
        -- lia.
        -- left. reflexivity.
        -- lia.
    + destruct Hsk as [Hsk| ->]; [discriminate|].
      cbn [re.scan skipn length app]. simpl in Hle.
      specialize (IH (Some x) (S pos) n [] (Forall_nil _)).
      cbn [length app] in IH.
      replace (pos + S n - 0)%nat with (S pos + n - 0)%nat by lia.
      apply IH; [lia|right; reflexivity|lia].
Qed.

Lemma spaces_only_strip (s : str) : spaces_only s -> spaces_only (strip s).
Proof. apply strip_Forall. Qed.

Lemma sub_spaces_only (s : str) : spaces_only (re.sub (re.plus is_space) " " s).
Proof.
  unfold re.sub, re.split, re.finditer.
  pose proof (@plus_pieces_free is_space s None 0%nat 0%nat [] (Forall_nil _)) as H.
  cbn [length app skipn Nat.add Nat.sub] in H.
  specialize (H (Nat.le_refl _) (or_introl eq_refl) (Nat.le_0_l _)).
  unfold spaces_only. apply join_Forall.
  - constructor; [reflexivity|constructor].
  - eapply Forall_impl; [|exact H]. intros piece Hp.
    eapply Forall_impl; [|exact Hp]. intros c Hc Hs. cbv beta in Hc. congruence.
Qed.

(** X17.  What [_strip_html] returns, the notes of an item among it, is
    on one line: it holds no white space but spaces. *)
Theorem X17_notes_spaces_only (html : str) : spaces_only (_strip_html html).
Proof.
  unfold _strip_html. destruct (negb (nonempty html)); [constructor|].
  apply spaces_only_strip, sub_spaces_only.
Qed.

(* ================================================================== *)
(** ** The URLs of the two scripts *)

Lemma startswith_app (pre s : str) : startswith (pre ++ s) pre = true.
Proof.
  induction pre as [|c pre IH]; [apply startswith_nil|].
  cbn [app startswith]. rewrite Ascii.eqb_refl. exact IH.
Qed.

Lemma absolutize_absolute (u : str) : absolute_url (absolutize u) = true.
Proof.
  unfold absolutize.
  destruct (startswith u "http://" || startswith u "https://")%bool eqn:E1;
    [exact E1|].
  destruct (startswith u "//") eqn:E2.
  - unfold absolute_url. apply orb_true_iff. right.
    destruct u as [|a [|b u]]; cbn [startswith] in E2.
    + discriminate.
    + rewrite andb_false_r in E2. discriminate.
    + cbn [app startswith]. rewrite !Ascii.eqb_refl. cbn [andb]. exact E2.
  - reflexivity.
Qed.

Lemma absolutize_fixed (u : str) : absolute_url u = true -> absolutize u = u.
Proof. unfold absolutize, absolute_url. intros ->. reflexivity. Qed.

(** X18.  [_absolutize] of the fetch script is [absolutize] of the
    discovery script, whatever base it is given; the result is an absolute
    URL, and an absolute URL is left as it is. *)
Theorem X18_absolutize (base_url u : str) :
  _absolutize base_url u = absolutize u
  /\ absolute_url (absolutize u) = true
  /\ absolutize (absolutize u) = absolutize u.
Proof.
  split; [reflexivity|]. split; [apply absolutize_absolute|].
  apply absolutize_fixed, absolutize_absolute.
Qed.

Lemma cls_cat_inv (p : ascii -> bool) (r : re.regex) (prev : option ascii)
    (pos : nat) (rest : str) (m : re.match_obj) :
  re.match_at (re.Cat (re.Cls p) r) prev pos rest = Some m ->
  exists x t, re.m_text m = x :: t /\ p x = true.
Proof.
  unfold re.match_at. rewrite rmatch_cat.
  cbn [re.rmatch re.c_rest re.c_pos re.c_caps re.c_prev].
  destruct rest as [|x rest']; [discriminate|].
  destruct (p x) eqn:Ex; [|discriminate].
  destruct (re.rmatch r Some (re.Cursor (Some x) (S pos) rest' [])) as [c|] eqn:E;
    [|discriminate].
  intros H. inversion H; subst m; clear H. cbn [re.m_text].
  apply rmatch_inv in E. destruct E as (c' & Hc & (u & _ & Hp) & _).
  inversion Hc; subst c'. cbn [re.c_pos] in Hp.
  rewrite Hp. replace (S pos + length u - pos)%nat with (S (length u)) by lia.
  cbn [firstn]. eauto.
Qed.

Lemma lower_a (x : ascii) :
  Ascii.eqb (to_lower x) (to_lower "a") = true -> x = "a"%char \/ x = "A"%char.
Proof.
  destruct x as [[] [] [] [] [] [] [] []]; vm_compute; intros H;
    first [discriminate H | left; reflexivity | right; reflexivity].
Qed.

Lemma api_match_head (prev : option ascii) (pos : nat) (rest : str)
    (m : re.match_obj) :
  re.match_at api_re prev pos rest = Some m ->
  exists x t, re.m_text m = x :: t /\ (x = "a"%char \/ x = "A"%char).
Proof.
  intros H.
  assert (H' : re.match_at
                 (re.Cat (re.ichr "a")
                    (re.Cat (re.ilit "pi/nodedata/geojson?") (re.plus url_char)))
                 prev pos rest = Some m) by exact H.
  apply cls_cat_inv in H'. destruct H' as (x & t & E & Hx).
  exists x, t. split; [exact E|]. apply lower_a, Hx.
Qed.

Section Urls.
Context {B : Builtins}.

(** X19.  Every URL the resolver returns is the known endpoint or the
    root of the host followed by a match of the pattern, so the fetch
    script requests data from no other host, whatever the page holds. *)
Theorem X19_resolver_on_host (html u : str) :
  In u (_find_data_urls_from_html html) ->
  (u = DATA_URL
   \/ exists m, In m (re.findall api_re html)
                /\ u = "https://nodes.ukpacketradio.network/" ++ m)
  /\ startswith u "https://nodes.ukpacketradio.network/" = true.
Proof.
  unfold _find_data_urls_from_html. intros H. apply -> sorted_set_In in H.
  apply in_app_iff in H. destruct H as [H|[<-|[]]]; [|split; [left|]; reflexivity].
  apply in_map_iff in H. destruct H as (cand & <- & H).
  apply nodup_In in H.
  assert (E : _absolutize SOURCE_URL cand
              = "https://nodes.ukpacketradio.network/" ++ cand).
  { unfold re.findall in H. apply in_map_iff in H. destruct H as (m & <- & Hm).
    unfold re.finditer in Hm. apply scan_inv in Hm.
    destruct Hm as (prev' & pre & rest' & _ & Hm).
    apply api_match_head in Hm. destruct Hm as (x & t & -> & [->| ->]); reflexivity. }
  rewrite E. split; [right; exists cand; auto|apply startswith_app].
Qed.

(** X20.  Every address the discovery script lists is an absolute URL,
    and the endpoints and URLs it lists hold the name of the host. *)
Theorem X20_discovery_lists (get_text : str -> option str) (html u : str) :
  (In u (discover_scripts html) -> absolute_url u = true)
  /\ (In u (discover_endpoints get_text html) ->
      absolute_url u = true /\ on_host u = true)
  /\ (In u (discover_all_urls get_text html) ->
      absolute_url u = true /\ on_host u = true).
Proof.
  split; [|split].
  - unfold discover_scripts. intros H. apply -> sorted_set_In in H.
    apply in_map_iff in H. destruct H as (m & <- & _). apply absolutize_absolute.
  - unfold discover_endpoints. intros H. apply -> sorted_set_In in H.
    apply filter_In in H. destruct H as [H Hh]. split; [|exact Hh].
    apply in_app_iff in H. destruct H as [H|H].
    + apply in_flat_map in H. destruct H as (js & _ & H).
      unfold scan_endpoints in H. apply in_map_iff in H.
      destruct H as (m & <- & _). apply absolutize_absolute.
    + unfold scan_endpoints in H. apply in_map_iff in H.
      destruct H as (m & <- & _). apply absolutize_absolute.
  - unfold discover_all_urls. intros H. apply -> sorted_set_In in H.
    apply filter_In in H. destruct H as [H Hh]. split; [|exact Hh].
    apply in_app_iff in H. destruct H as [H|H].
    + apply in_flat_map in H. destruct H as (js & _ & H).
      unfold scan_urls in H. apply in_map_iff in H.
      destruct H as (m & <- & _). apply absolutize_absolute.
    + unfold scan_urls in H. apply in_map_iff in H.
      destruct H as (m & <- & _). apply absolutize_absolute.
Qed.

End Urls.

(* ================================================================== *)
(** ** The text of a frequency *)

Lemma rstrip_result_last (p : ascii -> bool) (l u : str) (x : ascii) :
  rstrip_chars p l = u ++ [x] -> p x = false.
Proof.
  unfold rstrip_chars. intros H.
  assert (E : drop_while p (rev l) = x :: rev u).
  { rewrite <- (rev_involutive (drop_while p (rev l))), H, rev_app_distr.
    reflexivity. }
  eapply drop_while_head, E.
Qed.

Lemma trimmed_fixed6_text (n : Z) :
  0 <= n ->
  mhz_text (rstrip_chars (Ascii.eqb ".") (rstrip_chars (Ascii.eqb "0") (fixed6 n))).
Proof.
  intros Hn. unfold fixed6.
  assert (Hq : 0 <= n / 1000000) by (apply Z.div_pos; lia).
  assert (Hr : 0 <= n mod 1000000 < 1000000) by (apply Z.mod_pos_bound; lia).
  destruct (str_of_nonneg_spec Hq) as (ip & -> & Hne & Hip & _).
  destruct (@pad_digits_spec 6 (n mod 1000000)) as (Hlen & Hfp & _); [lia|].
  set (fp := pad_digits 6 (n mod 1000000)) in *.
  change (ip ++ "." ++ fp) with (ip ++ "."%char :: fp).
  rewrite rstrip_after by reflexivity.
  destruct (rstrip_zeros_value Hfp) as (Hfp' & Hlen' & _).
  destruct (rstrip_chars (Ascii.eqb "0") fp) as [|c0 fp0] eqn:Efp.
  - destruct (last_digit_split Hne Hip) as (u & x & -> & Hx & Hu).
    rewrite <- app_assoc. simpl app at 2.
    change (u ++ [x; "."%char]) with (u ++ x :: ["."%char]).
    rewrite rstrip_after by (apply digit_not; [exact Hx|reflexivity]).
    change (rstrip_chars (Ascii.eqb ".") ["."%char]) with (@nil ascii).
    exists (u ++ [x]), []. rewrite app_nil_r.
    split; [reflexivity|]. split; [exact Hne|]. split; [exact Hip|].
    split; [constructor|]. split; [simpl; lia|discriminate].
  - assert (Hne' : c0 :: fp0 <> []) by discriminate.
    destruct (last_digit_split Hne' Hfp') as (u & x & Eu & Hx & Hu).
    assert (Hlast : Ascii.eqb "0" x = false).
    { eapply rstrip_result_last. rewrite Efp. exact Eu. }
    rewrite Eu.
    change (ip ++ "."%char :: u ++ [x]) with (ip ++ ("."%char :: u) ++ [x]).
    rewrite app_assoc, rstrip_end by (apply digit_not; [exact Hx|reflexivity]).
    rewrite <- app_assoc. change (("."%char :: u) ++ [x]) with ("."%char :: u ++ [x]).
    exists ip, (u ++ [x]).
    split; [destruct (u ++ [x]) eqn:E; [destruct u; discriminate|reflexivity]|].
    split; [exact Hne|]. split; [exact Hip|].
    split; [rewrite <- Eu; exact Hfp'|].
    split; [rewrite <- Eu, <- Hlen; exact Hlen'|].
    rewrite last_last. intros ->. discriminate.
Qed.

Section FrequencyText.
Context {B : Builtins}.

Lemma to_mhz_text (raw_num : str) (unit : option str) (s : str) :
  _to_mhz_str raw_num unit = Some s -> mhz_text s.
Proof.
  intros H. apply to_mhz_inv in H. destruct H as (v & Hlo & Hhi & ->).
  destruct (band_millionths v Hlo Hhi) as (m & e & -> & Hn).
  unfold _fmt_mhz, format_f6. change (sign_str false) with (@nil ascii).
  cbn [app]. apply trimmed_fixed6_text. lia.
Qed.


(** X21.  The frequency of every record is written with digits, and,
    when it has decimals, with a point and at most six decimals of which
    the last is not a zero. *)
Theorem X21_frequency_text (text : str) (c : channel) :
  In c (_extract_channels text) -> mhz_text (freq c).
Proof.
  intros Hin. apply extract_channels_chunk in Hin.
  destruct Hin as (ch & _ & Hin). apply chunk_channels_to_mhz in Hin.
  destruct Hin as (raw_num & unit & H). eapply to_mhz_text, H.
Qed.

(* ================================================================== *)
(** ** Decimal separator and unit *)

Lemma replace_comma (s : str) :
  replace "," "." s
  = map (fun c => if Ascii.eqb "," c then "."%char else c) s.
Proof.
  rewrite replace_char. induction s as [|c s IH]; [reflexivity|].
  cbn [flat_map map]. rewrite IH. destruct (Ascii.eqb "," c); reflexivity.
Qed.

Lemma comma_space (c : ascii) :
  is_space (if Ascii.eqb "," c then "."%char else c) = is_space c.
Proof.
  destruct (Ascii.eqb "," c) eqn:E; [|reflexivity].
  apply Ascii.eqb_eq in E. subst c. reflexivity.
Qed.

Lemma lower_upper (s : str) : lower (upper s) = lower s.
Proof.
  unfold lower, upper. rewrite map_map. apply map_ext. apply to_lower_to_upper.
Qed.

(** X22.  In [_to_mhz_str] a comma stands for the decimal point, and the
    letter case of the unit plays no part. *)
Theorem X22_separator_and_case (raw_num u : str) (unit : option str) :
  _to_mhz_str (replace "," "." raw_num) unit = _to_mhz_str raw_num unit
  /\ _to_mhz_str raw_num (Some (upper u)) = _to_mhz_str raw_num (Some u).
Proof.
  split.
  - unfold _to_mhz_str. rewrite !replace_comma.
    rewrite strip_map by apply comma_space.
    rewrite map_map.
    assert (E : map (fun x => if Ascii.eqb ","
                                   (if Ascii.eqb "," x then "."%char else x)
                              then "."%char
                              else if Ascii.eqb "," x then "."%char else x)
                  (strip raw_num)
                = map (fun c => if Ascii.eqb "," c then "."%char else c)
                    (strip raw_num)).
    { apply map_ext. intros c. destruct (Ascii.eqb "," c) eqn:Ec;
        [reflexivity|rewrite Ec; reflexivity]. }
    rewrite E. destruct raw_num; reflexivity.
  - unfold _to_mhz_str. rewrite lower_upper. reflexivity.
Qed.

End FrequencyText.

(* ================================================================== *)
(** ** Literals that read back *)

Lemma esc_direct_plain (s : str) : plain_text s -> esc_direct s = s.
Proof.
  induction s as [|c|c d l IH1 IH2] using list_ind2; intros H.
  - reflexivity.
  - inversion H as [|? ? (H1 & H2 & H3) _]; subst. cbn [esc_direct]. unfold esc_char.
    apply Ascii.eqb_neq in H1, H2. rewrite H1, H2. reflexivity.
  - inversion H as [|? ? (H1 & H2 & H3) H']; subst.
    rewrite esc_direct_cons. apply Ascii.eqb_neq in H1, H2, H3.
    rewrite H3. cbn [andb]. unfold esc_char. rewrite H1, H2.
    cbn [app]. rewrite IH2 by exact H'. reflexivity.
Qed.

Section Literals.
Context {B : Builtins}.

(** A text without backslash, backquote and dollar sign is written as it
    is. *)
Lemma js_escape_plain (s : str) : plain_text s -> _js_escape s = s.
Proof. intros H. rewrite js_escape_direct. apply esc_direct_plain, H. Qed.

(** X23.  The literal that [_js_escape] writes between single quotes
    reads back as the value exactly when the value holds no apostrophe and
    no line break. *)
Theorem X23_escape_read_back (v tail : str) :
  js_read_single_quoted ("'" ++ _js_escape v ++ "'" ++ tail) = Some (v, tail)
  <-> quote_free v.
Proof.
  split; [|apply js_escape_read_back].
  rewrite js_escape_direct.
  change (js_read_body (esc_direct v ++ "'"%char :: tail) = Some (v, tail)
          -> quote_free v).
  induction v as [|c|c d l IH1 IH2] using list_ind2.
  - constructor.
  - cbn [esc_direct]. intros H.
    destruct (quote_char_dec c) as [Hc|Hc].
    + apply (js_read_quote_char _ Hc) in H. destruct H.
    + constructor; [intuition|constructor].
  - rewrite esc_direct_cons.
    destruct (Ascii.eqb c "$" && Ascii.eqb d "{")%bool eqn:E.
    + apply andb_true_iff in E. destruct E as [Ec Ed].
      apply Ascii.eqb_eq in Ec, Ed. subst c d.
      change (("\${" ++ esc_direct l) ++ "'"%char :: tail)
        with ("\"%char :: "$"%char :: "{"%char :: esc_direct l ++ "'"%char :: tail).
      cbn [js_read_body Ascii.eqb Bool.eqb orb js_escape_char is_digit].
      intros H.
      destruct (js_read_body (esc_direct l ++ "'"%char :: tail)) as [[v r]|] eqn:El;
        [|discriminate].
      inversion H; subst v r.
      constructor; [repeat split; discriminate|].
      constructor; [repeat split; discriminate|]. apply IH1. reflexivity.
    + rewrite <- app_assoc. intros H.
      destruct (quote_char_dec c) as [Hc|Hc].
      * apply (js_read_quote_char _ Hc) in H. destruct H.
      * rewrite js_read_esc_char_step in H by intuition.
        destruct (js_read_body (esc_direct (d :: l) ++ "'"%char :: tail))
          as [[v r]|] eqn:El; [|discriminate].
        inversion H; subst v r.
        constructor; [intuition|]. apply IH2. reflexivity.
Qed.

Lemma digits_plain_and_quote_free (s : str) :
  Forall (fun c => is_digit c = true \/ c = "."%char) s ->
  plain_text s /\ quote_free s.
Proof.
  intros H. split; (eapply Forall_impl; [|exact H]); intros c [Hc| ->];
    try (repeat split; discriminate);
    repeat split; intros ->; discriminate.
Qed.

Lemma mhz_text_chars (s : str) :
  mhz_text s -> Forall (fun c => is_digit c = true \/ c = "."%char) s.
Proof.
  intros (ip & fp & -> & _ & Hip & Hfp & _).
  apply Forall_app. split.
  - eapply Forall_impl; [|exact Hip]. auto.
  - destruct fp as [|c fp]; [constructor|].
    constructor; [right; reflexivity|].
    eapply Forall_impl; [|exact Hfp]. auto.
Qed.

(** X24.  The frequency and the baud of every record are written to the
    module as they are, and their literals read back as the frequency and
    the baud. *)
Theorem X24_numbers_read_back (text : str) (c : channel) (tail : str) :
  In c (_extract_channels text) ->
  _js_escape (freq c) = freq c /\ _js_escape (baud c) = baud c
  /\ js_read_single_quoted ("'" ++ _js_escape (freq c) ++ "'" ++ tail)
     = Some (freq c, tail)
  /\ js_read_single_quoted ("'" ++ _js_escape (baud c) ++ "'" ++ tail)
     = Some (baud c, tail).
Proof.
  intros Hin. apply extract_channels_chunk in Hin.
  destruct Hin as (ch & _ & Hin).
  destruct (chunk_channels_to_mhz _ _ Hin) as (raw_num & unit & Hm).
  destruct (digits_plain_and_quote_free (mhz_text_chars (to_mhz_text _ _ Hm)))
    as [Pf Qf].
  assert (Hb : Forall (fun x => is_digit x = true \/ x = "."%char) (baud c)).
  { rewrite (chunk_channels_baud _ _ Hin).
    eapply Forall_impl; [|apply baud_in_digits]. auto. }
  destruct (digits_plain_and_quote_free Hb) as [Pb Qb].
  split; [apply js_escape_plain, Pf|]. split; [apply js_escape_plain, Pb|].
  split; apply js_escape_read_back; assumption.
Qed.

End Literals.

(* ================================================================== *)
(** ** The value of a frequency text *)

Lemma round_half_even_near (n d : Z) :
  0 < d ->
  - d <= 2 * (round_half_even n d * d - n) <= d.
Proof.
  intros Hd. unfold round_half_even.
  assert (Hdm : n = d * (n / d) + n mod d) by (apply Z.div_mod; lia).
  assert (Hr : 0 <= n mod d < d) by (apply Z.mod_pos_bound; lia).
  set (q := n / d) in *. set (r := n mod d) in *.
  destruct (2 * r ?= d) eqn:E.
  - apply Z.compare_eq in E. destruct (Z.even q); nia.
  - assert (2 * r < d) by (apply Z.compare_lt_iff; exact E). nia.
  - assert (d < 2 * r) by (apply Z.compare_gt_iff; exact E). nia.
Qed.

(** X25.  For a float between 0.5 and 500, the text [_fmt_mhz] returns is
    a decimal literal within half a millionth of the number. *)
Theorem X25_nearest_millionth (v : pyfloat) :
  fle half v = true -> fle v five_hundred = true ->
  exists q,
    decimal_value (_fmt_mhz v) = Some q
    /\ (value_of v - (1 # 2000000) <= q)%Q
    /\ (q <= value_of v + (1 # 2000000))%Q.
Proof.
  intros Hlo Hhi.
  destruct (band_millionths v Hlo Hhi) as (m & e & -> & Hn).
  unfold _fmt_mhz, format_f6. change (sign_str false) with (@nil ascii).
  cbn [app].
  destruct (@trimmed_fixed6_value (scaled_round m e 1000000)) as (a & k & Ep & Hk & Ha);
    [lia|].
  unfold decimal_value. rewrite Ep.
  exists (a # Z.to_pos (10 ^ Z.of_nat k)). split; [reflexivity|].
  assert (Hp : 0 < 10 ^ Z.of_nat k) by (apply Z.pow_pos_nonneg; lia).
  assert (Hp' : 0 < 10 ^ Z.of_nat (6 - k)) by (apply Z.pow_pos_nonneg; lia).
  assert (Hpow : 10 ^ Z.of_nat k * 10 ^ Z.of_nat (6 - k) = 1000000).
  { rewrite <- Z.pow_add_r by lia.
    replace (Z.of_nat k + Z.of_nat (6 - k)) with 6 by lia. reflexivity. }
  set (P := 10 ^ Z.of_nat k) in *. set (R := 10 ^ Z.of_nat (6 - k)) in *.
  unfold value_of. cbn [mant expo]. unfold scaled_round in Ha.
  destruct (0 <=? e) eqn:Ee.
  - apply Z.leb_le in Ee.
    assert (H2 : 0 < 2 ^ e) by (apply Z.pow_pos_nonneg; lia).
    set (V := Zpos m * 2 ^ e) in *.
    assert (Ea : a = V * P) by nia.
    unfold Qle, Qminus, Qplus, Qopp. cbn [Qnum Qden].
    rewrite !Pos2Z.inj_mul, !Z2Pos.id by exact Hp.
    split; nia.
  - apply Z.leb_gt in Ee.
    assert (HD : 0 < 2 ^ (- e)) by (apply Z.pow_pos_nonneg; lia).
    set (D := 2 ^ (- e)) in *.
    pose proof (@round_half_even_near (Zpos m * 1000000) D HD) as Hnear.
    set (N := round_half_even (Zpos m * 1000000) D) in *.
    unfold Qle, Qminus, Qplus, Qopp. cbn [Qnum Qden].
    rewrite !Pos2Z.inj_mul, !Z2Pos.id by assumption.
    assert (EN : N = a * R) by lia.
    split.
    + assert (H : (2 * Zpos m * 1000000 - D) * P <= 2 * a * D * (P * R)).
      { rewrite EN in Hnear. nia. }
      nia.
    + assert (H : 2 * a * D * (P * R) <= (2 * Zpos m * 1000000 + D) * P).
      { rewrite EN in Hnear. nia. }
      nia.
Qed.

(* ================================================================== *)
(** ** The frequency table of the module *)

Lemma lit_cons (x y : ascii) (s : str) :
  re.lit (x :: y :: s) = re.Cat (re.chr x) (re.lit (y :: s)).
Proof. reflexivity. Qed.

(** A literal matches where the subject starts with it. *)
Lemma lit_match (s : str) :
  forall k c,
    re.rmatch (re.lit s) k c
    = if startswith (re.c_rest c) s
      then k (re.Cursor (prev_after (re.c_prev c) s) (re.c_pos c + length s)
                (skipn (length s) (re.c_rest c)) (re.c_caps c))
      else None.
Proof.
  induction s as [|x|x y s _ IH] using list_ind2; intros k c.
  - cbn [re.lit map re.seq re.rmatch]. rewrite startswith_nil.
    cbn [length skipn prev_after fold_left]. rewrite Nat.add_0_r.
    destruct c; reflexivity.
  - cbn [re.lit map re.seq re.rmatch re.chr].
    destruct (re.c_rest c) as [|z rest'] eqn:Er; [reflexivity|].
    cbn [startswith]. rewrite startswith_nil, andb_true_r.
    destruct (Ascii.eqb x z) eqn:Ex; [|reflexivity].
    apply Ascii.eqb_eq in Ex. subst z.
    cbn [length skipn prev_after fold_left].
    replace (re.c_pos c + 1)%nat with (S (re.c_pos c)) by lia. reflexivity.
  - rewrite lit_cons. cbn [re.rmatch re.chr].
    destruct (re.c_rest c) as [|z rest'] eqn:Er; [reflexivity|].
    change (startswith (z :: rest') (x :: y :: s))
      with (Ascii.eqb x z && startswith rest' (y :: s))%bool.
    destruct (Ascii.eqb x z) eqn:Ex; [|reflexivity].
    apply Ascii.eqb_eq in Ex. subst z.
    rewrite IH. cbn [re.c_rest re.c_pos re.c_prev re.c_caps andb].
    destruct (startswith rest' (y :: s)); [|reflexivity].
    cbn [length skipn prev_after fold_left].
    replace (S (re.c_pos c) + S (length s))%nat
      with (re.c_pos c + S (S (length s)))%nat by lia.
    reflexivity.
Qed.

Lemma contains_cons (sub : str) (x : ascii) (s : str) :
  contains sub (x :: s) = (startswith (x :: s) sub || contains sub s)%bool.
Proof. reflexivity. Qed.

Lemma contains_nil (sub : str) : contains sub [] = startswith [] sub.
Proof. cbn [contains]. apply orb_false_r. Qed.

(** The lazy repetition followed by a literal succeeds where the literal
    occurs further on. *)
Lemma lazy_any_lit (lit : str) (rest : str) :
  forall prev pos caps,
    lazy_any (re.rmatch (re.lit lit) Some) prev pos caps rest <> None
    <-> contains lit rest = true.
Proof.
  induction rest as [|x rest IH]; intros prev pos caps; cbn [lazy_any].
  - rewrite lit_match. cbn [re.c_rest]. rewrite contains_nil.
    destruct (startswith [] lit); split; try discriminate; try reflexivity.
    intros N. contradiction N. reflexivity.
  - rewrite lit_match. cbn [re.c_rest]. rewrite contains_cons.
    destruct (startswith (x :: rest) lit); cbn [orb].
    + split; [reflexivity|discriminate].
    + apply IH.
Qed.

Lemma table_at_spec (prev : option ascii) (pos : nat) (rest : str) :
  table_at (re.Cursor prev pos rest []) <> None
  <-> startswith rest table_start = true
      /\ contains table_end (skipn (length table_start) rest) = true.
Proof.
  unfold table_at. rewrite lit_match. cbn [re.c_rest re.c_pos re.c_prev re.c_caps].
  destruct (startswith rest table_start).
  - rewrite lazy_any_lit. tauto.
  - split; [intros N; contradiction N; reflexivity|intros [N _]; discriminate].
Qed.

Lemma contains_skipn (sub : str) (n : nat) (s : str) :
  contains sub (skipn n s) = true -> contains sub s = true.
Proof.
  revert s. induction n as [|n IH]; intros s; [exact (fun H => H)|].
  destruct s as [|x s]; [exact (fun H => H)|].
  cbn [skipn]. intros H. rewrite contains_cons, (IH _ H). apply orb_true_r.
Qed.

Lemma table_search_from_spec (rest : str) :
  forall prev pos i,
    table_search_from prev pos rest = Some i
    <-> exists j,
          i = (pos + j)%nat /\ (j <= length rest)%nat
          /\ startswith (skipn j rest) table_start = true
          /\ contains table_end (skipn (j + length table_start) rest) = true
          /\ forall j', (j' < j)%nat ->
                        startswith (skipn j' rest) table_start = false.
Proof.
  induction rest as [|x rest IH]; intros prev pos i; cbn [table_search_from].
  - pose proof (table_at_spec prev pos []) as Hat.
    destruct (table_at (re.Cursor prev pos [] [])).
    + destruct Hat as [Hat _]. destruct Hat; [discriminate|discriminate].
    + split; [discriminate|]. intros (j & _ & Hj & Hs & _).
      assert (j = O) as -> by (simpl in Hj; lia). discriminate.
  - pose proof (table_at_spec prev pos (x :: rest)) as Hat.
    destruct (table_at (re.Cursor prev pos (x :: rest) [])).
    + destruct Hat as [Hat _]. destruct Hat as [Hs He]; [discriminate|].
      split.
      * intros H. inversion H; subst. exists O. rewrite Nat.add_0_r.
        split; [reflexivity|]. split; [simpl; lia|]. split; [exact Hs|].
        split; [exact He|]. intros j' Hj'. lia.
      * intros (j & -> & _ & _ & _ & Hmin). destruct j as [|j].
        -- rewrite Nat.add_0_r. reflexivity.
        -- specialize (Hmin O (Nat.lt_0_succ _)). cbn [skipn] in Hmin. congruence.
    + rewrite IH. split.
      * intros (j & -> & Hj & Hs & He & Hmin). exists (S j).
        split; [lia|]. split; [simpl; lia|]. split; [exact Hs|]. split; [exact He|].
        intros j' Hj'. destruct j' as [|j'].
        -- cbn [skipn].
           destruct (startswith (x :: rest) table_start) eqn:E; [|reflexivity].
           exfalso. destruct Hat as [_ Hat]. apply Hat; [|reflexivity].
           split; [reflexivity|].
           replace (j + length table_start)%nat
             with ((S j - 1) + length table_start)%nat in He by lia.
           change (skipn (length table_start) (x :: rest))
             with (skipn (Nat.pred (length table_start)) rest).
           apply (@contains_skipn _ (S j) _).
           rewrite skipn_skipn.
           replace (S j + Nat.pred (length table_start))%nat
             with (S j - 1 + length table_start)%nat by (cbn; lia).
           exact He.
        -- cbn [skipn]. apply Hmin. lia.
      * intros (j & -> & Hj & Hs & He & Hmin). destruct j as [|j].
        -- exfalso. destruct Hat as [_ Hat]. apply Hat; [|reflexivity].
           cbn [skipn Nat.add] in Hs, He. auto.
        -- exists j. split; [lia|]. split; [simpl in Hj; lia|].
           split; [exact Hs|]. split; [exact He|].
           intros j' Hj'. apply (Hmin (S j')). lia.
Qed.

(** X26.  The search of [_write_packet_data_js] in the text of the file
    succeeds exactly when the declaration of the table occurs in it and the
    end of the table, followed by the head of the first helper, occurs
    further on; what is kept starts at the first occurrence of the
    declaration, also when that occurrence lies in the lines of an item. *)
Theorem X26_kept_table (existing : str) (i : nat) :
  table_search existing = Some i
  <-> (i <= length existing)%nat
      /\ startswith (skipn i existing) table_start = true
      /\ contains table_end (skipn (i + length table_start) existing) = true
      /\ forall j, (j < i)%nat -> startswith (skipn j existing) table_start = false.
Proof.
  unfold table_search. rewrite table_search_from_spec. split.
  - intros (j & -> & H). exact H.
  - intros H. exists i. split; [reflexivity|exact H].
Qed.

Lemma join_app (sep : str) (l1 l2 : list str) :
  l1 <> [] -> l2 <> [] ->
  join sep (l1 ++ l2) = join sep l1 ++ sep ++ join sep l2.
Proof.
  intros H1 H2. induction l1 as [|a l1 IH]; [contradiction H1; reflexivity|].
  destruct l1 as [|b l1].
  - cbn [app join]. destruct l2; [contradiction H2; reflexivity|reflexivity].
  - change ((a :: b :: l1) ++ l2) with (a :: (b :: l1) ++ l2).
    change (join sep (a :: (b :: l1) ++ l2))
      with (a ++ sep ++ join sep ((b :: l1) ++ l2)).
    rewrite IH by discriminate.
    change (join sep (a :: b :: l1)) with (a ++ sep ++ join sep (b :: l1)).
    rewrite <- !app_assoc. reflexivity.
Qed.

Section TableKept.
Context {B : Builtins}.

Lemma data_lines_not_empty (now : str) (items : list PacketItem) :
  data_lines now items <> [].
Proof. discriminate. Qed.

(** The module is the generated lines followed by the text kept from the
    file, or by the fallback table when the file holds none. *)
Lemma written_module (now existing : str) (items : list PacketItem) :
  _write_packet_data_js now existing items
  = join [LF] (data_lines now items) ++ [LF]
    ++ match table_search existing with
       | Some start => skipn start existing
       | None => join [LF] fallback_lines
       end.
Proof.
  unfold _write_packet_data_js, table_lines.
  destruct (table_search existing); rewrite join_app;
    try apply data_lines_not_empty; try discriminate; reflexivity.
Qed.

(** A text without line break that starts before a line break ends
    before it. *)
Lemma startswith_before_break (s t pre : str) :
  Forall (fun c => c <> LF) pre ->
  startswith (s ++ LF :: t) pre = true -> startswith s pre = true.
Proof.
  revert pre. induction s as [|c s IH]; intros pre Hpre H.
  - destruct pre as [|p pre]; [reflexivity|].
    cbn [app startswith] in H. apply andb_true_iff in H. destruct H as [H _].
    apply Ascii.eqb_eq in H. inversion Hpre; subst. congruence.
  - destruct pre as [|p pre]; [reflexivity|].
    cbn [app startswith] in H |- *. apply andb_true_iff in H. destruct H as [H1 H2].
    rewrite H1. inversion Hpre; subst. apply IH; assumption.
Qed.

Lemma contains_startswith_skipn (sub s : str) (j : nat) :
  (j <= length s)%nat -> startswith (skipn j s) sub = true -> contains sub s = true.
Proof.
  revert s. induction j as [|j IH]; intros s Hj H.
  - cbn [skipn] in H. destruct s; cbn [contains]; rewrite H; reflexivity.
  - destruct s as [|x s]; [simpl in Hj; lia|].
    rewrite contains_cons. cbn [skipn] in H. rewrite (IH s) by (simpl in Hj; lia || exact H).
    apply orb_true_r.
Qed.

Lemma no_start_in_head (h t : str) (j : nat) :
  contains table_start h = false -> (j <= length h)%nat ->
  startswith (skipn j (h ++ LF :: t)) table_start = false.
Proof.
  intros Hh Hj.
  destruct (startswith (skipn j (h ++ LF :: t)) table_start) eqn:E; [|reflexivity].
  exfalso. rewrite skipn_app in E.
  replace (j - length h)%nat with O in E by lia. cbn [skipn] in E.
  apply startswith_before_break in E.
  - rewrite (@contains_startswith_skipn table_start h j Hj E) in Hh. discriminate.
  - unfold table_start. repeat constructor; discriminate.
Qed.

Lemma skipn_past (h t : str) (n : nat) :
  skipn (length h + n) (h ++ t) = skipn n t.
Proof.
  rewrite skipn_app, skipn_all2 by lia.
  replace (length h + n - length h)%nat with n by lia. reflexivity.
Qed.

Lemma table_found_at (existing : str) (i : nat) :
  (i <= length existing)%nat
  /\ startswith (skipn i existing) table_start = true
  /\ contains table_end (skipn (i + length table_start) existing) = true
  /\ (forall j, (j < i)%nat -> startswith (skipn j existing) table_start = false) ->
  table_search existing = Some i.
Proof.
  intros H. unfold table_search. apply table_search_from_spec.
  exists i. split; [reflexivity|exact H].
Qed.

Lemma search_after_head (h : str) :
  contains table_start h = false ->
  table_search (h ++ [LF] ++ default_table) = Some (length h + 1)%nat
  /\ table_search (h ++ [LF] ++ join [LF] fallback_lines)
     = Some (length h + 82)%nat.
Proof.
  intros Hh. split.
  - apply table_found_at. rewrite length_app.
    split; [simpl; lia|].
    rewrite <- !Nat.add_assoc, !skipn_past.
    split; [vm_compute; reflexivity|]. split; [vm_compute; reflexivity|].
    intros j Hj. apply no_start_in_head; [exact Hh|lia].
  - apply table_found_at. rewrite length_app.
    split; [simpl; lia|].
    rewrite <- !Nat.add_assoc, !skipn_past.
    split; [vm_compute; reflexivity|]. split; [vm_compute; reflexivity|].
    intros j Hj.
    destruct (Nat.le_gt_cases j (length h)) as [Hle|Hgt];
      [apply no_start_in_head; [exact Hh|exact Hle]|].
    assert (Hk : exists k, (j = length h + S k)%nat /\ (k < 81)%nat).
    { exists (j - length h - 1)%nat. lia. }
    destruct Hk as (k & -> & Hk). rewrite skipn_past.
    clear - Hk.
    do 81 (destruct k as [|k]; [vm_compute; reflexivity|]). lia.
Qed.

(** X27.  Written over a module that the script wrote without a file
    before, or over the result of such a run, the module keeps the
    fallback table without its line of comment, as long as the generated
    lines of the module before do not hold the declaration of the table. *)
Theorem X27_regenerated_table (now0 now existing : str) (items0 items : list PacketItem) :
  contains table_start (join [LF] (data_lines now0 items0)) = false ->
  existing = _write_packet_data_js now0 "" items0
  \/ existing = join [LF] (data_lines now0 items0) ++ [LF] ++ default_table ->
  _write_packet_data_js now existing items
  = join [LF] (data_lines now items) ++ [LF] ++ default_table.
Proof.
  intros Hh Hex. rewrite written_module.
  destruct (search_after_head _ Hh) as [S1 S2].
  destruct Hex as [-> | ->].
  - rewrite written_module.
    change (table_search "") with (@None nat). cbv iota.
    rewrite S2, skipn_past. reflexivity.
  - rewrite S1, skipn_past. reflexivity.
Qed.

End TableKept.

(* ================================================================== *)
(** ** Instances of the properties of the rest of the scripts *)

Lemma X1_witness :
  isascii "BBS node on fm, mailbox open" = true
  /\ no_digit "BBS node on fm, mailbox open" = true
  /\ _extract_channels "BBS node on fm, mailbox open" = []
  /\ _parse_freq_baud "BBS node on fm, mailbox open" = ("", "", []).
Proof.
  split; [reflexivity|]. split; [reflexivity|].
  apply (@X1_digits_needed decimal_builtins); reflexivity.
Defined.

Lemma X2_witness :
  In sample_item sample_items
  /\ has_run3 (upper (it_callsign sample_item))
  /\ strip (it_callsign sample_item) = it_callsign sample_item
  /\ it_name sample_item = it_callsign sample_item.
Proof.
  assert (Hin : In sample_item sample_items) by (vm_compute; left; reflexivity).
  split; [exact Hin|].
  apply (@X2_callsign decimal_builtins sample_points sample_items sample_item);
    [vm_compute; reflexivity|exact Hin].
Defined.

Lemma X3_witness :
  In sample_item sample_items
  /\ (it_type sample_item = "node" \/ it_type sample_item = "bbs")
  /\ (it_status sample_item = "online" \/ it_status sample_item = "unknown")
  /\ it_mode sample_item = "AX.25" /\ it_location sample_item = ""
  /\ it_country sample_item = ""
  /\ is_nan (it_lat sample_item) = false /\ is_nan (it_lng sample_item) = false.
Proof.
  assert (Hin : In sample_item sample_items) by (vm_compute; left; reflexivity).
  split; [exact Hin|].
  apply (@X3_fixed_fields decimal_builtins sample_points sample_items sample_item);
    [vm_compute; reflexivity|exact Hin].
Defined.

Lemma X5_witness :
  In sample_item sample_items
  /\ ((it_channels sample_item = [] /\ it_freq sample_item = ""
       /\ it_baud sample_item = "")
      \/ (exists c, In c (it_channels sample_item)
                    /\ it_freq sample_item = freq c /\ it_baud sample_item = baud c
                    /\ it_freq sample_item <> "")).
Proof.
  assert (Hin : In sample_item sample_items) by (vm_compute; left; reflexivity).
  split; [exact Hin|].
  apply (@X5_primary_among_channels decimal_builtins sample_points sample_items
           sample_item);
    [vm_compute; reflexivity|exact Hin].
Defined.

Lemma X6_witness : exists r, build_item (gap_point "GB7AAA") 1 = Ok r.
Proof.
  apply (@X6_well_typed_point decimal_builtins).
  - reflexivity.
  - reflexivity.
  - intros fd E. vm_compute in E. inversion E. reflexivity.
Defined.

Lemma X9_witness :
  In sample_point sample_points
  /\ (In sample_point sample_points
      <-> from_feature sample_collection sample_point
          \/ from_row sample_collection sample_point).
Proof.
  split; [vm_compute; left; reflexivity|].
  apply (@X9_points_sources sample_collection sample_points sample_point).
  vm_compute. reflexivity.
Defined.

Lemma X10_witness : (length sample_points <= 10 + 0)%nat.
Proof.
  apply (@X10_points_count sample_payload sample_points). vm_compute. reflexivity.
Defined.

Lemma X11_witness :
  exists pts items,
    _extract_points_from_geojson sample_payload = Returned pts
    /\ _build_items pts = Ok items.
Proof.
  apply (@X11_well_typed_payload decimal_builtins). vm_compute. reflexivity.
Defined.

Lemma X12_witness :
  _as_float (PyInt 53) = Some (it_lat (nth 2 sample_items blank_item))
  /\ _as_float (PyInt 3) = Some (it_lng (nth 2 sample_items blank_item)).
Proof.
  apply (@X12_coordinates_swapped decimal_builtins (sample_feature_dict 3)
           [("type", PyStr "Point"); ("coordinates", PyList [PyInt 3; PyInt 53])]
           (PyInt 3) (PyInt 53) [] (nth 2 sample_points []) 3
           (nth 2 sample_items blank_item));
    vm_compute; reflexivity.
Defined.

Lemma X13_witness :
  exists html before u after obj pts items,
    Some plain_page = Some html
    /\ _find_data_urls_from_html html = before ++ u :: after
    /\ Forall (passed_over (fun _ => Some sample_payload)) before
    /\ Some sample_payload = Some obj
    /\ _extract_points_from_geojson obj = Returned pts
    /\ (10 <= length pts)%nat
    /\ _build_items pts = Ok items
    /\ (10 <= length items)%nat
    /\ written_text (main (fun _ => Some plain_page)
                       (fun _ => Some sample_payload) "2024-05-01" "")
       = _write_packet_data_js "2024-05-01" "" items.
Proof.
  apply (@X13_main_writes decimal_builtins (fun _ => Some plain_page)
           (fun _ => Some sample_payload) "2024-05-01" "").
  vm_compute. reflexivity.
Defined.

Lemma X14_witness :
  no_points_message <> no_endpoint_message
  /\ (no_points_message = no_points_message
      \/ exists n, (n < 10)%nat /\ no_points_message = too_few_message n).
Proof.
  apply (@X14_main_exits decimal_builtins (fun _ => Some plain_page)
           (fun _ => None) "2024-05-01" "").
  vm_compute. reflexivity.
Defined.

Lemma X15_witness : isascii sample_text = true /\ all_digits (baud sample_channel).
Proof.
  split; [reflexivity|].
  apply (@X15_baud_digits decimal_builtins sample_text sample_channel).
  - reflexivity.
  - vm_compute. left. reflexivity.
Defined.

Lemma X16_witness :
  substring (raw sample_channel) (lower (_strip_html sample_text)).
Proof.
  apply (@X16_raw_occurs decimal_builtins sample_text sample_channel).
  vm_compute. left. reflexivity.
Defined.

Lemma X19_witness :
  (capital_url = DATA_URL
   \/ exists m, In m (re.findall api_re capital_page)
                /\ capital_url = "https://nodes.ukpacketradio.network/" ++ m)
  /\ startswith capital_url "https://nodes.ukpacketradio.network/" = true.
Proof.
  apply (@X19_resolver_on_host capital_page capital_url).
  vm_compute. left. reflexivity.
Defined.

Lemma X20_witness : absolute_url script_url = true /\ on_host script_url = true.
Proof.
  apply (proj1 (proj2 (@X20_discovery_lists (fun _ => None) script_page script_url))).
  vm_compute. left. reflexivity.
Defined.

Lemma X21_witness : mhz_text (freq sample_channel).
Proof.
  apply (@X21_frequency_text decimal_builtins sample_text sample_channel).
  vm_compute. left. reflexivity.
Defined.

Lemma X23_witness :
  js_read_single_quoted ("'" ++ _js_escape "a\b`c${d}" ++ "'" ++ ",")
  = Some ("a\b`c${d}", ",").
Proof.
  apply X23_escape_read_back. unfold quote_free.
  repeat (constructor; [repeat split; discriminate|]). constructor.
Defined.

Lemma X24_witness :
  _js_escape (freq sample_channel) = freq sample_channel
  /\ _js_escape (baud sample_channel) = baud sample_channel
  /\ js_read_single_quoted ("'" ++ _js_escape (freq sample_channel) ++ "'" ++ ",")
     = Some (freq sample_channel, ",")
  /\ js_read_single_quoted ("'" ++ _js_escape (baud sample_channel) ++ "'" ++ ",")
     = Some (baud sample_channel, ",").
Proof.
  apply (@X24_numbers_read_back decimal_builtins sample_text sample_channel ",").
  vm_compute. left. reflexivity.
Defined.

Lemma X25_witness :
  exists q,
    decimal_value (_fmt_mhz (float_of_ratio false 1448 10)) = Some q
    /\ (value_of (float_of_ratio false 1448 10) - (1 # 2000000) <= q)%Q
    /\ (q <= value_of (float_of_ratio false 1448 10) + (1 # 2000000))%Q.
Proof.
  apply X25_nearest_millionth; vm_compute; reflexivity.
Defined.

Lemma X27_witness :
  _write_packet_data_js "2024-06-01"
    (_write_packet_data_js "2024-05-01" "" sample_items) []
  = join [LF] (data_lines "2024-06-01" []) ++ [LF] ++ default_table.
Proof.
  apply (@X27_regenerated_table decimal_builtins "2024-05-01" "2024-06-01"
           (_write_packet_data_js "2024-05-01" "" sample_items) sample_items []).
  - vm_compute. reflexivity.
  - left. reflexivity.
Defined.
